(** * gopherjs/tool.go: the build orchestrator, its artifact cache and the
      bundle assembler

    A shallow embedding of [tool.go] (package main of gopherjs).  The Go
    program is stateful: it mutates descriptors shared by pointer, a
    process-wide package cache, the type checker's package registry and the
    file system.  All of that is threaded explicitly through a [World]
    record; calls return an [outcome] paired with the new world. *)

From Stdlib Require Import ZArith Strings.Ascii Strings.String Strings.Byte.
From stdpp Require Import gmap strings list fin_maps.

Local Open Scope string_scope.
Local Open Scope list_scope.
Local Open Scope nat_scope.
#[local] Set Warnings "-clear-no-such-hyp".

(** ** Bytes and strings

    A Go [string] is a sequence of bytes, and so is a Rocq [string]; a Go
    [[]byte] is a [list byte].  [bytes s] is the conversion [[]byte(s)]. *)

Abbreviation bytes := String.list_byte_of_string.

#[global] Instance byte_eq_dec : EqDecision byte := Byte.byte_eq_dec.

(** The bytes that have no spelling inside a Rocq string literal. *)
Definition TAB : byte := x09.
Definition NL : byte := x0a.
Definition QUOTE : byte := x22.

(** ** Outcomes of a call

    [Done a] is a normal return ([err == nil] where the Go function returns
    an error), [Failed e] a returned non-nil error, [Panicked] a run-time
    panic, [OutOfFuel] the model's recursion bound being hit. *)

Inductive error : Type :=
  | ErrNotExist (path : string)
  | ErrIO (msg : string)
  | ErrImport (importPath : string)
  | ErrorList (diagnostics : list string).

Inductive outcome (A : Type) : Type :=
  | Done (a : A)
  | Failed (e : error)
  | Panicked
  | OutOfFuel.
Arguments Done {A} a.
Arguments Failed {A} e.
Arguments Panicked {A}.
Arguments OutOfFuel {A}.

(** An outcome that is not a normal return, re-typed for the caller. *)
Definition abort {A B : Type} (r : outcome A) : outcome B :=
  match r with
  | Done _ => Panicked
  | Failed e => Failed e
  | Panicked => Panicked
  | OutOfFuel => OutOfFuel
  end.

(** ** Package [path] of the Go standard library *)

Definition SLASH : ascii := "/"%char.

(** [strings.LastIndex(s, "/")] together with the slice [s[i+1:]]: the part
    of [s] after its last slash, or [s] when it has none. *)
Fixpoint afterLastSlash (s : string) : string :=
  match s with
  | EmptyString => EmptyString
  | String c rest =>
      if decide (SLASH ∈ list_ascii_of_string rest) then afterLastSlash rest
      else if decide (c = SLASH) then rest
      else s
  end.

(** The loop that strips trailing slashes. *)
Fixpoint stripTrailingSlashes (s : string) : string :=
  match s with
  | EmptyString => EmptyString
  | String c rest =>
      match stripTrailingSlashes rest with
      | EmptyString => if decide (c = SLASH) then EmptyString else String c EmptyString
      | rest' => String c rest'
      end
  end.

(** [path.Base] *)
Definition path_Base (path : string) : string :=
  if decide (path = "") then "."
  else
    let path1 := stripTrailingSlashes path in
    let path2 := afterLastSlash path1 in
    if decide (path2 = "") then "/" else path2.

(** ** Collaborator data: [go/build] and [go/types] *)

Module build.
(** The fields of [build.Package] that tool.go reads or writes. *)
Record Package : Type := mkPackage {
  Name : string;
  ImportPath : string;
  Imports : list string;
  Dir : string;
  GoFiles : list string;
  PkgObj : string;
  BinDir : string
}.

(** [Package.IsCommand]: the package is named main. *)
Definition IsCommand (p : Package) : bool := String.eqb (Name p) "main".
End build.

Module types.
(** A [*types.Package] as tool.go sees it: its address (the [loaded] map of
    the bundle assembler is keyed by pointer), [Path()], [Scope().Names()]
    and [Imports()].  The import graph is a finite tree of such nodes; a
    package reached along two routes is the same node twice. *)
#[local] Unset Elimination Schemes.
Inductive Package : Type := mkPackage {
  addr : positive;
  Path : string;
  Scope_Names : list string;
  Imports : list Package
}.
#[local] Set Elimination Schemes.
End types.

(** ** The [build] and [run] commands of [main] (tool.go 78-101)

    [go/parser.ParseFile] with [ImportsOnly] is a collaborator: it either
    fails or yields the import paths of the entry file. *)

(** The slice expression [s[:n]] with a signed upper bound: it panics
    ([None]) when the bound is negative or beyond the length. *)
Definition slice_to (s : string) (n : Z) : option string :=
  if decide (0 ≤ n ≤ Z.of_nat (String.length s))%Z
  then Some (String.substring 0 (Z.to_nat n) s)
  else None.

(** [basename[:len(basename)-3] + ".js"] *)
Definition artifactName (basename : string) : option string :=
  match slice_to basename (Z.of_nat (String.length basename) - 3) with
  | Some stem => Some (stem +:+ ".js")
  | None => None
  end.

Section EntryCommand.
Variable parseImports : string -> error + list string.
Variable path_Dir : string -> string.

(** The [case "build", "run"] branch: the descriptor handed to
    [buildPackage], an error printed to stderr, or a panic. *)
Definition entryDescriptor (filename : string) : outcome build.Package :=
  match parseImports filename with
  | inl err => Failed err
  | inr imports =>
      let basename := path_Base filename in
      match artifactName basename with
      | None => Panicked
      | Some obj =>
          Done {| build.Name := "main"; build.ImportPath := "main";
                  build.Imports := imports; build.Dir := path_Dir filename;
                  build.GoFiles := [basename]; build.PkgObj := obj;
                  build.BinDir := "" |}
      end
  end.
End EntryCommand.

(** ** Export bridging (tool.go 273-280) *)

(** [go/ast.IsExported]: the first rune of the name is an upper-case letter.
    For a first byte below 128 that is the range A-Z; the Unicode table
    beyond ASCII is standard-library data and comes as [upper]. *)
Definition ast_IsExported (upper : string -> bool) (name : string) : bool :=
  match name with
  | EmptyString => false
  | String c _ =>
      if decide (nat_of_ascii c < 128)%nat
      then bool_decide (65 ≤ nat_of_ascii c ≤ 90)%nat
      else upper name
  end.

(** [strings.Join] *)
Fixpoint strings_Join (a : list string) (sep : string) : string :=
  match a with
  | [] => ""
  | [x] => x
  | x :: rest => x +:+ sep +:+ strings_Join rest sep
  end.

Section Exports.
Variable upper : string -> bool.

(** The loop over [imp.Scope().Names()]: [exports] grows by
    [fmt.Sprintf("%s: %s", name, name)] for each exported name. *)
Definition collectExports (names : list string) : list string :=
  fold_left
    (fun exports name =>
       if ast_IsExported upper name
       then exports ++ [name +:+ ": " +:+ name]
       else exports)
    names [].

(** The bytes appended to [jsCode] for one import (tool.go 271-280). *)
Definition registration (path : string) (code : list byte)
    (names : list string) : list byte :=
  (bytes "Go$packages[" ++ [QUOTE] ++ bytes path ++ [QUOTE]
     ++ bytes "] = (function() {")
  ++ code
  ++ ([TAB] ++ bytes ("return { " +:+ strings_Join (collectExports names) ", " +:+ " };")
      ++ [NL])
  ++ (bytes "})();" ++ [NL]).
End Exports.

(** ** The artifact file and the scan for its sentinel (tool.go 220-232) *)

(** ["$$\n"] *)
Definition sentinel : list byte := [x24; x24; NL].

(** [objFile.Read(buf)] at offset [off] of a file holding [d]: the bytes
    read overwrite the front of [buf]; the count is returned, and a count
    of zero is [io.EOF]. *)
Definition file_Read (d : list byte) (off : nat) (buf : list byte)
    : list byte * nat :=
  let chunk := take (length buf) (drop off d) in
  (chunk ++ drop (length chunk) buf, length chunk).

Inductive scan : Type :=
  | Found (off : nat)      (* the loop ended, the file offset is [off] *)
  | AtStart                (* Seek(-4, 1) failed: [return nil] *)
  | ReadError              (* Read failed inside the loop: [return err] *)
  | ScanFuel.

(** The loop [for string(buf) != "$$\n"] with the file offset [off]. *)
Fixpoint searchBackwards (fuel : nat) (d : list byte) (off : nat)
    (buf : list byte) : scan :=
  if decide (buf = sentinel) then Found off
  else
    match fuel with
    | O => ScanFuel
    | S fuel' =>
        if decide (off < 4) then AtStart
        else
          let '(buf', n) := file_Read d (off - 4) buf in
          if decide (n = 0) then ReadError
          else searchBackwards fuel' d (off - 4 + n) buf'
    end.

(** What lines 221-232 come to: the code [ioutil.ReadAll] returns after the
    loop, [return nil] without code, an error, or the bound being hit. *)
Inductive payloadScan : Type :=
  | Payload (code : list byte)
  | NoPayload
  | ScanFailed
  | ScanDiverged.

(** Lines 221-232 on a file holding [d] whose offset is [pos] when the
    metadata decoder returns.  Each turn of the loop moves the offset back,
    so [S off] turns are enough. *)
Definition scanPayload (d : list byte) (pos : nat) : payloadScan :=
  let '(buf, n) := file_Read d pos [x00; x00; x00] in
  match searchBackwards (S (pos + n)) d (pos + n) buf with
  | Found off => Payload (drop off d)
  | AtStart => NoPayload
  | ReadError => ScanFailed
  | ScanFuel => ScanDiverged
  end.

(** ** The world of one run *)

(** [time.Time] as a count of ticks; the zero [Time] of a fresh descriptor
    is the least instant. *)
Definition After (t u : nat) : bool := bool_decide (u < t).

Record File : Type := mkFile {
  ModTime : nat;
  Perm : nat;
  Data : list byte
}.

(** A [*GopherPackage] is created in [main] (the descriptor of the entry
    request) or in [getPackage], which stores it in [t.packages] under the
    requested import path before anything else sees it.  So a pointer is a
    location: the root or a key of the cache. *)
Inductive loc : Type :=
  | LRoot
  | LCache (importPath : string).

#[global] Instance loc_eq_dec : EqDecision loc.
Proof. solve_decision. Defined.

Record GopherPackage : Type := mkGopherPackage {
  Package : build.Package;
  SrcLastModified : nat;
  JavaScriptCode : list byte
}.

(** What the run did, in order: [buildPackage] entered, [translatePackage]
    called, the artifact opened by [os.OpenFile].  Each event carries the
    descriptor the acting [buildPackage] call works on.  The source keeps no
    such log; the trace is there for the properties to speak of calls. *)
Inductive event : Type :=
  | EvBuild (l : loc) (writeToDisk : bool)
  | EvTranslate (l : loc) (importPath : string)
  | EvOpenFile (l : loc) (path : string).

Record World : Type := mkWorld {
  packages : gmap string GopherPackage;          (* t.packages *)
  root : GopherPackage;                          (* pkg of main *)
  typesPackages : gmap string types.Package;     (* t.typesConfig.Packages *)
  files : gmap string File;                      (* the file system *)
  now : nat;                                     (* the clock *)
  trace : list event
}.

Definition pkgAt (l : loc) (w : World) : option GopherPackage :=
  match l with
  | LRoot => Some (root w)
  | LCache k => packages w !! k
  end.

Definition updPkg (l : loc) (f : GopherPackage -> GopherPackage)
    (w : World) : World :=
  match l with
  | LRoot =>
      mkWorld (packages w) (f (root w)) (typesPackages w) (files w) (now w)
        (trace w)
  | LCache k =>
      mkWorld (alter f k (packages w)) (root w) (typesPackages w) (files w)
        (now w) (trace w)
  end.

Definition setSrcLastModified (l : loc) (t : nat) : World -> World :=
  updPkg l (fun p => mkGopherPackage (Package p) t (JavaScriptCode p)).

Definition setJavaScriptCode (l : loc) (c : list byte) : World -> World :=
  updPkg l (fun p => mkGopherPackage (Package p) (SrcLastModified p) c).

Definition setPackages (m : gmap string GopherPackage) (w : World) : World :=
  mkWorld m (root w) (typesPackages w) (files w) (now w) (trace w).

Definition setTypesPackages (m : gmap string types.Package) (w : World)
    : World :=
  mkWorld (packages w) (root w) m (files w) (now w) (trace w).

Definition setFiles (m : gmap string File) (w : World) : World :=
  mkWorld (packages w) (root w) (typesPackages w) m (now w) (trace w).

Definition log (e : event) (w : World) : World :=
  mkWorld (packages w) (root w) (typesPackages w) (files w) (now w)
    (trace w ++ [e]).

(** [os.OpenFile(path, O_RDWR|O_CREATE|O_TRUNC, perm)]: the file is empty
    afterwards; one that existed keeps its mode. *)
Definition createTruncate (path : string) (perm : nat) (w : World) : World :=
  let mode :=
    match files w !! path with Some old => Perm old | None => perm end in
  setFiles (<[path := mkFile (now w) mode []]> (files w)) w.

(** [file.Write(d)] on the file opened at [path]. *)
Definition file_Write (path : string) (d : list byte) (w : World) : World :=
  match files w !! path with
  | Some f =>
      setFiles (<[path := mkFile (now w) (Perm f) (Data f ++ d)]> (files w)) w
  | None => w
  end.

(** ** The collaborators *)

(** What [types.GcImportData] leaves behind: the package or an error, the
    registry with the entries the decoder added for packages it met, and
    the offset of the underlying file, which the [bufio.Reader] wrapped
    around it has advanced by whole buffer fills. *)
Record Decoded : Type := mkDecoded {
  dec_result : error + types.Package;
  dec_registry : gmap string types.Package;
  dec_offset : nat
}.

(** What tool.go calls and does not define.  [translatePackage] and
    [prelude] belong to other files of package main, the rest to the Go
    libraries.  The translation and the decoder read and extend the
    registry they are given; [os.MkdirAll], [os.OpenFile] and [os.Open]
    fail or not by path. *)
Record Env : Type := mkEnv {
  os_Args0 : string;
  buildContext_Import :
    gmap string File -> string -> string -> error + build.Package;
  translatePackage :
    string -> string -> list string -> gmap string File ->
    gmap string types.Package ->
    (error + list byte) * gmap string types.Package;
  types_GcImportData :
    gmap string types.Package -> string -> string -> list byte -> Decoded;
  types_Unsafe : types.Package;
  exportData : types.Package -> list byte;
  prelude : list byte;          (* strings.TrimSpace(prelude) *)
  path_Dir : string -> string;
  os_MkdirAll : string -> option error;
  os_OpenFile : string -> option error;
  os_Open : string -> option error;
  unicode_IsUpper : string -> bool
}.

(** Modelled from the spec: [gcexporter.Write] (package gopherjs/gcexporter
    is not among the sources).  For a library the artifact is a
    type-interface metadata blob followed by the sentinel line, followed by
    the payload; tool.go writes the payload itself, so the exporter writes
    the blob and the sentinel. *)
Definition gcexporter_Write (E : Env) (p : types.Package) : list byte :=
  exportData E p ++ sentinel.

(** ** The orchestrator (tool.go 153-318) *)

Record Closure : Type := mkClosure {
  loaded : gset positive;      (* map[*types.Package]bool, by address *)
  jsCode : list byte
}.

Section Orchestrator.
Variable E : Env.

(** [os.Stat] *)
Definition os_Stat (path : string) (w : World) : error + File :=
  match files w !! path with
  | Some f => inr f
  | None => inl (ErrNotExist path)
  end.

(** The three paths the bundle assembler passes over (line 254). *)
Definition skipped (path : string) : bool :=
  bool_decide (path = "unsafe") || bool_decide (path = "reflect")
  || bool_decide (path = "go/doc").

Section Body.
(** The recursive call of [buildPackage], one unit of fuel down. *)
Variable recur : loc -> bool -> World -> outcome unit * World.

(** [getPackage] (lines 153-168).  [writeToDisk] is not used by the
    body: line 164 passes the constant [true]. *)
Definition getPackage (importPath srcDir : string) (writeToDisk : bool)
    (w : World) : outcome loc * World :=
  match packages w !! importPath with
  | Some _ => (Done (LCache importPath), w)
  | None =>
      match buildContext_Import E (files w) importPath srcDir with
      | inl err => (Failed err, w)
      | inr otherPkg =>
          let pkg := mkGopherPackage otherPkg 0 [] in
          let w1 := setPackages (<[importPath := pkg]> (packages w)) w in
          match recur (LCache importPath) true w1 with
          | (Done _, w2) => (Done (LCache importPath), w2)
          | (r, w2) => (abort r, w2)
          end
      end
  end.

(** Lines 182-190. *)
Fixpoint rangeImports (l : loc) (dir : string) (imports : list string)
    (w : World) : outcome unit * World :=
  match imports with
  | [] => (Done tt, w)
  | importedPkgPath :: rest =>
      match getPackage importedPkgPath dir true w with
      | (Done cl, w1) =>
          match pkgAt cl w1, pkgAt l w1 with
          | Some compiledPkg, Some pkg =>
              let w2 :=
                if After (SrcLastModified compiledPkg) (SrcLastModified pkg)
                then setSrcLastModified l (SrcLastModified compiledPkg) w1
                else w1 in
              rangeImports l dir rest w2
          | _, _ => (Panicked, w1)
          end
      | (r, w1) => (abort r, w1)
      end
  end.

(** Lines 192-200. *)
Fixpoint rangeGoFiles (l : loc) (dir : string) (names : list string)
    (w : World) : outcome unit * World :=
  match names with
  | [] => (Done tt, w)
  | name :: rest =>
      match os_Stat (dir +:+ "/" +:+ name) w with
      | inl err => (Failed err, w)
      | inr fileInfo =>
          match pkgAt l w with
          | Some pkg =>
              let w1 :=
                if After (ModTime fileInfo) (SrcLastModified pkg)
                then setSrcLastModified l (ModTime fileInfo) w
                else w in
              rangeGoFiles l dir rest w1
          | None => (Panicked, w)
          end
      end
  end.

(** Lines 176-200: the freshness timestamp of the descriptor at [l]. *)
Definition freshness (l : loc) (bp : build.Package) (w : World)
    : outcome unit * World :=
  match os_Stat (os_Args0 E) w with
  | inl err => (Failed err, w)
  | inr fileInfo =>
      let w1 := setSrcLastModified l (ModTime fileInfo) w in
      match rangeImports l (build.Dir bp) (build.Imports bp) w1 with
      | (Done _, w2) =>
          rangeGoFiles l (build.Dir bp) (build.GoFiles bp) w2
      | (r, w2) => (r, w2)
      end
  end.

(** The test of line 203. *)
Definition upToDate (bp : build.Package) (srcLastModified : nat)
    (writeToDisk : bool) (w : World) : bool :=
  match os_Stat (build.PkgObj bp) w with
  | inr fileInfo => After (ModTime fileInfo) srcLastModified && writeToDisk
  | inl _ => false
  end.

(** Lines 204-237: the package object is up to date.  A nil entry of
    [t.typesConfig.Packages] reads like a missing one, so storing nil
    is deleting. *)
Definition loadFromDisk (l : loc) (bp : build.Package) (w : World)
    : outcome unit * World :=
  if build.IsCommand bp then (Done tt, w)
  else
    match os_Open E (build.PkgObj bp), files w !! build.PkgObj bp with
    | Some err, _ => (Failed err, w)
    | None, None => (Failed (ErrNotExist (build.PkgObj bp)), w)
    | None, Some objFile =>
        let d := types_GcImportData E (typesPackages w) (build.PkgObj bp)
                   (build.ImportPath bp) (Data objFile) in
        match dec_result d with
        | inl err =>
            (Failed err,
             setTypesPackages
               (delete (build.ImportPath bp) (dec_registry d)) w)
        | inr typesPkg =>
            let w1 :=
              setTypesPackages
                (<[build.ImportPath bp := typesPkg]> (dec_registry d)) w in
            match scanPayload (Data objFile)
                    (dec_offset d `min` length (Data objFile)) with
            | Payload code => (Done tt, setJavaScriptCode l code w1)
            | NoPayload => (Done tt, w1)
            | ScanFailed => (Failed (ErrIO "EOF"), w1)
            | ScanDiverged => (OutOfFuel, w1)
            end
        end
    end.

(** Lines 252-283: the closure [loadImportsOf]; [loaded] and [jsCode]
    are the variables it captures, [dir] is [pkg.Dir]. *)
Fixpoint loadImportsOf (dir : string) (typesPkg : types.Package)
    (c : Closure) (w : World) {struct typesPkg}
    : outcome unit * Closure * World :=
  match typesPkg with
  | types.mkPackage _ _ _ imports =>
      (fix range (imps : list types.Package) (c : Closure) (w : World)
           {struct imps} : outcome unit * Closure * World :=
         match imps with
         | [] => (Done tt, c, w)
         | imp :: rest =>
             if skipped (types.Path imp) then range rest c w
             else if decide (types.addr imp ∈ loaded c) then range rest c w
             else
               let c1 := mkClosure ({[types.addr imp]} ∪ loaded c) (jsCode c) in
               match loadImportsOf dir imp c1 w with
               | (Done _, c2, w2) =>
                   match getPackage (types.Path imp) dir false w2 with
                   | (Done gl, w3) =>
                       match pkgAt gl w3 with
                       | Some gopherPkg =>
                           let c3 :=
                             mkClosure (loaded c2)
                               (jsCode c2 ++
                                registration (unicode_IsUpper E)
                                  (types.Path imp)
                                  (JavaScriptCode gopherPkg)
                                  (types.Scope_Names imp)) in
                           range rest c3 w3
                       | None => (Panicked, c2, w3)
                       end
                   | (r, w3) => (abort r, c2, w3)
                   end
               | (r, c2, w2) => (r, c2, w2)
               end
         end) imports c w
  end.

(** The [range] loop of [loadImportsOf] as a function of its own. *)
Fixpoint rangeTypesImports (dir : string) (imps : list types.Package)
    (c : Closure) (w : World) : outcome unit * Closure * World :=
  match imps with
  | [] => (Done tt, c, w)
  | imp :: rest =>
      if skipped (types.Path imp) then rangeTypesImports dir rest c w
      else if decide (types.addr imp ∈ loaded c)
      then rangeTypesImports dir rest c w
      else
        let c1 := mkClosure ({[types.addr imp]} ∪ loaded c) (jsCode c) in
        match loadImportsOf dir imp c1 w with
        | (Done _, c2, w2) =>
            match getPackage (types.Path imp) dir false w2 with
            | (Done gl, w3) =>
                match pkgAt gl w3 with
                | Some gopherPkg =>
                    let c3 :=
                      mkClosure (loaded c2)
                        (jsCode c2 ++
                         registration (unicode_IsUpper E) (types.Path imp)
                           (JavaScriptCode gopherPkg)
                           (types.Scope_Names imp)) in
                    rangeTypesImports dir rest c3 w3
                | None => (Panicked, c2, w3)
                end
            | (r, w3) => (abort r, c2, w3)
            end
        | (r, c2, w2) => (r, c2, w2)
        end
  end.

(** Lines 292-317: store the code on the descriptor and, when asked,
    write the artifact.  Errors of [Write] and [Close] are discarded by
    the source; the model has none.  A nil type interface handed to the
    exporter is a nil dereference. *)
Definition store (l : loc) (bp : build.Package) (writeToDisk : bool)
    (code : list byte) (w : World) : outcome unit * World :=
  let w1 := setJavaScriptCode l code w in
  if negb writeToDisk then (Done tt, w1)
  else
    match os_MkdirAll E (path_Dir E (build.PkgObj bp)) with
    | Some err => (Failed err, w1)
    | None =>
        let perm := if build.IsCommand bp then 511 else 438 in
        match os_OpenFile E (build.PkgObj bp) with
        | Some err => (Failed err, w1)
        | None =>
            let file := build.PkgObj bp in
            let w2 := createTruncate file perm (log (EvOpenFile l file) w1) in
            let w3 :=
              if build.IsCommand bp
              then file_Write file (bytes "#!/usr/bin/env node" ++ [NL]) w2
              else w2 in
            let exported : option World :=
              if negb (build.IsCommand bp) then
                match typesPackages w3 !! build.ImportPath bp with
                | Some typesPkg =>
                    Some (file_Write file (gcexporter_Write E typesPkg) w3)
                | None => None
                end
              else Some w3 in
            match exported, pkgAt l w3 with
            | Some w4, Some pkg =>
                (Done tt, file_Write file (JavaScriptCode pkg) w4)
            | _, _ => (Panicked, w3)
            end
        end
    end.

(** Lines 240-292: translate, and for a command assemble the bundle. *)
Definition translate (l : loc) (bp : build.Package) (writeToDisk : bool)
    (w : World) : outcome unit * World :=
  let w0 := log (EvTranslate l (build.ImportPath bp)) w in
  match translatePackage E (build.ImportPath bp) (build.Dir bp)
          (build.GoFiles bp) (files w0) (typesPackages w0) with
  | (inl err, reg) => (Failed err, setTypesPackages reg w0)
  | (inr packageCode, reg) =>
      let w1 := setTypesPackages reg w0 in
      if build.IsCommand bp then
        match typesPackages w1 !! build.ImportPath bp with
        | None => (Panicked, w1)
        | Some typesPkg =>
            match loadImportsOf (build.Dir bp) typesPkg
                    (mkClosure ∅ (prelude E ++ [NL])) w1 with
            | (Done _, c, w2) =>
                store l bp writeToDisk
                  (jsCode c ++ packageCode ++ bytes "main();") w2
            | (r, _, w2) => (r, w2)
            end
        end
      else store l bp writeToDisk packageCode w1
  end.

(** [buildPackage] (lines 170-318) on the descriptor at [l]. *)
Definition buildPackage_body (l : loc) (writeToDisk : bool) (w : World)
    : outcome unit * World :=
  match pkgAt l w with
  | None => (Panicked, w)
  | Some pkg =>
      let bp := Package pkg in
      let w0 := log (EvBuild l writeToDisk) w in
      if decide (build.ImportPath bp = "unsafe") then
        (Done tt,
         setTypesPackages (<["unsafe" := types_Unsafe E]> (typesPackages w0))
           w0)
      else
        match freshness l bp w0 with
        | (Done _, w1) =>
            match pkgAt l w1 with
            | Some pkg1 =>
                if upToDate bp (SrcLastModified pkg1) writeToDisk w1
                then loadFromDisk l bp w1
                else translate l bp writeToDisk w1
            | None => (Panicked, w1)
            end
        | (r, w1) => (r, w1)
        end
  end.
End Body.

(** The recursion of [buildPackage] through [getPackage], bounded by
    [fuel]. *)
Fixpoint buildPackage (fuel : nat) : loc -> bool -> World -> outcome unit * World :=
  match fuel with
  | O => fun _ _ w => (OutOfFuel, w)
  | S fuel' => buildPackage_body (buildPackage fuel')
  end.
End Orchestrator.

(** * Vocabulary of the properties *)

(** ** The sentinel scan *)

(** The three bytes of [d] at offset [i]. *)
Definition window (d : list byte) (i : nat) : list byte := take 3 (drop i d).

(** The greatest offset not above [k] at which [d] holds the sentinel. *)
Fixpoint lastSentinel (d : list byte) (k : nat) : option nat :=
  if decide (window d k = sentinel) then Some k
  else
    match k with
    | O => None
    | S k' => lastSentinel d k'
    end.

(** Where the backward scan looks first: at the offset the decoder left when
    three bytes follow it, otherwise four bytes before the end. *)
Definition scanStart (d : list byte) (pos : nat) : option nat :=
  if decide (pos + 3 ≤ length d) then Some pos
  else if decide (4 ≤ length d) then Some (length d - 4)
  else None.

(** [code] holds no sentinel. *)
Definition sentinelFree (code : list byte) : Prop :=
  ∀ i, window code i ≠ sentinel.

(** Decidable on a concrete [code]: only offsets below its length matter. *)
Definition sentinelFreeb (code : list byte) : bool :=
  forallb (fun i => negb (bool_decide (window code i = sentinel)))
    (seq 0 (length code)).

(** ** Reading the trace *)

Definition builtBy (e : event) : option loc :=
  match e with EvBuild l _ => Some l | _ => None end.
Definition translatedBy (e : event) : option loc :=
  match e with EvTranslate l _ => Some l | _ => None end.
Definition openedBy (e : event) : option loc :=
  match e with EvOpenFile l _ => Some l | _ => None end.
Definition openedPath (e : event) : option string :=
  match e with EvOpenFile _ p => Some p | _ => None end.

(** The descriptors [buildPackage] was entered for, translated, and whose
    artifact was opened for writing, each in order of occurrence. *)
Definition built (w : World) : list loc := omap builtBy (trace w).
Definition translated (w : World) : list loc := omap translatedBy (trace w).
Definition opened (w : World) : list loc := omap openedBy (trace w).
Definition openedPaths (w : World) : list string := omap openedPath (trace w).

(** ** A small universe to run the orchestrator on *)

Module Demo.
Record Source : Type := mkSource {
  s_path : string;           (* import path *)
  s_name : string;           (* name in the package clause *)
  s_imports : list string;
  s_names : list string;     (* top-level names *)
  s_addr : positive
}.

Definition find (u : list Source) (p : string) : option Source :=
  List.find (fun s => bool_decide (s_path s = p)) u.

Definition describe (s : Source) : build.Package :=
  {| build.Name := s_name s; build.ImportPath := s_path s;
     build.Imports := s_imports s; build.Dir := "/src/" +:+ s_path s;
     build.GoFiles := [s_path s +:+ ".go"];
     build.PkgObj := "/pkg/" +:+ s_path s +:+ ".a"; build.BinDir := "/bin" |}.

(** The type checker resolves each import in the registry. *)
Definition check (s : Source) (reg : gmap string types.Package)
    : types.Package :=
  types.mkPackage (s_addr s) (s_path s) (s_names s)
    (omap (fun p => reg !! p) (s_imports s)).

Definition dirOf (p : string) : string :=
  String.substring 0
    (String.length p - String.length (afterLastSlash p) - 1) p.

(** [emit]: the code the translation produces for an import path;
    [broken]: packages whose translation reports diagnostics;
    [readonly]: directories [os.MkdirAll] cannot create. *)
Definition envWith (emit : string -> list byte) (u : list Source)
    (broken readonly : list string) : Env :=
  {| os_Args0 := "/bin/gopherjs";
     buildContext_Import := fun _ p _ =>
       match find u p with
       | Some s => inr (describe s)
       | None => inl (ErrImport p)
       end;
     translatePackage := fun p _ _ _ reg =>
       match find u p with
       | Some s =>
           if bool_decide (p ∈ broken) then (inl (ErrorList [p]), reg)
           else (inr (emit p), <[p := check s reg]> reg)
       | None => (inl (ErrorList [p]), reg)
       end;
     types_GcImportData := fun reg _ id d =>
       match find u id with
       | Some s => mkDecoded (inr (check s reg)) reg (length d)
       | None => mkDecoded (inl (ErrIO id)) reg (length d)
       end;
     types_Unsafe := types.mkPackage 1 "unsafe" [] [];
     exportData := fun p => bytes ("package " +:+ types.Path p) ++ [NL];
     prelude := bytes "/*prelude*/";
     path_Dir := dirOf;
     os_MkdirAll := fun p =>
       if bool_decide (p ∈ readonly) then Some (ErrIO p) else None;
     os_OpenFile := fun _ => None;
     os_Open := fun _ => None;
     unicode_IsUpper := fun _ => false |}.

Definition env : list Source -> list string -> list string -> Env :=
  envWith (fun p => bytes ("/*" +:+ p +:+ "*/")).

Definition source (mtime : nat) : File := mkFile mtime 420 [].

(** The entry request: a command [main] in /app importing [imports]. *)
Definition entry (imports : list string) : Source :=
  mkSource "main" "main" imports ["main"] 2.

Definition start (imports : list string) (fs : gmap string File) : World :=
  {| packages := ∅;
     root := mkGopherPackage
               {| build.Name := "main"; build.ImportPath := "main";
                  build.Imports := imports; build.Dir := "/app";
                  build.GoFiles := ["main.go"]; build.PkgObj := "main.js";
                  build.BinDir := "" |} 0 [];
     typesPackages := ∅;
     files := fs;
     now := 100;
     trace := [] |}.

(** A diamond: main imports b and c, both import d. *)
Definition diamond : list Source :=
  [ entry ["b"; "c"];
    mkSource "b" "b" ["d"] ["B"] 3;
    mkSource "c" "c" ["d"] ["C"] 4;
    mkSource "d" "d" [] ["Foo"; "baz"; "Bar"] 5 ].

Definition diamondFiles : gmap string File :=
  list_to_map
    [ ("/bin/gopherjs", source 5); ("/app/main.go", source 10);
      ("/src/b/b.go", source 8); ("/src/c/c.go", source 7);
      ("/src/d/d.go", source 20) ].

Definition diamondEnv : Env := env diamond [] [].
Definition diamondStart : World := start ["b"; "c"] diamondFiles.

(** The same universe when d does not compile, and when /pkg cannot be
    created. *)
Definition brokenEnv : Env := env diamond ["d"] [].

(** A translation whose output holds the bytes of the sentinel. *)
Definition dollarCode : list byte :=
  bytes "a();/*$$" ++ [NL] ++ bytes "*/b();".
Definition dollarEnv : Env := envWith (fun _ => dollarCode) diamond [] [].

(** A later run of the tool: the files are those an earlier run left, the
    cache, the registry and the trace are new. *)
Definition rerun (w : World) : World :=
  mkWorld ∅ (root w) ∅ (files w) (now w) [].

(** A chain: main imports b, b imports d. *)
Definition chain : list Source :=
  [ entry ["b"];
    mkSource "b" "b" ["d"] ["B"] 3;
    mkSource "d" "d" [] ["Foo"; "baz"; "Bar"] 5 ].

(** main imports reflect, which imports strconv. *)
Definition mirrored : list Source :=
  [ entry ["reflect"];
    mkSource "reflect" "reflect" ["strconv"] ["TypeOf"] 3;
    mkSource "strconv" "strconv" [] ["Itoa"] 4 ].

Definition mirroredFiles : gmap string File :=
  list_to_map
    [ ("/bin/gopherjs", source 5); ("/app/main.go", source 10);
      ("/src/reflect/reflect.go", source 8);
      ("/src/strconv/strconv.go", source 7) ].

Definition mirroredEnv : Env := env mirrored [] [].
Definition mirroredStart : World := start ["reflect"] mirroredFiles.

(** The runs the examples look at. *)

(** [gopherjs build] and [gopherjs run] on the diamond. *)
Definition diamondBuild : outcome unit * World :=
  buildPackage diamondEnv 10 LRoot true diamondStart.
Definition diamondRun : outcome unit * World :=
  buildPackage diamondEnv 10 LRoot false diamondStart.

(** The diamond once the import walk of main is over. *)
Definition diamondWalked : outcome unit * World :=
  freshness diamondEnv (buildPackage diamondEnv 9) LRoot
    (Package (root diamondStart)) (log (EvBuild LRoot true) diamondStart).

(** A request for d alone, in the three environments. *)
Definition requestD (E : Env) (w : World) : outcome loc * World :=
  getPackage E (buildPackage E 5) "d" "/app" true w.

(** d built and written, then requested again by a later run; inside
    that second request the cache holds the new descriptor of d. *)
Definition secondRun (E : Env) : World := rerun (snd (requestD E diamondStart)).
Definition descriptorD : GopherPackage :=
  mkGopherPackage (describe (mkSource "d" "d" [] ["Foo"; "baz"; "Bar"] 5)) 0 [].
Definition secondRunD (E : Env) : World :=
  setPackages (<["d" := descriptorD]> (packages (secondRun E))) (secondRun E).
Definition typesD : types.Package :=
  types.mkPackage 5 "d" ["Foo"; "baz"; "Bar"] [].
End Demo.

(** ** What a call may change *)

Definition locOf (e : event) : loc :=
  match e with EvBuild l _ | EvTranslate l _ | EvOpenFile l _ => l end.

Definition kindOf (e : event) : nat :=
  match e with EvBuild _ _ => 0 | EvTranslate _ _ => 1 | EvOpenFile _ _ => 2 end.

Definition tag (e : event) : nat * loc := (kindOf e, locOf e).

(** [l] is a descriptor that [getPackage] created between [w] and [w']. *)
Definition fresh (w w' : World) (l : loc) : Prop :=
  ∃ k, l = LCache k ∧ packages w !! k = None ∧ is_Some (packages w' !! k).

(** The footprint of work done on behalf of the descriptor at [l]:
    - the trace only grows, no descriptor gets two events of one kind, and
      an event belongs to a descriptor created meanwhile or to [l] itself
      with a kind from [kinds];
    - a file changes only if an event opened it;
    - descriptors other than [l] that existed before are untouched, and [l]
      keeps its [build.Package]. *)
Record Effect (kinds : list nat) (l : loc) (w w' : World) : Prop := mkEffect {
  eff_trace :
    ∃ new, trace w' = trace w ++ new ∧ NoDup (map tag new)
      ∧ (∀ e, e ∈ new ->
           (locOf e = l ∧ kindOf e ∈ kinds) ∨ fresh w w' (locOf e))
      ∧ (∀ p, p ∉ omap openedPath new -> files w' !! p = files w !! p);
  eff_frame :
    ∀ k, is_Some (packages w !! k) -> LCache k ≠ l ->
         packages w' !! k = packages w !! k;
  eff_root : l ≠ LRoot -> root w' = root w;
  eff_self :
    ∀ p, pkgAt l w = Some p ->
         ∃ p', pkgAt l w' = Some p' ∧ Package p' = Package p;
  eff_now : now w' = now w
}.

(** Work that touches no descriptor that existed before. *)
Definition Quiet (w w' : World) : Prop := ∀ l, Effect [] l w w'.

(** The kinds of event a call of [store] may log, by its outcome: a returned
    error comes from before the artifact is opened. *)
Definition writeKinds {A : Type} (r : outcome A) : list nat :=
  match r with Failed _ => [] | _ => [2] end.

(** [p'] is [p] with a freshness timestamp that did not go back. *)
Definition later (p p' : GopherPackage) : Prop :=
  Package p' = Package p ∧ JavaScriptCode p' = JavaScriptCode p
  ∧ SrcLastModified p ≤ SrcLastModified p'.

(** Opening the artifact and writing it: nothing but the file at [path]
    differs. *)
Definition sameButFile (path : string) (w w2 : World) : Prop :=
  packages w2 = packages w ∧ root w2 = root w
  ∧ typesPackages w2 = typesPackages w ∧ now w2 = now w
  ∧ trace w2 = trace w
  ∧ ∀ p, p ≠ path -> files w2 !! p = files w !! p.

(** ** The bundle *)

(** The packages below [tp] in the import tree, [tp] itself excluded. *)
Fixpoint descendants (tp : types.Package) : list types.Package :=
  match tp with
  | types.mkPackage _ _ _ imports =>
      (fix below (imps : list types.Package) : list types.Package :=
         match imps with
         | [] => []
         | c :: rest => (c :: descendants c) ++ below rest
         end) imports
  end.

Definition descendantsOf (imps : list types.Package) : list types.Package :=
  flat_map (fun c => c :: descendants c) imps.

(** No package is found below itself: an address stands for one package, and
    the language has no import cycles. *)
Definition acyclicOf (imps : list types.Package) : Prop :=
  Forall (fun n => Forall (fun c => types.addr c ≠ types.addr n) (descendants n))
    (descendantsOf imps).

Definition acyclic (tp : types.Package) : Prop := acyclicOf (types.Imports tp).

(** The traversal of [loadImportsOf] without the world: the packages it
    emits a block for, in order, and the [loaded] set it ends with. *)
Fixpoint emitOrder (tp : types.Package) (L : gset positive)
    : gset positive * list types.Package :=
  match tp with
  | types.mkPackage _ _ _ imports =>
      (fix range (imps : list types.Package) (L : gset positive)
           : gset positive * list types.Package :=
         match imps with
         | [] => (L, [])
         | imp :: rest =>
             if skipped (types.Path imp) then range rest L
             else if decide (types.addr imp ∈ L) then range rest L
             else
               let '(L1, o1) := emitOrder imp ({[types.addr imp]} ∪ L) in
               let '(L2, o2) := range rest L1 in
               (L2, o1 ++ imp :: o2)
         end) imports L
  end.

Fixpoint rangeOrder (imps : list types.Package) (L : gset positive)
    : gset positive * list types.Package :=
  match imps with
  | [] => (L, [])
  | imp :: rest =>
      if skipped (types.Path imp) then rangeOrder rest L
      else if decide (types.addr imp ∈ L) then rangeOrder rest L
      else
        let '(L1, o1) := emitOrder imp ({[types.addr imp]} ∪ L) in
        let '(L2, o2) := rangeOrder rest L1 in
        (L2, o1 ++ imp :: o2)
  end.

(** Each package of [o] finds its imports, those the assembler does not
    pass over, among [D] and the packages before it. *)
Fixpoint importsFirst (D : gset positive) (o : list types.Package) : Prop :=
  match o with
  | [] => True
  | n :: rest =>
      (∀ c, c ∈ types.Imports n -> skipped (types.Path c) = false ->
            types.addr c ∈ D)
      ∧ importsFirst ({[types.addr n]} ∪ D) rest
  end.

(** The block of one import: the package and the code found in the cache. *)
Definition block (E : Env) (entry : types.Package * list byte) : list byte :=
  registration (unicode_IsUpper E) (types.Path entry.1) entry.2
    (types.Scope_Names entry.1).

Definition addrs (o : list types.Package) : list positive :=
  map types.addr o.

(** A property of events that can only fail on a build that does not write
    to disk. *)
Definition lenient (Q : event -> Prop) : Prop :=
  ∀ e, (∀ l, e ≠ EvBuild l false) -> Q e.

(** ** [main] (tool.go 35-151) *)

(** The slice expression [s[lo:hi]] with signed bounds: it panics ([None])
    unless [0 <= lo <= hi <= len(s)]. *)
Definition slice (s : string) (lo hi : Z) : option string :=
  if decide (0 ≤ lo ∧ lo ≤ hi ∧ hi ≤ Z.of_nat (String.length s))%Z
  then Some (String.substring (Z.to_nat lo) (Z.to_nat (hi - lo)) s)
  else None.

(** [imp.Path.Value[1 : len(imp.Path.Value)-1]] (line 88): the literal of an
    import spec without its first and last byte. *)
Definition unquote (value : string) : option string :=
  slice value 1 (Z.of_nat (String.length value) - 1).

(** The [Error] callback of [typesConfig] (lines 54-59) with the variable
    [previousErr] it captures: what one call prints on standard output, and
    the new value of the variable. *)
Definition typesConfig_Error (previousErr err : string)
    : list string * string :=
  (if decide (err ≠ previousErr) then [err] else [], err).

(** What a sequence of calls of the callback prints. *)
Fixpoint reportErrors (previousErr : string) (errs : list string)
    : list string :=
  match errs with
  | [] => []
  | err :: rest =>
      let '(out, previousErr') := typesConfig_Error previousErr err in
      out ++ reportErrors previousErr' rest
  end.

(** A line on standard error. *)
Inductive line : Type :=
  | Println (err : error)          (* fmt.Fprintln(os.Stderr, err) *)
  | PrintEntry (entry : string).   (* fmt.Fprintln(os.Stderr, entry) *)

(** How [main] ends. *)
Inductive ending : Type :=
  | Usage                              (* the usage text of lines 104-116 *)
  | UnknownSubcommand (cmd : string)   (* line 120 *)
  | Reported (lines : list line)       (* errors printed, then [return] *)
  | Finished                           (* the end of [main] without node *)
  | NodeFed (stdin : list byte)        (* node started, the code piped in *)
  | MainPanicked
  | MainOutOfFuel.

(** What the [switch] of lines 68-122 comes to: a descriptor to build, or
    the end of [main]. *)
Inductive request : Type :=
  | Build (pkg : build.Package)
  | Stop (e : ending).

Section Main.
Variable E : Env.
(** [go/parser.ParseFile] with [ImportsOnly]: an error, or the
    [Path.Value] of each import spec of the file. *)
Variable parser_ParseFile : gmap string File -> string -> error + list string.
(** [node.Start()] *)
Variable node_Start : option error.

(** Line 76: [pkg.PkgObj = pkg.BinDir + "/" + path.Base(pkg.ImportPath) + ".js"] *)
Definition installDescriptor (buildPkg : build.Package) : build.Package :=
  {| build.Name := build.Name buildPkg;
     build.ImportPath := build.ImportPath buildPkg;
     build.Imports := build.Imports buildPkg;
     build.Dir := build.Dir buildPkg;
     build.GoFiles := build.GoFiles buildPkg;
     build.PkgObj :=
       build.BinDir buildPkg +:+ "/"
       +:+ path_Base (build.ImportPath buildPkg) +:+ ".js";
     build.BinDir := build.BinDir buildPkg |}.

(** Lines 67-122, [cmd] being [flag.Arg(0)] and [arg] [flag.Arg(1)]. *)
Definition dispatch (cmd arg : string) (fs : gmap string File) : request :=
  if decide (cmd = "install") then
    match buildContext_Import E fs arg "" with
    | inl err => Stop (Reported [Println err])
    | inr buildPkg => Build (installDescriptor buildPkg)
    end
  else if decide (cmd = "build" ∨ cmd = "run") then
    match parser_ParseFile fs arg with
    | inl err => Stop (Reported [Println err])
    | inr values =>
        match mapM unquote values with
        | None => Stop MainPanicked
        | Some imports =>
            match entryDescriptor (fun _ => inr imports) (path_Dir E) arg with
            | Done pkg => Build pkg
            | Failed err => Stop (Reported [Println err])
            | Panicked => Stop MainPanicked
            | OutOfFuel => Stop MainOutOfFuel
            end
        end
    end
  else if decide (cmd = "help" ∨ cmd = "") then Stop Usage
  else Stop (UnknownSubcommand cmd).

(** The translator of lines 40-63 about to build [pkg]: an empty cache
    and an empty registry, the file system and the clock as they are. *)
Definition initial (pkg : build.Package) (fs : gmap string File)
    (t : nat) : World :=
  {| packages := ∅; root := mkGopherPackage pkg 0 []; typesPackages := ∅;
     files := fs; now := t; trace := [] |}.

(** [main]: how it ends, and the world [buildPackage] left when it was
    called. *)
Definition main (fuel : nat) (cmd arg : string) (fs : gmap string File)
    (t : nat) : ending * option World :=
  match dispatch cmd arg fs with
  | Stop e => (e, None)
  | Build pkg =>
      match buildPackage E fuel LRoot (bool_decide (cmd ≠ "run"))
              (initial pkg fs t) with
      | (Failed (ErrorList entries), w) =>
          (Reported (map PrintEntry entries), Some w)
      | (Failed err, w) => (Reported [Println err], Some w)
      | (Panicked, w) => (MainPanicked, Some w)
      | (OutOfFuel, w) => (MainOutOfFuel, Some w)
      | (Done _, w) =>
          if decide (cmd = "run") then
            match node_Start with
            | Some err => (Reported [Println err], Some w)
            | None => (NodeFed (JavaScriptCode (root w)), Some w)
            end
          else (Finished, Some w)
      end
  end.
End Main.

(** ** The steps a run is made of *)

(** One change of the world: a descriptor updated without touching its
    [build.Package], the registry replaced, a new key given to the cache, an
    event logged, the artifact of a descriptor opened, a write to a file
    that was opened. *)
Inductive step : World -> World -> Prop :=
  | step_descriptor l f w :
      (∀ p, Package (f p) = Package p) -> step w (updPkg l f w)
  | step_registry m w : step w (setTypesPackages m w)
  | step_cache k pkg w :
      packages w !! k = None ->
      step w (setPackages (<[k := pkg]> (packages w)) w)
  | step_build l b w : step w (log (EvBuild l b) w)
  | step_translate l importPath w : step w (log (EvTranslate l importPath) w)
  | step_open l pkg perm w :
      pkgAt l w = Some pkg ->
      step w (createTruncate (build.PkgObj (Package pkg)) perm
                (log (EvOpenFile l (build.PkgObj (Package pkg))) w))
  | step_write l path d w :
      EvOpenFile l path ∈ trace w -> step w (file_Write path d w).

Definition steps : World -> World -> Prop := rtc step.

(** ** Where an error comes from *)

(** [e] is an error a collaborator reported: a stat of a file that is not
    there, [buildContext.Import], [translatePackage], the decoder of the
    type interface, [os.Open], [os.MkdirAll] or [os.OpenFile]. *)
Definition reported (E : Env) (e : error) : Prop :=
  (∃ path, e = ErrNotExist path)
  ∨ (∃ fs importPath srcDir,
       buildContext_Import E fs importPath srcDir = inl e)
  ∨ (∃ importPath dir goFiles fs reg reg',
       translatePackage E importPath dir goFiles fs reg = (inl e, reg'))
  ∨ (∃ reg file id d, dec_result (types_GcImportData E reg file id d) = inl e)
  ∨ (∃ path, os_Open E path = Some e)
  ∨ (∃ path, os_MkdirAll E path = Some e)
  ∨ (∃ path, os_OpenFile E path = Some e).

(** [translatePackage] leaves the type interface of the package it has
    translated in the registry. *)
Definition registers (E : Env) : Prop :=
  ∀ importPath dir goFiles fs reg code reg',
    translatePackage E importPath dir goFiles fs reg = (inr code, reg') ->
    is_Some (reg' !! importPath).

(** ** How far the recursion can go *)

(** The import paths of [U] that the cache does not hold yet. *)
Definition uncached (U : gset string) (w : World) : nat :=
  size (U ∖ dom (packages w)).

(** [buildContext.Import] resolves no path outside [U]. *)
Definition resolvesWithin (E : Env) (U : gset string) : Prop :=
  ∀ fs importPath srcDir pkg,
    buildContext_Import E fs importPath srcDir = inr pkg -> importPath ∈ U.

(** ** More of the small universe *)

Module Sample.
(** A universe that holds the pseudo-package unsafe, and nothing on disk. *)
Definition unsafeEnv : Env :=
  Demo.env [Demo.mkSource "unsafe" "unsafe" [] [] 1] [] [].
Definition emptyStart : World := Demo.start [] ∅.

(** The entry file of the diamond as the parser sees it. *)
Definition parseDiamond (fs : gmap string File) (filename : string)
    : error + list string :=
  if decide (filename = "/app/main.go") then inr ["`b`"; "`c`"]
  else inl (ErrNotExist filename).

(** [gopherjs run /app/main.go] and [gopherjs build /app/main.go]. *)
Definition diamondMain (cmd : string) : ending * option World :=
  main Demo.diamondEnv parseDiamond None 10 cmd "/app/main.go"
    Demo.diamondFiles 100.

(** The diamond after [gopherjs build], as a later run of the tool finds
    it. *)
Definition builtOnce : World :=
  initial (Package (root Demo.diamondStart))
    (files (snd Demo.diamondBuild)) 200.

(** The import walk of that later run. *)
Definition rewalked : outcome unit * World :=
  freshness Demo.diamondEnv (buildPackage Demo.diamondEnv 9) LRoot
    (Package (root builtOnce)) (log (EvBuild LRoot true) builtOnce).

(** The cache holds the new descriptor of d, the registry its type
    interface: the moment [store] is called for d. *)
Definition storeD : World :=
  setTypesPackages {["d" := Demo.typesD]}
    (setPackages {["d" := Demo.descriptorD]} Demo.diamondStart).
Definition storedD : outcome unit * World :=
  store Demo.diamondEnv (LCache "d") (Package Demo.descriptorD) true
    (bytes "/*d*/") storeD.

(** An artifact without code whose blob holds a sentinel of its own, as
    the artifact of d. *)
Definition nestedArtifact : list byte :=
  bytes "p" ++ sentinel ++ bytes "q" ++ sentinel.
Definition nestedWorld : World :=
  setFiles {["/pkg/d.a" := mkFile 50 438 nestedArtifact]}
    (setPackages {["d" := Demo.descriptorD]} Demo.diamondStart).
End Sample.

(** * Properties *)

(** ** The sentinel scan *)

Lemma window_length d i : i + 3 ≤ length d -> length (window d i) = 3.
Proof. intros H. unfold window. rewrite length_take, length_drop. lia. Qed.

Lemma window_sentinel_length d i : window d i = sentinel -> i + 3 ≤ length d.
Proof.
  intros H. apply (f_equal length) in H. unfold window in H.
  rewrite length_take, length_drop in H. change (length sentinel) with 3 in H.
  lia.
Qed.

Lemma file_Read_full d off buf :
  length buf = 3 -> off + 3 ≤ length d ->
  file_Read d off buf = (window d off, 3).
Proof.
  intros Hb Hd. unfold file_Read. rewrite Hb. fold (window d off).
  rewrite (window_length d off Hd), drop_ge, app_nil_r by lia. reflexivity.
Qed.

Lemma lastSentinel_Some d k i :
  lastSentinel d k = Some i ->
  i ≤ k ∧ window d i = sentinel ∧ ∀ j, i < j ≤ k -> window d j ≠ sentinel.
Proof.
  induction k as [|k IH]; simpl; intros H.
  - destruct (decide (window d 0 = sentinel)); simplify_eq.
    split_and!; [lia | done | intros; lia].
  - destruct (decide (window d (S k) = sentinel)) as [Hw|Hw]; simplify_eq.
    + split_and!; [lia | done | intros; lia].
    + destruct (IH H) as (? & ? & Hj). split_and!; [lia | done |].
      intros j Hij. destruct (decide (j = S k)) as [->|]; [done|].
      apply Hj. lia.
Qed.

Lemma lastSentinel_None d k :
  lastSentinel d k = None -> ∀ j, j ≤ k -> window d j ≠ sentinel.
Proof.
  induction k as [|k IH]; simpl; intros H j Hj.
  - destruct (decide (window d 0 = sentinel)); simplify_eq.
    by replace j with 0 by lia.
  - destruct (decide (window d (S k) = sentinel)); simplify_eq.
    destruct (decide (j = S k)) as [->|]; [done|]. apply IH; [done | lia].
Qed.

Lemma lastSentinel_hit d k i :
  i ≤ k -> window d i = sentinel ->
  (∀ j, i < j ≤ k -> window d j ≠ sentinel) ->
  lastSentinel d k = Some i.
Proof.
  intros Hik Hw Hno. destruct (lastSentinel d k) as [i'|] eqn:Hl.
  - apply lastSentinel_Some in Hl as (? & Hw' & Hno').
    f_equal. destruct (decide (i' < i)); [exfalso; by apply (Hno' i) |].
    destruct (decide (i < i')); [exfalso; by apply (Hno i') | lia].
  - exfalso. by apply (lastSentinel_None d k Hl i).
Qed.

Lemma lastSentinel_miss d k :
  (∀ j, j ≤ k -> window d j ≠ sentinel) -> lastSentinel d k = None.
Proof.
  intros Hno. destruct (lastSentinel d k) as [i|] eqn:Hl; [|done].
  apply lastSentinel_Some in Hl as (? & Hw & _). by destruct (Hno i).
Qed.

(** Once the buffer holds a full window the loop is a search for the last
    sentinel at or below it, and it never runs out of turns. *)
Lemma searchBackwards_step fuel d off buf :
  searchBackwards (S fuel) d off buf
  = if decide (buf = sentinel) then Found off
    else if decide (off < 4) then AtStart
    else
      let '(buf', n) := file_Read d (off - 4) buf in
      if decide (n = 0) then ReadError
      else searchBackwards fuel d (off - 4 + n) buf'.
Proof. reflexivity. Qed.

Lemma searchBackwards_window d k : ∀ fuel,
  k + 3 ≤ length d -> k < fuel ->
  searchBackwards fuel d (k + 3) (window d k)
  = match lastSentinel d k with Some i => Found (i + 3) | None => AtStart end.
Proof.
  induction k as [|k IH]; intros fuel Hd Hf;
    (destruct fuel as [|fuel]; [lia|]); rewrite searchBackwards_step;
    cbn [lastSentinel];
    (destruct (decide (window d _ = sentinel)); [done|]).
  - by rewrite decide_True by lia.
  - rewrite decide_False by lia.
    replace (S k + 3 - 4) with k by lia.
    rewrite file_Read_full by (rewrite ?window_length; lia).
    rewrite decide_False by lia. apply IH; lia.
Qed.

Lemma zero_buffer_no_sentinel (chunk : list byte) :
  length chunk < 3 ->
  chunk ++ drop (length chunk) [x00; x00; x00] ≠ sentinel.
Proof.
  intros H. destruct chunk as [|a [|b [|c chunk]]]; simpl in *; try lia;
    unfold sentinel, NL; congruence.
Qed.

(** Lines 221-232 as a search. *)
Lemma scanPayload_spec d pos :
  pos ≤ length d ->
  scanPayload d pos
  = match scanStart d pos with
    | None => NoPayload
    | Some k =>
        match lastSentinel d k with
        | Some i => Payload (drop (i + 3) d)
        | None => NoPayload
        end
    end.
Proof.
  intros Hpos. unfold scanPayload, scanStart.
  destruct (decide (pos + 3 ≤ length d)) as [Hfull|Hpart].
  - rewrite file_Read_full by done.
    rewrite searchBackwards_window by lia. by destruct (lastSentinel d pos).
  - unfold file_Read. set (chunk := take _ (drop pos d)).
    assert (length chunk = length d - pos) as Hn.
    { unfold chunk. rewrite length_take, length_drop.
      change (length [x00; x00; x00]) with 3. lia. }
    assert (pos + length chunk = length d) as -> by lia.
    rewrite searchBackwards_step.
    rewrite decide_False by (apply zero_buffer_no_sentinel; lia).
    destruct (decide (length d < 4)) as [|Hlen];
      [by rewrite decide_False by lia |].
    rewrite decide_True by lia.
    rewrite file_Read_full; cycle 1.
    { rewrite length_app, length_drop.
      change (length [x00; x00; x00]) with 3. lia. }
    { lia. }
    rewrite decide_False by lia.
    replace (length d - 4 + 3) with ((length d - 4) + 3) by lia.
    rewrite searchBackwards_window by lia.
    by destruct (lastSentinel d (length d - 4)).
Qed.

Lemma window_app_r a b i : window (a ++ b) (length a + i) = window b i.
Proof. unfold window. by rewrite drop_app_add. Qed.

(** In [blob ++ "$$\n" ++ payload] with a sentinel-free payload the last
    sentinel is the true one. *)
Lemma lastSentinel_artifact blob payload k :
  sentinelFree payload -> length blob ≤ k ->
  lastSentinel (blob ++ sentinel ++ payload) k = Some (length blob).
Proof.
  intros Hfree Hk. apply lastSentinel_hit; [done | |].
  - replace (length blob) with (length blob + 0) by lia.
    by rewrite window_app_r.
  - intros j [Hj _].
    replace j with (length blob + (j - length blob)) by lia.
    rewrite window_app_r.
    destruct (j - length blob) as [|[|[|m]]] eqn:Hm; [lia | | |].
    + unfold window, sentinel, NL. simpl. destruct payload; simpl; congruence.
    + unfold window, sentinel, NL. simpl. destruct payload as [|? [|? ?]]; simpl; congruence.
    + replace (S (S (S m))) with (length sentinel + m) by done.
      rewrite window_app_r. apply Hfree.
Qed.

(** Below the true sentinel only the blob can match. *)
Lemma lastSentinel_blob blob payload k :
  sentinelFree blob -> k < length blob ->
  lastSentinel (blob ++ sentinel ++ payload) k = None.
Proof.
  intros Hfree Hk. apply lastSentinel_miss. intros j Hj Hw.
  destruct (decide (j + 3 ≤ length blob)) as [Hin|Hout].
  - apply (Hfree j). rewrite <- Hw. unfold window.
    rewrite drop_app_le by lia. rewrite take_app_le; [done|].
    rewrite length_drop. lia.
  - assert (blob = take j blob ++ drop j blob) as Hsplit
      by (by rewrite take_drop).
    unfold window in Hw. rewrite drop_app_le in Hw by lia.
    remember (drop j blob) as tl eqn:Htl.
    assert (length tl = length blob - j) as Hlen
      by (subst tl; by rewrite length_drop).
    destruct tl as [|a [|b [|c tl]]]; simpl in Hlen; try lia;
      unfold sentinel, NL in Hw; simpl in Hw; congruence.
Qed.

(** ** Footprints *)

Lemma Effect_grow kinds l w w' k :
  Effect kinds l w w' -> is_Some (packages w !! k) ->
  is_Some (packages w' !! k).
Proof.
  intros H Hk. destruct (decide (LCache k = l)) as [<-|Hne].
  - destruct Hk as [p Hp]. destruct (eff_self _ _ _ _ H p Hp) as (p' & Hp' & _).
    by exists p'.
  - by rewrite (eff_frame _ _ _ _ H k Hk Hne).
Qed.

Lemma fresh_not_present w w' l : fresh w w' l -> pkgAt l w = None.
Proof. by intros (k & -> & Hk & _). Qed.

Lemma fresh_mono w w1 w2 l :
  fresh w1 w2 l ->
  (∀ k, is_Some (packages w !! k) -> is_Some (packages w1 !! k)) ->
  fresh w w2 l.
Proof.
  intros (k & -> & Hk & Hk2) Hgrow. exists k. split_and!; [done| |done].
  destruct (packages w !! k) eqn:Hw; [|done].
  destruct (Hgrow k) as [? ?]; [by eexists | congruence].
Qed.

Lemma fresh_later w w1 w2 l :
  fresh w w1 l ->
  (∀ k, is_Some (packages w1 !! k) -> is_Some (packages w2 !! k)) ->
  fresh w w2 l.
Proof. intros (k & -> & Hk & Hk1) Hgrow. exists k. eauto. Qed.

Lemma Effect_refl kinds l w : Effect kinds l w w.
Proof.
  split; [|done|done|eauto|done].
  exists []. rewrite app_nil_r. split_and!; [done|constructor| |done].
  intros e He. by apply elem_of_nil in He.
Qed.

Lemma Effect_weaken kinds kinds' l w w' :
  kinds ⊆ kinds' -> Effect kinds l w w' -> Effect kinds' l w w'.
Proof.
  intros Hsub [(new & Ht & Hnd & Hev & Hf) ? ? ? ?]. split; try done.
  exists new. split_and!; try done.
  intros e He. destruct (Hev e He) as [[? ?]|?]; [left|right]; auto.
Qed.

(** Sequencing: the kinds of [l]'s own events must not repeat. *)
Lemma Effect_trans A B l w w1 w2 :
  (A = [] ∧ B = []) ∨ is_Some (pkgAt l w) -> A ## B ->
  Effect A l w w1 -> Effect B l w1 w2 -> Effect (A ++ B) l w w2.
Proof.
  intros Hl Hdisj H1 H2.
  assert (∀ k, is_Some (packages w !! k) -> is_Some (packages w1 !! k))
    as Hg1 by (intros; by eapply Effect_grow).
  assert (∀ k, is_Some (packages w1 !! k) -> is_Some (packages w2 !! k))
    as Hg2 by (intros; by eapply Effect_grow).
  destruct H1 as [(n1 & Ht1 & Hnd1 & Hev1 & Hf1) Hfr1 Hr1 Hs1 Hn1].
  destruct H2 as [(n2 & Ht2 & Hnd2 & Hev2 & Hf2) Hfr2 Hr2 Hs2 Hn2].
  split.
  - exists (n1 ++ n2). split_and!.
    + by rewrite Ht2, Ht1, app_assoc.
    + rewrite map_app. apply NoDup_app. split_and!; [done| |done].
      intros t Ht1' Ht2'.
      apply list_elem_of_fmap in Ht1' as (e1 & -> & He1).
      apply list_elem_of_fmap in Ht2' as (e2 & Heq & He2).
      unfold tag in Heq. injection Heq as Hk Hloc.
      destruct (Hev1 e1 He1) as [[Hl1 Hk1]|Hfresh1],
               (Hev2 e2 He2) as [[Hl2 Hk2]|Hfresh2].
      * apply (Hdisj (kindOf e1)); [done | by rewrite Hk].
      * destruct Hl as [[-> _]|[p Hp]]; [by apply elem_of_nil in Hk1|].
        apply fresh_not_present in Hfresh2.
        rewrite <- Hloc, Hl1 in Hfresh2.
        destruct (Hs1 p Hp) as (? & ? & _). congruence.
      * destruct Hl as [[_ ->]|[p Hp]]; [by apply elem_of_nil in Hk2|].
        apply fresh_not_present in Hfresh1.
        rewrite Hloc, Hl2 in Hfresh1. congruence.
      * destruct Hfresh1 as (k & Hk1 & _ & Hin).
        destruct Hfresh2 as (k' & Hk2 & Hnone & _).
        rewrite Hloc, Hk2 in Hk1. simplify_eq.
        destruct Hin. congruence.
    + intros e He. apply elem_of_app in He as [He|He].
      * destruct (Hev1 e He) as [[? ?]|?].
        -- left. split; [done|]. apply elem_of_app. auto.
        -- right. by eapply fresh_later.
      * destruct (Hev2 e He) as [[? ?]|?].
        -- left. split; [done|]. apply elem_of_app. auto.
        -- right. by eapply fresh_mono.
    + intros p Hp. rewrite omap_app in Hp.
      rewrite Hf2, Hf1; [done| |]; intros ?; apply Hp, elem_of_app; auto.
  - intros k Hk Hne. rewrite Hfr2, Hfr1; auto.
  - intros Hne. by rewrite Hr2, Hr1.
  - intros p Hp. destruct (Hs1 p Hp) as (p1 & Hp1 & He1).
    destruct (Hs2 p1 Hp1) as (p2 & Hp2 & He2). exists p2. split; congruence.
  - congruence.
Qed.

Lemma Quiet_refl w : Quiet w w.
Proof. intros l. apply Effect_refl. Qed.

Lemma Quiet_trans w w1 w2 : Quiet w w1 -> Quiet w1 w2 -> Quiet w w2.
Proof.
  intros H1 H2 l. change (@nil nat) with (@nil nat ++ []).
  eapply Effect_trans; [by left | set_solver | apply H1 | apply H2].
Qed.

(** Quiet work leaves every descriptor that existed as it was. *)
Lemma Quiet_pkgAt w w' l p : Quiet w w' -> pkgAt l w = Some p -> pkgAt l w' = Some p.
Proof.
  intros H Hp. destruct l as [|k]; simpl in *.
  - rewrite (eff_root _ _ _ _ (H (LCache ""))); done.
  - rewrite (eff_frame _ _ _ _ (H LRoot)); [done | by eexists | done].
Qed.

Lemma Effect_Quiet_r kinds l w w1 w2 :
  Effect kinds l w w1 -> Quiet w1 w2 -> is_Some (pkgAt l w) ->
  Effect kinds l w w2.
Proof.
  intros H1 H2 Hl. rewrite <- (app_nil_r kinds).
  eapply Effect_trans; [by right | set_solver | apply H1 | apply H2].
Qed.

(** *** The primitive steps *)

Lemma pkgAt_updPkg l f w :
  pkgAt l (updPkg l f w) = f <$> pkgAt l w.
Proof. destruct l; simpl; [done|]. by rewrite lookup_alter_eq. Qed.

Lemma pkgAt_updPkg_ne l l' f w :
  l ≠ l' -> pkgAt l' (updPkg l f w) = pkgAt l' w.
Proof.
  intros Hne. destruct l, l'; simpl; try done.
  rewrite lookup_alter_ne; [done | congruence].
Qed.

Lemma Effect_updPkg l f w :
  (∀ p, Package (f p) = Package p) -> Effect [] l w (updPkg l f w).
Proof.
  intros Hf. split.
  - exists []. destruct l; simpl; rewrite app_nil_r;
      (split_and!; [done|constructor| |done]);
      intros e He; by apply elem_of_nil in He.
  - intros k Hk Hne. destruct l as [|k']; simpl; [done|].
    rewrite lookup_alter_ne; [done | congruence].
  - intros Hne. by destruct l.
  - intros p Hp. rewrite pkgAt_updPkg, Hp. simpl. eauto.
  - by destruct l.
Qed.

Lemma Quiet_setTypesPackages m w : Quiet w (setTypesPackages m w).
Proof.
  intros l. split; simpl; [|done|done|eauto|done].
  exists []. rewrite app_nil_r. split_and!; [done|constructor| |done].
  intros e He. by apply elem_of_nil in He.
Qed.

Lemma Effect_log_build l b w : Effect [0] l w (log (EvBuild l b) w).
Proof.
  split; simpl; [|done|done| |done].
  - exists [EvBuild l b]. split_and!; [done|apply NoDup_singleton| |done].
    intros e ->%list_elem_of_singleton. left. simpl. set_solver.
  - intros p Hp. exists p. by destruct l.
Qed.

Lemma Effect_log_translate l ip w : Effect [1] l w (log (EvTranslate l ip) w).
Proof.
  split; simpl; [|done|done| |done].
  - exists [EvTranslate l ip]. split_and!; [done|apply NoDup_singleton| |done].
    intros e ->%list_elem_of_singleton. left. simpl. set_solver.
  - intros p Hp. exists p. by destruct l.
Qed.

Lemma sameButFile_refl path w : sameButFile path w w.
Proof. by split_and!. Qed.

Lemma sameButFile_trans path w w1 w2 :
  sameButFile path w w1 -> sameButFile path w1 w2 -> sameButFile path w w2.
Proof.
  intros (? & ? & ? & ? & ? & Hf1) (? & ? & ? & ? & ? & Hf2).
  split_and!; try congruence. intros p Hp. by rewrite Hf2, Hf1.
Qed.

Lemma sameButFile_createTruncate path perm w :
  sameButFile path w (createTruncate path perm w).
Proof.
  unfold createTruncate. split_and!; try done.
  intros p Hp. simpl. by rewrite lookup_insert_ne.
Qed.

Lemma sameButFile_file_Write path d w :
  sameButFile path w (file_Write path d w).
Proof.
  unfold file_Write. destruct (files w !! path); [|apply sameButFile_refl].
  split_and!; try done. intros p Hp. simpl. by rewrite lookup_insert_ne.
Qed.

Lemma sameButFile_pkgAt path w w2 l :
  sameButFile path w w2 -> pkgAt l w2 = pkgAt l w.
Proof. intros (Hp & Hr & _). destruct l; simpl; congruence. Qed.

Lemma Effect_open l path w w2 :
  sameButFile path (log (EvOpenFile l path) w) w2 -> Effect [2] l w w2.
Proof.
  intros (Hp & Hr & Hty & Hn & Ht & Hf). simpl in *.
  split; [|by rewrite Hp|done| |done].
  - exists [EvOpenFile l path].
    split_and!; [done|apply NoDup_singleton| |].
    + intros e ->%list_elem_of_singleton. left. simpl. set_solver.
    + intros p Hin. simpl in Hin. apply Hf. intros ->. apply Hin. set_solver.
  - intros p Hl. exists p. split; [|done].
    destruct l; simpl in *; congruence.
Qed.

Lemma writeKinds_sub {A} (r : outcome A) : writeKinds r ⊆ [2].
Proof. destruct r; set_solver. Qed.

(** *** Induction over the import tree of a type interface *)

Lemma types_Package_ind (P : types.Package -> Prop) :
  (∀ a p ns imps, Forall P imps -> P (types.mkPackage a p ns imps)) ->
  ∀ tp, P tp.
Proof.
  intros H. fix IH 1. intros [a p ns imps]. apply H.
  induction imps as [|imp imps IHimps]; constructor; [apply IH | apply IHimps].
Qed.

Section Footprints.
Variable E : Env.
Variable recur : loc -> bool -> World -> outcome unit * World.
Hypothesis recur_Effect :
  ∀ l b w r w', recur l b w = (r, w') -> Effect [0; 1; 2] l w w'.

Lemma loadImportsOf_eq dir tp c w :
  loadImportsOf E recur dir tp c w
  = rangeTypesImports E recur dir (types.Imports tp) c w.
Proof.
  clear recur_Effect. destruct tp as [a p ns imps]. simpl.
  revert c w. induction imps as [|imp imps IH]; intros c w; [done|].
  simpl. repeat case_match; try done; apply IH.
Qed.

Lemma getPackage_Done p d b w cl w' :
  getPackage E recur p d b w = (Done cl, w') ->
  cl = LCache p ∧ is_Some (packages w' !! p).
Proof.
  unfold getPackage. intros H.
  destruct (packages w !! p) eqn:Hc; [by simplify_eq|].
  destruct (buildContext_Import E (files w) p d); [done|].
  destruct (recur _ _ _) as [r2 w2] eqn:Hr.
  apply recur_Effect in Hr.
  assert (is_Some (packages w2 !! p)).
  { eapply Effect_grow; [done|]. simpl. rewrite lookup_insert_eq. by eexists. }
  destruct r2; by simplify_eq.
Qed.

Lemma getPackage_Quiet p d b w r w' :
  getPackage E recur p d b w = (r, w') -> Quiet w w'.
Proof.
  unfold getPackage. intros H.
  destruct (packages w !! p) eqn:Hc; [simplify_eq; apply Quiet_refl|].
  destruct (buildContext_Import E (files w) p d) as [|otherPkg];
    [simplify_eq; apply Quiet_refl|].
  destruct (recur _ _ _) as [r2 w2] eqn:Hr.
  assert (w' = w2) as -> by (destruct r2; by simplify_eq).
  clear H. apply recur_Effect in Hr.
  set (w1 := setPackages _ w) in Hr.
  assert (is_Some (packages w2 !! p)) as Hp2.
  { eapply Effect_grow; [done|]. simpl. rewrite lookup_insert_eq. by eexists. }
  assert (∀ k, is_Some (packages w !! k) -> is_Some (packages w1 !! k)) as Hg.
  { intros k [q Hq]. simpl. rewrite lookup_insert_ne by congruence. by eexists. }
  destruct Hr as [(new & Ht & Hnd & Hev & Hf) Hfr Hroot Hself Hnow].
  intros l. split.
  - exists new. split_and!; [done|done| |done].
    intros e He. right. destruct (Hev e He) as [[Hl _]|Hfresh].
    + exists p. by rewrite Hl.
    + by eapply fresh_mono.
  - intros k Hk _. rewrite Hfr.
    + simpl. apply lookup_insert_ne. intros ->. destruct Hk. congruence.
    + by apply Hg.
    + intros [= ->]. destruct Hk. congruence.
  - intros _. by rewrite Hroot.
  - intros q Hq. exists q. split; [|done]. destruct l as [|k]; simpl in *.
    + by rewrite Hroot.
    + rewrite Hfr.
      * rewrite lookup_insert_ne; [done|]. intros ->. congruence.
      * apply Hg. by eexists.
      * intros [= ->]. congruence.
  - done.
Qed.

Lemma Effect_setSrcLastModified l t w :
  Effect [] l w (setSrcLastModified l t w).
Proof. by apply Effect_updPkg. Qed.

Lemma Effect_setJavaScriptCode l c w :
  Effect [] l w (setJavaScriptCode l c w).
Proof. by apply Effect_updPkg. Qed.

Lemma Effect_nil_trans l w w1 w2 :
  Effect [] l w w1 -> Effect [] l w1 w2 -> Effect [] l w w2.
Proof.
  intros H1 H2. change (@nil nat) with (@nil nat ++ []).
  eapply Effect_trans; [by left | set_solver | done | done].
Qed.

Lemma rangeImports_Effect l dir imports : ∀ w r w',
  rangeImports E recur l dir imports w = (r, w') -> Effect [] l w w'.
Proof.
  induction imports as [|imp rest IH]; intros w r w' H; simpl in H.
  - simplify_eq. apply Effect_refl.
  - destruct (getPackage _ _ _ _ _ _) as [r1 w1] eqn:Hg.
    pose proof (getPackage_Quiet _ _ _ _ _ _ Hg l) as Hq.
    destruct r1 as [cl| | |]; try (simplify_eq; done).
    destruct (pkgAt cl w1) as [compiledPkg|]; [|by simplify_eq].
    destruct (pkgAt l w1) as [pkg|]; [|by simplify_eq].
    apply IH in H. eapply Effect_nil_trans; [done|].
    eapply Effect_nil_trans; [|done].
    case_match; [apply Effect_setSrcLastModified | apply Effect_refl].
Qed.

Lemma rangeGoFiles_Effect l dir names : ∀ w r w',
  rangeGoFiles l dir names w = (r, w') -> Effect [] l w w'.
Proof.
  induction names as [|name rest IH]; intros w r w' H; simpl in H.
  - simplify_eq. apply Effect_refl.
  - destruct (os_Stat _ w) as [|fileInfo]; [simplify_eq; apply Effect_refl|].
    destruct (pkgAt l w) as [pkg|]; [|simplify_eq; apply Effect_refl].
    apply IH in H. eapply Effect_nil_trans; [|done].
    case_match; [apply Effect_setSrcLastModified | apply Effect_refl].
Qed.

Lemma freshness_Effect l bp w r w' :
  freshness E recur l bp w = (r, w') -> Effect [] l w w'.
Proof.
  unfold freshness. intros H.
  destruct (os_Stat _ w) as [|fileInfo]; [simplify_eq; apply Effect_refl|].
  destruct (rangeImports _ _ _ _ _ _) as [r1 w1] eqn:H1.
  apply rangeImports_Effect in H1.
  eapply Effect_nil_trans; [apply Effect_setSrcLastModified|].
  destruct r1 as [[]| | |]; try (by simplify_eq).
  apply rangeGoFiles_Effect in H. by eapply Effect_nil_trans.
Qed.

Lemma loadFromDisk_Effect l bp w r w' :
  loadFromDisk E l bp w = (r, w') -> Effect [] l w w'.
Proof.
  unfold loadFromDisk. intros H.
  repeat case_match; simplify_eq;
    try apply Effect_refl; try apply Quiet_setTypesPackages.
  eapply Effect_nil_trans;
    [apply Quiet_setTypesPackages | apply Effect_setJavaScriptCode].
Qed.

Lemma rangeTypesImports_Quiet dir imps :
  Forall (fun tp => ∀ c w r c' w',
            loadImportsOf E recur dir tp c w = (r, c', w') -> Quiet w w') imps ->
  ∀ c w r c' w',
    rangeTypesImports E recur dir imps c w = (r, c', w') -> Quiet w w'.
Proof.
  induction 1 as [|imp rest Himp _ IH]; intros c w r c' w' H; simpl in H.
  - simplify_eq. apply Quiet_refl.
  - destruct (skipped _); [by eapply IH|].
    destruct (decide _); [by eapply IH|].
    destruct (loadImportsOf _ _ _ _ _ _) as [[r1 c2] w2] eqn:H1.
    apply Himp in H1.
    destruct r1 as [[]| | |]; try (by simplify_eq).
    destruct (getPackage _ _ _ _ _ _) as [r2 w3] eqn:H2.
    apply getPackage_Quiet in H2.
    assert (Quiet w w3) by (by eapply Quiet_trans).
    destruct r2 as [gl| | |]; try (by simplify_eq).
    destruct (pkgAt gl w3); [|by simplify_eq].
    apply IH in H. by eapply Quiet_trans.
Qed.

Lemma loadImportsOf_Quiet dir tp : ∀ c w r c' w',
  loadImportsOf E recur dir tp c w = (r, c', w') -> Quiet w w'.
Proof.
  induction tp as [a p ns imps IH] using types_Package_ind.
  intros c w r c' w'. rewrite loadImportsOf_eq. simpl.
  by apply rangeTypesImports_Quiet.
Qed.

Lemma store_Effect l bp b code w r w' :
  store E l bp b code w = (r, w') -> Effect (writeKinds r) l w w'.
Proof.
  unfold store. intros H.
  assert (∀ kinds, Effect kinds l w (setJavaScriptCode l code w)) as H0.
  { intros kinds. eapply Effect_weaken; [|apply Effect_setJavaScriptCode].
    set_solver. }
  destruct (negb b); [by simplify_eq|].
  destruct (os_MkdirAll _ _); [by simplify_eq|].
  destruct (os_OpenFile _ _); [by simplify_eq|].
  set (w1 := setJavaScriptCode l code w) in *.
  set (path := build.PkgObj bp) in *.
  assert (w1 = w ∨ is_Some (pkgAt l w)) as Hw1.
  { destruct (pkgAt l w) eqn:Hl; [right; by eexists|left].
    unfold w1, setJavaScriptCode. destruct l as [|k]; [done|].
    simpl in *. destruct w. simpl in *. f_equal.
    apply map_eq. intros k'. rewrite lookup_alter.
    case_decide; subst; by rewrite ?Hl. }
  assert (∀ w2, Effect [2] l w1 w2 -> Effect [2] l w w2) as Hseq.
  { intros w2 H2. destruct Hw1 as [Heq|Hl]; [by rewrite Heq in H2|].
    change [2] with ([] ++ [2]).
    eapply Effect_trans; [by right | set_solver | apply H0 | done]. }
  pose proof (sameButFile_createTruncate path
                (if build.IsCommand bp then 511 else 438)
                (log (EvOpenFile l path) w1)) as H2.
  set (w2 := createTruncate _ _ _) in *. cbv zeta in H.
  assert (sameButFile path (log (EvOpenFile l path) w1)
            (if build.IsCommand bp
             then file_Write path (bytes "#!/usr/bin/env node" ++ [NL]) w2
             else w2)) as H3.
  { destruct (build.IsCommand bp); [|done].
    eapply sameButFile_trans; [done|apply sameButFile_file_Write]. }
  set (w3 := if build.IsCommand bp then _ else w2) in *.
  repeat case_match; simplify_eq; apply Hseq, (Effect_open l path); try done;
    repeat (eapply sameButFile_trans; [|apply sameButFile_file_Write]);
    done.
Qed.

Lemma translate_Effect l bp b w r w' :
  is_Some (pkgAt l w) ->
  translate E recur l bp b w = (r, w') -> Effect (1 :: writeKinds r) l w w'.
Proof.
  unfold translate. intros Hl H.
  set (w0 := log _ w) in H.
  assert (Effect [1] l w w0) as H0 by apply Effect_log_translate.
  assert (is_Some (pkgAt l w0)) as Hl0 by (by destruct l).
  assert (∀ w2, Quiet w0 w2 -> Effect (1 :: writeKinds r) l w w2) as Hq.
  { intros w2 H2. eapply (Effect_weaken [1]); [set_solver|].
    by eapply Effect_Quiet_r. }
  destruct (translatePackage _ _ _ _ _ _) as [[err|packageCode] reg].
  { simplify_eq. apply Hq, Quiet_setTypesPackages. }
  set (w1 := setTypesPackages reg w0) in H.
  assert (Quiet w0 w1) as H1 by apply Quiet_setTypesPackages.
  assert (∀ w2 code, Quiet w1 w2 -> store E l bp b code w2 = (r, w') ->
                      Effect (1 :: writeKinds r) l w w') as Hstore.
  { intros w2 code H2 Hs. apply store_Effect in Hs.
    change (1 :: writeKinds r) with ([1] ++ writeKinds r).
    eapply Effect_trans; [by right | | | done].
    - pose proof (writeKinds_sub r). set_solver.
    - eapply Effect_Quiet_r; [done | by eapply Quiet_trans | done]. }
  destruct (build.IsCommand bp); [|by eapply Hstore; [apply Quiet_refl|]].
  destruct (typesPackages w1 !! _) as [typesPkg|];
    [|injection H as <- <-; by apply Hq].
  destruct (loadImportsOf _ _ _ _ _ _) as [[r2 c2] w2] eqn:Hload.
  apply loadImportsOf_Quiet in Hload.
  destruct r2 as [[]| | |];
    try (simplify_eq; apply Hq; by eapply Quiet_trans).
  by eapply Hstore.
Qed.

Lemma buildPackage_body_Effect l b w r w' :
  buildPackage_body E recur l b w = (r, w') ->
  Effect (0 :: 1 :: writeKinds r) l w w'.
Proof.
  unfold buildPackage_body. intros H.
  destruct (pkgAt l w) as [pkg|] eqn:Hl; [|simplify_eq; apply Effect_refl].
  set (w0 := log _ w) in H.
  assert (Effect [0] l w w0) as H0 by apply Effect_log_build.
  assert (pkgAt l w0 = Some pkg) as Hl0 by (by destruct l).
  assert (∀ A w1, Effect A l w0 w1 -> A ## [0] ->
                  Effect (0 :: A) l w w1) as Hseq.
  { intros A w1 H1 Hd. change (0 :: A) with ([0] ++ A).
    eapply Effect_trans; [right; by eexists | set_solver | done | done]. }
  assert (∀ w1, Effect [] l w0 w1 ->
                Effect (0 :: 1 :: writeKinds r) l w w1) as Hnil.
  { intros w1 H1. eapply (Effect_weaken [0]); [set_solver|].
    apply (Hseq []); [done | set_solver]. }
  destruct (decide _).
  { simplify_eq. apply Hnil, Quiet_setTypesPackages. }
  destruct (freshness _ _ _ _ _) as [r1 w1] eqn:Hf.
  apply freshness_Effect in Hf.
  destruct r1 as [[]| | |]; try (simplify_eq; by apply Hnil).
  destruct (pkgAt l w1) as [pkg1|] eqn:Hl1; [|simplify_eq; by apply Hnil].
  destruct (upToDate _ _ _ _).
  - apply loadFromDisk_Effect in H. apply Hnil. by eapply Effect_nil_trans.
  - apply translate_Effect in H; [|by eexists].
    apply Hseq; [|pose proof (writeKinds_sub r); set_solver].
    change (1 :: writeKinds r) with ([] ++ 1 :: writeKinds r).
    eapply Effect_trans; [right; by eexists | set_solver | done | done].
Qed.
End Footprints.

(** Every call of [buildPackage] has the footprint of one build. *)
Lemma buildPackage_Effect E fuel : ∀ l b w r w',
  buildPackage E fuel l b w = (r, w') -> Effect [0; 1; 2] l w w'.
Proof.
  induction fuel as [|fuel IH]; intros l b w r w' H; simpl in H.
  - simplify_eq. apply Effect_refl.
  - eapply (Effect_weaken (0 :: 1 :: writeKinds r)).
    + pose proof (writeKinds_sub r). set_solver.
    + by eapply buildPackage_body_Effect.
Qed.

(** A returned error leaves no event of kind 2 for the descriptor. *)
Lemma buildPackage_Effect_outcome E fuel l b w r w' :
  buildPackage E fuel l b w = (r, w') ->
  Effect (0 :: 1 :: writeKinds r) l w w'.
Proof.
  destruct fuel as [|fuel]; simpl; intros H.
  - simplify_eq. apply Effect_refl.
  - eapply buildPackage_body_Effect; [|done]. apply buildPackage_Effect.
Qed.

(** ** What a build does to its own descriptor *)

Lemma later_refl p : later p p.
Proof. by split_and!. Qed.

Lemma later_trans p q r : later p q -> later q r -> later p r.
Proof. intros (? & ? & ?) (? & ? & ?). split_and!; [congruence..|lia]. Qed.

Lemma pkgAt_setSrcLastModified l t w p :
  pkgAt l w = Some p ->
  pkgAt l (setSrcLastModified l t w)
  = Some (mkGopherPackage (Package p) t (JavaScriptCode p)).
Proof. intros H. unfold setSrcLastModified. by rewrite pkgAt_updPkg, H. Qed.

Lemma pkgAt_setJavaScriptCode l c w p :
  pkgAt l w = Some p ->
  pkgAt l (setJavaScriptCode l c w)
  = Some (mkGopherPackage (Package p) (SrcLastModified p) c).
Proof. intros H. unfold setJavaScriptCode. by rewrite pkgAt_updPkg, H. Qed.

Lemma files_updPkg l f w : files (updPkg l f w) = files w.
Proof. by destruct l. Qed.

Lemma typesPackages_updPkg l f w : typesPackages (updPkg l f w) = typesPackages w.
Proof. by destruct l. Qed.

Lemma trace_updPkg l f w : trace (updPkg l f w) = trace w.
Proof. by destruct l. Qed.

(** The two conditional assignments of the freshness loops. *)
Lemma bump_later l t w p :
  pkgAt l w = Some p ->
  ∃ p', pkgAt l (if After t (SrcLastModified p)
                 then setSrcLastModified l t w else w) = Some p'
        ∧ later p p' ∧ t ≤ SrcLastModified p'.
Proof.
  intros H. unfold After. case_bool_decide.
  - eexists. split; [by apply pkgAt_setSrcLastModified|].
    split; [split_and!|]; simpl; try done; lia.
  - exists p. split_and!; [done|apply later_refl|lia].
Qed.

Section Self.
Variable E : Env.
Variable recur : loc -> bool -> World -> outcome unit * World.
Hypothesis recur_Effect :
  ∀ l b w r w', recur l b w = (r, w') -> Effect [0; 1; 2] l w w'.

Lemma rangeImports_self l dir imports : ∀ w r w' p,
  rangeImports E recur l dir imports w = (r, w') -> pkgAt l w = Some p ->
  ∃ p', pkgAt l w' = Some p' ∧ later p p'.
Proof.
  induction imports as [|imp rest IH]; intros w r w' p H Hp; simpl in H.
  - simplify_eq. exists p. split; [done|apply later_refl].
  - destruct (getPackage _ _ _ _ _ _) as [r1 w1] eqn:Hg.
    pose proof (getPackage_Quiet _ _ recur_Effect _ _ _ _ _ _ Hg) as Hq.
    pose proof (Quiet_pkgAt _ _ _ _ Hq Hp) as Hp1.
    destruct r1 as [cl| | |];
      try (simplify_eq; exists p; split; [done|apply later_refl]).
    rewrite Hp1 in H.
    destruct (pkgAt cl w1) as [compiledPkg|];
      [|simplify_eq; exists p; split; [done|apply later_refl]].
    destruct (bump_later l (SrcLastModified compiledPkg) w1 p Hp1)
      as (p2 & Hp2 & Hl2 & _).
    destruct (IH _ _ _ _ H Hp2) as (p' & Hp' & Hl').
    exists p'. split; [done|]. by eapply later_trans.
Qed.

Lemma rangeGoFiles_self l dir names : ∀ w r w' p,
  rangeGoFiles l dir names w = (r, w') -> pkgAt l w = Some p ->
  ∃ p', pkgAt l w' = Some p' ∧ later p p'.
Proof.
  induction names as [|name rest IH]; intros w r w' p H Hp; simpl in H.
  - simplify_eq. exists p. split; [done|apply later_refl].
  - destruct (os_Stat _ w) as [|fileInfo];
      [simplify_eq; exists p; split; [done|apply later_refl]|].
    rewrite Hp in H.
    destruct (bump_later l (ModTime fileInfo) w p Hp) as (p2 & Hp2 & Hl2 & _).
    destruct (IH _ _ _ _ H Hp2) as (p' & Hp' & Hl').
    exists p'. split; [done|]. by eapply later_trans.
Qed.

(** Each loaded source file is no newer than the timestamp. *)
Lemma rangeGoFiles_sources l dir names : ∀ w w' p',
  rangeGoFiles l dir names w = (Done tt, w') -> pkgAt l w' = Some p' ->
  is_Some (pkgAt l w) ->
  ∀ name, name ∈ names ->
    ∃ f, files w !! (dir +:+ "/" +:+ name) = Some f
         ∧ ModTime f ≤ SrcLastModified p'.
Proof.
  induction names as [|name0 rest IH]; intros w w' p' H Hp' [p Hp] name Hin;
    simpl in H; [by apply elem_of_nil in Hin|].
  unfold os_Stat in H.
  destruct (files w !! _) as [fileInfo|] eqn:Hf; [|done].
  rewrite Hp in H.
  destruct (bump_later l (ModTime fileInfo) w p Hp) as (p2 & Hp2 & Hl2 & Hge).
  destruct (rangeGoFiles_self _ _ _ _ _ _ _ H Hp2) as (p3 & Hp3 & Hl3).
  assert (p3 = p') as -> by congruence.
  apply elem_of_cons in Hin as [->|Hin].
  - exists fileInfo. split; [done|]. destruct Hl3 as (_ & _ & ?). lia.
  - destruct (IH _ _ _ H Hp' (mk_is_Some _ _ Hp2) name Hin) as (f & Hf' & Hle).
    exists f. split; [|done]. rewrite <- Hf'.
    case_match; [|done]. unfold setSrcLastModified. by rewrite files_updPkg.
Qed.

Lemma rangeGoFiles_files l dir names : ∀ w r w',
  rangeGoFiles l dir names w = (r, w') -> files w' = files w.
Proof.
  induction names as [|name rest IH]; intros w r w' H; simpl in H;
    [by simplify_eq|].
  destruct (os_Stat _ w); [by simplify_eq|].
  destruct (pkgAt l w); [|by simplify_eq].
  apply IH in H. rewrite H.
  case_match; [|done]. unfold setSrcLastModified. by rewrite files_updPkg.
Qed.

Lemma rangeImports_imports l dir imports : ∀ w w' p',
  rangeImports E recur l dir imports w = (Done tt, w') ->
  pkgAt l w' = Some p' ->
  ∀ B, B ∈ imports ->
    ∃ pB, packages w' !! B = Some pB
          ∧ SrcLastModified pB ≤ SrcLastModified p'.
Proof.
  induction imports as [|imp rest IH]; intros w w' p' H Hp' B HB; simpl in H;
    [by apply elem_of_nil in HB|].
  destruct (getPackage _ _ _ _ _ _) as [r1 w1] eqn:Hg.
  destruct r1 as [cl| | |]; try done.
  destruct (getPackage_Done _ _ recur_Effect _ _ _ _ _ _ Hg) as [-> Hin].
  destruct (pkgAt (LCache imp) w1) as [compiledPkg|] eqn:Hc; [|done].
  destruct (pkgAt l w1) as [pkg|] eqn:Hp1; [|done].
  destruct (bump_later l (SrcLastModified compiledPkg) w1 pkg Hp1)
    as (p2 & Hp2 & Hl2 & Hge).
  set (w2 := if After _ _ then _ else w1) in *.
  destruct (rangeImports_self _ _ _ _ _ _ _ H Hp2) as (p3 & Hp3 & Hl3).
  assert (p3 = p') as -> by congruence.
  apply elem_of_cons in HB as [->|HB]; [|by eapply IH].
  destruct (decide (LCache imp = l)) as [<-|Hne].
  - exists p'. split; [done|lia].
  - exists compiledPkg. split; [|destruct Hl3 as (_ & _ & ?); lia].
    rewrite (eff_frame _ _ _ _ (rangeImports_Effect _ _ recur_Effect _ _ _ _ _ _ H)).
    + unfold w2. case_match; [|done].
      change (pkgAt (LCache imp)
                (setSrcLastModified l (SrcLastModified compiledPkg) w1)
              = Some compiledPkg).
      unfold setSrcLastModified. by rewrite pkgAt_updPkg_ne by congruence.
    + unfold w2. case_match; [|by eexists].
      change (is_Some (pkgAt (LCache imp)
                (setSrcLastModified l (SrcLastModified compiledPkg) w1))).
      unfold setSrcLastModified. rewrite pkgAt_updPkg_ne by congruence.
      by eexists.
    + done.
Qed.

(** Lines 176-200 leave a timestamp that is no older than gopherjs itself,
    any import's timestamp, and any source file. *)
Lemma freshness_self l bp w r w' p :
  freshness E recur l bp w = (r, w') -> pkgAt l w = Some p ->
  ∃ p', pkgAt l w' = Some p' ∧ Package p' = Package p
        ∧ JavaScriptCode p' = JavaScriptCode p.
Proof.
  unfold freshness. intros H Hp.
  destruct (os_Stat _ w) as [|fileInfo]; [simplify_eq; eauto|].
  pose proof (pkgAt_setSrcLastModified l (ModTime fileInfo) w p Hp) as Hp0.
  destruct (rangeImports _ _ _ _ _ _) as [r1 w1] eqn:H1.
  destruct (rangeImports_self _ _ _ _ _ _ _ H1 Hp0) as (p1 & Hp1 & Hl1 & Hj1 & _).
  simpl in *.
  destruct r1 as [[]| | |]; try (simplify_eq; eexists; split_and!; [done|congruence..]).
  destruct (rangeGoFiles_self _ _ _ _ _ _ _ H Hp1) as (p2 & Hp2 & Hl2 & Hj2 & _).
  simpl in *. exists p2. split_and!; [done|congruence..].
Qed.

Lemma freshness_imports l bp w w' p' :
  freshness E recur l bp w = (Done tt, w') -> is_Some (pkgAt l w) ->
  pkgAt l w' = Some p' ->
  ∀ B, B ∈ build.Imports bp ->
    ∃ pB, packages w' !! B = Some pB
          ∧ SrcLastModified pB ≤ SrcLastModified p'.
Proof.
  unfold freshness. intros H [p Hp] Hp' B HB.
  destruct (os_Stat _ w) as [|fileInfo]; [done|].
  pose proof (pkgAt_setSrcLastModified l (ModTime fileInfo) w p Hp) as Hp0.
  destruct (rangeImports _ _ _ _ _ _) as [r1 w1] eqn:H1.
  destruct (rangeImports_self _ _ _ _ _ _ _ H1 Hp0) as (p1 & Hp1 & _).
  destruct r1 as [[]| | |]; try done.
  destruct (rangeImports_imports _ _ _ _ _ _ H1 Hp1 B HB) as (pB & HpB & Hle).
  destruct (rangeGoFiles_self _ _ _ _ _ _ _ H Hp1) as (p2 & Hp2 & _ & _ & Hle2).
  assert (p2 = p') as -> by congruence.
  destruct (decide (LCache B = l)) as [<-|Hne].
  - exists p'. split; [done|lia].
  - exists pB. split; [|lia].
    assert (Effect [] l w1 w') as Hfr by (by eapply rangeGoFiles_Effect).
    rewrite (eff_frame _ _ _ _ Hfr); [done | by eexists | done].
Qed.

Lemma freshness_sources l bp w w' p' :
  freshness E recur l bp w = (Done tt, w') -> is_Some (pkgAt l w) ->
  pkgAt l w' = Some p' ->
  ∀ name, name ∈ build.GoFiles bp ->
    ∃ f, files w' !! (build.Dir bp +:+ "/" +:+ name) = Some f
         ∧ ModTime f ≤ SrcLastModified p'.
Proof.
  unfold freshness. intros H [p Hp] Hp' name Hin.
  destruct (os_Stat _ w) as [|fileInfo]; [done|].
  pose proof (pkgAt_setSrcLastModified l (ModTime fileInfo) w p Hp) as Hp0.
  destruct (rangeImports _ _ _ _ _ _) as [r1 w1] eqn:H1.
  destruct (rangeImports_self _ _ _ _ _ _ _ H1 Hp0) as (p1 & Hp1 & _).
  destruct r1 as [[]| | |]; try done.
  destruct (rangeGoFiles_sources _ _ _ _ _ _ H Hp' (mk_is_Some _ _ Hp1) name Hin)
    as (f & Hf & Hle).
  exists f. split; [|done]. by rewrite (rangeGoFiles_files _ _ _ _ _ _ H).
Qed.
End Self.

(** ** After the freshness timestamp: load, or translate and store *)

Section Finish.
Variable E : Env.
Variable recur : loc -> bool -> World -> outcome unit * World.
Hypothesis recur_Effect :
  ∀ l b w r w', recur l b w = (r, w') -> Effect [0; 1; 2] l w w'.

(** [store] sets the code of the descriptor whatever happens next, and
    its only errors are those of [os.MkdirAll] and [os.OpenFile]. *)
Lemma store_self l bp b code w r w' p :
  store E l bp b code w = (r, w') -> pkgAt l w = Some p ->
  pkgAt l w' = Some (mkGopherPackage (Package p) (SrcLastModified p) code)
  ∧ (∀ e, r = Failed e ->
          os_MkdirAll E (path_Dir E (build.PkgObj bp)) = Some e
          ∨ os_OpenFile E (build.PkgObj bp) = Some e).
Proof.
  unfold store. intros H Hp.
  pose proof (pkgAt_setJavaScriptCode l code w p Hp) as Hp1.
  destruct (negb b); [by simplify_eq|].
  destruct (os_MkdirAll _ _) eqn:Hmk; [simplify_eq; split; [done|naive_solver]|].
  destruct (os_OpenFile _ _) eqn:Hop; [simplify_eq; split; [done|naive_solver]|].
  set (w1 := setJavaScriptCode l code w) in *.
  set (path := build.PkgObj bp) in *.
  pose proof (sameButFile_createTruncate path
                (if build.IsCommand bp then 511 else 438)
                (log (EvOpenFile l path) w1)) as H2.
  set (w2 := createTruncate _ _ _) in *. cbv zeta in H.
  assert (sameButFile path (log (EvOpenFile l path) w1)
            (if build.IsCommand bp
             then file_Write path (bytes "#!/usr/bin/env node" ++ [NL]) w2
             else w2)) as H3.
  { destruct (build.IsCommand bp); [|done].
    eapply sameButFile_trans; [done|apply sameButFile_file_Write]. }
  set (w3 := if build.IsCommand bp then _ else w2) in *.
  assert (pkgAt l w3 = pkgAt l w1) as Hp3
    by (rewrite (sameButFile_pkgAt _ _ _ _ H3); by destruct l).
  split; [|repeat case_match; by simplify_eq].
  repeat case_match; simplify_eq;
    rewrite ?(sameButFile_pkgAt _ _ _ _ (sameButFile_file_Write _ _ _));
    congruence.
Qed.

Lemma createTruncate_lookup path perm w :
  ∃ mode, files (createTruncate path perm w) !! path
          = Some (mkFile (now w) mode []).
Proof. unfold createTruncate. simpl. rewrite lookup_insert_eq. eauto. Qed.

Lemma file_Write_lookup path d w f :
  files w !! path = Some f ->
  files (file_Write path d w) !! path
  = Some (mkFile (now w) (Perm f) (Data f ++ d)).
Proof.
  intros H. unfold file_Write. rewrite H. simpl. by rewrite lookup_insert_eq.
Qed.

Lemma file_Write_now path d w : now (file_Write path d w) = now w.
Proof. unfold file_Write. by destruct (files w !! path). Qed.

(** What a successful [store] with [writeToDisk] leaves in the artifact:
    the header, then the whole code. *)
Lemma store_artifact l bp code w w' p :
  store E l bp true code w = (Done tt, w') -> pkgAt l w = Some p ->
  ∃ f header, files w' !! build.PkgObj bp = Some f
    ∧ Data f = header ++ code ∧ ModTime f = now w
    ∧ (if build.IsCommand bp
       then header = bytes "#!/usr/bin/env node" ++ [NL]
       else ∃ typesPkg, typesPackages w !! build.ImportPath bp = Some typesPkg
                        ∧ header = gcexporter_Write E typesPkg).
Proof.
  unfold store. intros H Hp.
  pose proof (pkgAt_setJavaScriptCode l code w p Hp) as Hp1.
  simpl in H.
  destruct (os_MkdirAll _ _); [done|]. destruct (os_OpenFile _ _); [done|].
  set (w1 := setJavaScriptCode l code w) in *.
  set (path := build.PkgObj bp) in *.
  assert (now w1 = now w) as Hnow by (by destruct l).
  assert (typesPackages w1 = typesPackages w) as Hty by (by destruct l).
  destruct (createTruncate_lookup path
              (if build.IsCommand bp then 511 else 438)
              (log (EvOpenFile l path) w1)) as (mode & Hf2).
  pose proof (sameButFile_createTruncate path
                (if build.IsCommand bp then 511 else 438)
                (log (EvOpenFile l path) w1)) as H2.
  set (w2 := createTruncate _ _ _) in *.
  assert (pkgAt l w2 = Some (mkGopherPackage (Package p) (SrcLastModified p) code))
    as Hp2 by (rewrite (sameButFile_pkgAt _ _ _ _ H2); by destruct l).
  assert (now w2 = now w ∧ typesPackages w2 = typesPackages w) as [Hn2 Ht2].
  { destruct H2 as (_ & _ & -> & -> & _). by destruct l. }
  change (now (log _ w1)) with (now w1) in Hf2. rewrite Hnow in Hf2.
  destruct (build.IsCommand bp); simpl in H.
  - rewrite (sameButFile_pkgAt _ _ _ _ (sameButFile_file_Write _ _ _)), Hp2 in H.
    injection H as <-.
    eexists _, (bytes "#!/usr/bin/env node" ++ [NL]). split_and!.
    + erewrite file_Write_lookup; [done|]. by apply file_Write_lookup.
    + reflexivity.
    + simpl. by rewrite file_Write_now.
    + done.
  - rewrite Hp2 in H. rewrite ?Ht2, ?Hty in H.
    destruct (typesPackages w !! _) as [typesPkg|]; [|done].
    injection H as <-. eexists _, (gcexporter_Write E typesPkg). split_and!.
    + erewrite file_Write_lookup; [done|]. by apply file_Write_lookup.
    + reflexivity.
    + simpl. by rewrite file_Write_now.
    + eauto.
Qed.

Lemma loadFromDisk_self l bp w r w' p :
  loadFromDisk E l bp w = (r, w') -> pkgAt l w = Some p ->
  ∃ p', pkgAt l w' = Some p' ∧ Package p' = Package p
        ∧ SrcLastModified p' = SrcLastModified p
        ∧ (∀ e, r = Failed e -> JavaScriptCode p' = JavaScriptCode p).
Proof.
  unfold loadFromDisk. intros H Hp.
  assert (∀ m, pkgAt l (setTypesPackages m w) = Some p) as Hty
    by (intros; by destruct l).
  repeat case_match; simplify_eq;
    try (exists p; split_and!; by eauto).
  eexists. split; [apply pkgAt_setJavaScriptCode, Hty|]. by split_and!.
Qed.

Lemma translate_self l bp b w r w' p :
  translate E recur l bp b w = (r, w') -> pkgAt l w = Some p ->
  ∃ p', pkgAt l w' = Some p' ∧ Package p' = Package p
        ∧ SrcLastModified p' = SrcLastModified p
        ∧ (∀ e, r = Failed e ->
             JavaScriptCode p' = JavaScriptCode p
             ∨ os_MkdirAll E (path_Dir E (build.PkgObj bp)) = Some e
             ∨ os_OpenFile E (build.PkgObj bp) = Some e).
Proof.
  unfold translate. intros H Hp.
  set (w0 := log _ w) in H.
  assert (pkgAt l w0 = Some p) as Hp0 by (by destruct l).
  assert (∀ w2, Quiet w0 w2 ->
            ∃ p', pkgAt l w2 = Some p' ∧ Package p' = Package p
                  ∧ SrcLastModified p' = SrcLastModified p
                  ∧ (∀ e, r = Failed e ->
                       JavaScriptCode p' = JavaScriptCode p
                       ∨ os_MkdirAll E (path_Dir E (build.PkgObj bp)) = Some e
                       ∨ os_OpenFile E (build.PkgObj bp) = Some e)) as Hq.
  { intros w2 H2. exists p. split_and!; try done; [|by left].
    by eapply Quiet_pkgAt. }
  assert (∀ w2 code, Quiet w0 w2 -> store E l bp b code w2 = (r, w') ->
            ∃ p', pkgAt l w' = Some p' ∧ Package p' = Package p
                  ∧ SrcLastModified p' = SrcLastModified p
                  ∧ (∀ e, r = Failed e ->
                       JavaScriptCode p' = JavaScriptCode p
                       ∨ os_MkdirAll E (path_Dir E (build.PkgObj bp)) = Some e
                       ∨ os_OpenFile E (build.PkgObj bp) = Some e)) as Hs.
  { intros w2 code H2 Hst.
    destruct (store_self _ _ _ _ _ _ _ _ Hst (Quiet_pkgAt _ _ _ _ H2 Hp0))
      as [Hp' Herr].
    eexists. split; [done|]. split_and!; try done.
    intros e He. right. by apply Herr. }
  destruct (translatePackage _ _ _ _ _ _) as [[err|packageCode] reg].
  { injection H as <- <-. apply Hq, Quiet_setTypesPackages. }
  set (w1 := setTypesPackages reg w0) in H.
  assert (Quiet w0 w1) as H1 by apply Quiet_setTypesPackages.
  destruct (build.IsCommand bp); [|by eapply Hs].
  destruct (typesPackages w1 !! _) as [typesPkg|];
    [|injection H as <- <-; by apply Hq].
  destruct (loadImportsOf _ _ _ _ _ _) as [[r2 c2] w2] eqn:Hload.
  eapply loadImportsOf_Quiet in Hload; [|done].
  assert (Quiet w0 w2) by (by eapply Quiet_trans).
  destruct r2 as [[]| | |]; try (injection H as <- <-; by apply Hq).
  by eapply Hs.
Qed.


(** After a successful build no import has a newer timestamp. *)
Lemma buildPackage_body_imports l b w w' p :
  buildPackage_body E recur l b w = (Done tt, w') -> pkgAt l w = Some p ->
  build.ImportPath (Package p) ≠ "unsafe" ->
  ∃ p', pkgAt l w' = Some p'
    ∧ ∀ B, B ∈ build.Imports (Package p) ->
        ∃ pB, packages w' !! B = Some pB
              ∧ SrcLastModified pB ≤ SrcLastModified p'.
Proof.
  unfold buildPackage_body. intros H Hp Hns. rewrite Hp in H.
  set (w0 := log _ w) in H.
  assert (pkgAt l w0 = Some p) as Hp0 by (by destruct l).
  rewrite decide_False in H by done.
  destruct (freshness _ _ _ _ _) as [r1 w1] eqn:Hf.
  destruct r1 as [[]| | |]; try done.
  destruct (pkgAt l w1) as [p1|] eqn:Hp1; [|done].
  pose proof (freshness_imports _ _ recur_Effect _ _ _ _ _ Hf
                (mk_is_Some _ _ Hp0) Hp1) as Himp.
  assert (∃ A p', Effect A l w1 w' ∧ pkgAt l w' = Some p'
                  ∧ SrcLastModified p' = SrcLastModified p1)
    as (A & p' & Heff & Hp' & Hts).
  { destruct (upToDate _ _ _ _).
    - destruct (loadFromDisk_self _ _ _ _ _ _ H Hp1) as (p' & ? & _ & ? & _).
      exists [], p'. split_and!; [|done..]. by eapply loadFromDisk_Effect.
    - destruct (translate_self _ _ _ _ _ _ _ H Hp1) as (p' & ? & _ & ? & _).
      eexists _, p'. split_and!; [|done..].
      eapply translate_Effect; [done|by eexists|done]. }
  exists p'. split; [done|]. intros B HB.
  destruct (Himp B HB) as (pB & HpB & Hle).
  destruct (decide (LCache B = l)) as [<-|Hne].
  - exists p'. split; [done|lia].
  - exists pB. split; [|lia].
    rewrite (eff_frame _ _ _ _ Heff); [done | by eexists | done].
Qed.
End Finish.

(** ** The order of the bundle *)

Lemma descendants_eq tp : descendants tp = descendantsOf (types.Imports tp).
Proof.
  destruct tp as [a p ns imps]. simpl.
  induction imps as [|c rest IH]; [done|]. simpl. by rewrite IH.
Qed.

Lemma emitOrder_eq tp L : emitOrder tp L = rangeOrder (types.Imports tp) L.
Proof.
  destruct tp as [a p ns imps]. simpl. revert L.
  induction imps as [|c rest IH]; intros L; [done|]. simpl.
  repeat case_match; try done; rewrite IH in *; congruence.
Qed.

Lemma descendantsOf_cons c rest :
  descendantsOf (c :: rest) = (c :: descendantsOf (types.Imports c)) ++ descendantsOf rest.
Proof. unfold descendantsOf. simpl. by rewrite descendants_eq. Qed.

Lemma importsFirst_mono D D' o :
  D ⊆ D' -> importsFirst D o -> importsFirst D' o.
Proof.
  revert D D'. induction o as [|n o IH]; intros D D' Hsub; simpl; [done|].
  intros [Hn Ho]. split; [set_solver|]. eapply IH; [|done]. set_solver.
Qed.

Lemma importsFirst_app D o1 o2 :
  importsFirst D o1 ->
  importsFirst (list_to_set (addrs o1) ∪ D) o2 ->
  importsFirst D (o1 ++ o2).
Proof.
  revert D. induction o1 as [|n o1 IH]; intros D; simpl.
  - intros _ H. eapply importsFirst_mono; [|done]. set_solver.
  - intros [Hn H1] H2. split; [done|]. apply IH; [done|].
    eapply importsFirst_mono; [|done]. set_solver.
Qed.

(** The form the claim reads: the imports stand before the importer. *)
Lemma importsFirst_before o : ∀ D,
  importsFirst D o ->
  ∀ pre n post, o = pre ++ n :: post ->
    ∀ c, c ∈ types.Imports n -> skipped (types.Path c) = false ->
         types.addr c ∈ D ∨ types.addr c ∈ addrs pre.
Proof.
  induction o as [|m o IH]; intros D H pre n post Heq c Hc Hs.
  - by destruct pre.
  - destruct pre as [|m' pre]; simpl in *; simplify_eq.
    + left. by apply H.
    + destruct H as [_ H].
      destruct (IH _ H pre n post eq_refl c Hc Hs) as [Hin|Hin].
      * apply elem_of_union in Hin as [->%elem_of_singleton|Hin];
          [right; left | by left].
      * right. by right.
Qed.

(** What a pass over a list of imports yields. *)
Lemma rangeOrder_sound imps :
  Forall (fun tp => ∀ L L' o, emitOrder tp L = (L', o) ->
            L' = list_to_set (addrs o) ∪ L
            ∧ NoDup (addrs o) ∧ (∀ a, a ∈ addrs o -> a ∉ L)
            ∧ (∀ c, c ∈ types.Imports tp -> skipped (types.Path c) = false ->
                    types.addr c ∈ L')
            ∧ (∀ n, n ∈ o -> n ∈ descendants tp ∧ skipped (types.Path n) = false))
    imps ->
  ∀ L L' o, rangeOrder imps L = (L', o) ->
    L' = list_to_set (addrs o) ∪ L
    ∧ NoDup (addrs o) ∧ (∀ a, a ∈ addrs o -> a ∉ L)
    ∧ (∀ c, c ∈ imps -> skipped (types.Path c) = false -> types.addr c ∈ L')
    ∧ (∀ n, n ∈ o -> n ∈ descendantsOf imps ∧ skipped (types.Path n) = false).
Proof.
  induction 1 as [|imp rest Himp _ IH]; intros L L' o H; simpl in H.
  - simplify_eq. split_and!; [set_solver|constructor|set_solver..].
  - assert (∀ n, n ∈ descendantsOf rest -> n ∈ descendantsOf (imp :: rest))
      as Hrest by (intros n Hn; rewrite descendantsOf_cons; set_solver).
    destruct (skipped (types.Path imp)) eqn:Hskip.
    { destruct (IH _ _ _ H) as (-> & ? & ? & Hc & Hd).
      split_and!; [done..| |naive_solver].
      intros c [->|Hin]%elem_of_cons Hs; [congruence|by apply Hc]. }
    destruct (decide _) as [Hin|Hnot].
    { destruct (IH _ _ _ H) as (-> & ? & ? & Hc & Hd).
      split_and!; [done..| |naive_solver].
      intros c [->|Hin']%elem_of_cons Hs; [set_solver|by apply Hc]. }
    destruct (emitOrder imp _) as [L1 o1] eqn:H1.
    destruct (rangeOrder rest L1) as [L2 o2] eqn:H2. simplify_eq.
    destruct (Himp _ _ _ H1) as (-> & Hnd1 & Hfr1 & Hc1 & Hd1).
    destruct (IH _ _ _ H2) as (-> & Hnd2 & Hfr2 & Hc2 & Hd2).
    unfold addrs in *. rewrite !map_app, !map_cons.
    split_and!.
    + rewrite list_to_set_app_L, list_to_set_cons. set_solver.
    + apply NoDup_app. split_and!; [done| |].
      * intros a Ha [->|Ha']%elem_of_cons; [set_solver|].
        apply Hfr2 in Ha'. set_solver.
      * apply NoDup_cons. split; [|done].
        intros Ha. apply Hfr2 in Ha. set_solver.
    + intros a [Ha|[->|Ha]%elem_of_cons]%elem_of_app.
      * apply Hfr1 in Ha. set_solver.
      * done.
      * apply Hfr2 in Ha. set_solver.
    + intros c [->|Hin]%elem_of_cons Hs; [set_solver|]. by apply Hc2.
    + intros n [Hn|[->|Hn]%elem_of_cons]%elem_of_app.
      * destruct (Hd1 n Hn) as [Hdn ?]. split; [|done].
        rewrite descendantsOf_cons, <- descendants_eq. set_solver.
      * split; [|done]. rewrite descendantsOf_cons. set_solver.
      * destruct (Hd2 n Hn). split; [|done]. by apply Hrest.
Qed.

Lemma emitOrder_sound tp : ∀ L L' o,
  emitOrder tp L = (L', o) ->
  L' = list_to_set (addrs o) ∪ L
  ∧ NoDup (addrs o) ∧ (∀ a, a ∈ addrs o -> a ∉ L)
  ∧ (∀ c, c ∈ types.Imports tp -> skipped (types.Path c) = false ->
          types.addr c ∈ L')
  ∧ (∀ n, n ∈ o -> n ∈ descendants tp ∧ skipped (types.Path n) = false).
Proof.
  induction tp as [a p ns imps IH] using types_Package_ind.
  intros L L' o. rewrite emitOrder_eq, descendants_eq. simpl.
  by apply rangeOrder_sound.
Qed.

Lemma acyclicOf_cons imp rest :
  acyclicOf (imp :: rest) ->
  Forall (fun c => types.addr c ≠ types.addr imp) (descendants imp)
  ∧ acyclic imp ∧ acyclicOf rest.
Proof.
  unfold acyclic, acyclicOf. rewrite descendantsOf_cons.
  intros [[Himp Hbelow]%Forall_cons Hrest]%Forall_app.
  by rewrite descendants_eq in Himp |- *.
Qed.

(** With [D] the addresses already emitted and [M] those marked but not yet
    emitted, which are the importers on the way down: on an acyclic tree
    every package is emitted after its imports. *)
Lemma rangeOrder_importsFirst imps :
  Forall (fun tp => ∀ L L' o (D M : gset positive),
            emitOrder tp L = (L', o) -> L ⊆ D ∪ M ->
            (∀ c, c ∈ descendants tp -> types.addr c ∉ M) ->
            acyclic tp -> importsFirst D o) imps ->
  ∀ L L' o (D M : gset positive),
    rangeOrder imps L = (L', o) -> L ⊆ D ∪ M ->
    (∀ c, c ∈ descendantsOf imps -> types.addr c ∉ M) ->
    acyclicOf imps -> importsFirst D o.
Proof.
  induction 1 as [|imp rest Himp _ IH]; intros L L' o D M H HL HM Hacyc;
    simpl in H; [by simplify_eq|].
  apply acyclicOf_cons in Hacyc as (Hself & Hacyc1 & Hacyc2).
  assert (∀ c, c ∈ descendantsOf rest -> types.addr c ∉ M) as HMrest
    by (intros c Hc; apply HM; rewrite descendantsOf_cons; set_solver).
  assert (∀ c, c ∈ descendants imp -> types.addr c ∉ M) as HMimp.
  { intros c Hc. apply HM. rewrite descendantsOf_cons, <- descendants_eq.
    set_solver. }
  destruct (skipped (types.Path imp)); [by eapply IH|].
  destruct (decide _); [by eapply IH|].
  destruct (emitOrder imp _) as [L1 o1] eqn:H1.
  destruct (rangeOrder rest L1) as [L2 o2] eqn:H2. simplify_eq.
  destruct (emitOrder_sound _ _ _ _ H1) as (-> & _ & _ & Hc1 & _).
  apply importsFirst_app.
  - eapply (Himp _ _ _ D ({[types.addr imp]} ∪ M)); [done|set_solver| |done].
    intros c Hc. rewrite Forall_forall in Hself.
    specialize (Hself c Hc). specialize (HMimp c Hc). set_solver.
  - split.
    + intros c Hc Hs. specialize (Hc1 c Hc Hs).
      assert (c ∈ descendants imp) as Hd.
      { rewrite descendants_eq. unfold descendantsOf.
        apply list_elem_of_In, in_flat_map. exists c.
        split; [by apply list_elem_of_In | by left]. }
      rewrite Forall_forall in Hself.
      specialize (Hself c Hd). specialize (HMimp c Hd). set_solver.
    + eapply (IH _ _ _ _ M); [done|set_solver|done|done].
Qed.

Lemma emitOrder_importsFirst tp : ∀ L L' o (D M : gset positive),
  emitOrder tp L = (L', o) -> L ⊆ D ∪ M ->
  (∀ c, c ∈ descendants tp -> types.addr c ∉ M) ->
  acyclic tp -> importsFirst D o.
Proof.
  induction tp as [a p ns imps IH] using types_Package_ind.
  intros L L' o D M. rewrite emitOrder_eq, descendants_eq. simpl.
  by apply rangeOrder_importsFirst.
Qed.

(** ** The assembler follows that order *)

Section Assembler.
Variable E : Env.
Variable recur : loc -> bool -> World -> outcome unit * World.
Hypothesis recur_Effect :
  ∀ l b w r w', recur l b w = (r, w') -> Effect [0; 1; 2] l w w'.

Lemma rangeTypesImports_order dir imps :
  Forall (fun tp => ∀ c w c' w',
            loadImportsOf E recur dir tp c w = (Done tt, c', w') ->
            ∃ blocks, loaded c' = (emitOrder tp (loaded c)).1
              ∧ map fst blocks = (emitOrder tp (loaded c)).2
              ∧ jsCode c' = jsCode c ++ concat (map (block E) blocks)) imps ->
  ∀ c w c' w',
    rangeTypesImports E recur dir imps c w = (Done tt, c', w') ->
    ∃ blocks, loaded c' = (rangeOrder imps (loaded c)).1
      ∧ map fst blocks = (rangeOrder imps (loaded c)).2
      ∧ jsCode c' = jsCode c ++ concat (map (block E) blocks).
Proof.
  induction 1 as [|imp rest Himp _ IH]; intros c w c' w' H; simpl in H |- *.
  - simplify_eq. exists []. by rewrite app_nil_r.
  - destruct (skipped _); [by eapply IH|].
    destruct (decide _); [by eapply IH|].
    destruct (loadImportsOf _ _ _ _ _ _) as [[r1 c2] w2] eqn:H1.
    destruct r1 as [[]| | |]; try done.
    destruct (Himp _ _ _ _ H1) as (b1 & HL1 & Ho1 & Hj1). simpl in *.
    destruct (emitOrder imp _) as [L1 o1]. simpl in *.
    destruct (getPackage _ _ _ _ _ _) as [r2 w3].
    destruct r2 as [gl| | |]; try done.
    destruct (pkgAt gl w3) as [gopherPkg|]; [|done].
    destruct (IH _ _ _ _ H) as (b2 & HL2 & Ho2 & Hj2). simpl in *.
    rewrite HL1 in *. destruct (rangeOrder rest L1) as [L2 o2]. simpl in *.
    exists (b1 ++ (imp, JavaScriptCode gopherPkg) :: b2). split_and!.
    + done.
    + rewrite map_app. simpl. congruence.
    + rewrite Hj2, Hj1, map_app, concat_app, map_cons, concat_cons.
      rewrite <- !app_assoc. reflexivity.
Qed.

Lemma loadImportsOf_order dir tp : ∀ c w c' w',
  loadImportsOf E recur dir tp c w = (Done tt, c', w') ->
  ∃ blocks, loaded c' = (emitOrder tp (loaded c)).1
    ∧ map fst blocks = (emitOrder tp (loaded c)).2
    ∧ jsCode c' = jsCode c ++ concat (map (block E) blocks).
Proof.
  induction tp as [a p ns imps IH] using types_Package_ind.
  intros c w c' w'. rewrite loadImportsOf_eq, emitOrder_eq. simpl.
  by apply rangeTypesImports_order.
Qed.

(** When every package the assembler would emit is in the cache, the
    assembly neither builds nor writes: the world stays as it is. *)
Lemma rangeTypesImports_cached dir imps :
  Forall (fun tp => ∀ c w,
            (∀ n, n ∈ descendants tp -> skipped (types.Path n) = false ->
                  is_Some (packages w !! types.Path n)) ->
            ∃ c', loadImportsOf E recur dir tp c w = (Done tt, c', w)) imps ->
  ∀ c w,
    (∀ n, n ∈ descendantsOf imps -> skipped (types.Path n) = false ->
          is_Some (packages w !! types.Path n)) ->
    ∃ c', rangeTypesImports E recur dir imps c w = (Done tt, c', w).
Proof.
  clear recur_Effect. induction 1 as [|imp rest Himp _ IH]; intros c w Hall; simpl.
  - by eexists.
  - assert (∀ n, n ∈ descendantsOf rest -> skipped (types.Path n) = false ->
              is_Some (packages w !! types.Path n)) as Hrest
      by (intros m Hm; apply Hall; rewrite descendantsOf_cons; set_solver).
    destruct (skipped (types.Path imp)) eqn:Hs; [by apply IH|].
    destruct (decide _); [by apply IH|].
    edestruct (Himp (mkClosure ({[types.addr imp]} ∪ loaded c) (jsCode c)) w)
      as (c2 & ->).
    { intros m Hm. apply Hall. rewrite descendantsOf_cons, <- descendants_eq.
      set_solver. }
    destruct (Hall imp) as [pkg Hpkg]; [rewrite descendantsOf_cons; set_solver|done|].
    unfold getPackage. rewrite Hpkg. simpl. rewrite Hpkg. by apply IH.
Qed.

Lemma loadImportsOf_cached dir tp : ∀ c w,
  (∀ n, n ∈ descendants tp -> skipped (types.Path n) = false ->
        is_Some (packages w !! types.Path n)) ->
  ∃ c', loadImportsOf E recur dir tp c w = (Done tt, c', w).
Proof.
  clear recur_Effect. induction tp as [a p ns imps IH] using types_Package_ind.
  intros c w. rewrite loadImportsOf_eq, descendants_eq. simpl.
  by apply rangeTypesImports_cached.
Qed.
End Assembler.

(** ** Which builds write to disk *)

Section Persist.
Variable E : Env.
Variable recur : loc -> bool -> World -> outcome unit * World.
Variable Q : event -> Prop.
Hypothesis Q_lenient : lenient Q.
Hypothesis recur_persist :
  ∀ l w r w', recur l true w = (r, w') ->
              Forall Q (trace w) -> Forall Q (trace w').

Lemma getPackage_persist p d b w r w' :
  getPackage E recur p d b w = (r, w') ->
  Forall Q (trace w) -> Forall Q (trace w').
Proof.
  unfold getPackage. intros H HQ.
  destruct (packages w !! p); [by simplify_eq|].
  destruct (buildContext_Import E (files w) p d); [by simplify_eq|].
  destruct (recur _ _ _) as [r2 w2] eqn:Hr.
  apply recur_persist in Hr; [|done].
  destruct r2; by simplify_eq.
Qed.

Lemma bump_trace l t (c : bool) w :
  trace (if c then setSrcLastModified l t w else w) = trace w.
Proof. destruct c; [|done]. apply trace_updPkg. Qed.

Lemma rangeImports_persist l dir imports : ∀ w r w',
  rangeImports E recur l dir imports w = (r, w') ->
  Forall Q (trace w) -> Forall Q (trace w').
Proof.
  induction imports as [|imp rest IH]; intros w r w' H HQ; simpl in H;
    [by simplify_eq|].
  destruct (getPackage _ _ _ _ _ _) as [r1 w1] eqn:Hg.
  apply getPackage_persist in Hg; [|done].
  destruct r1 as [cl| | |]; try (by simplify_eq).
  destruct (pkgAt cl w1); [|by simplify_eq].
  destruct (pkgAt l w1); [|by simplify_eq].
  eapply IH; [done|]. by rewrite bump_trace.
Qed.

Lemma rangeGoFiles_trace l dir names : ∀ w r w',
  rangeGoFiles l dir names w = (r, w') -> trace w' = trace w.
Proof.
  induction names as [|name rest IH]; intros w r w' H; simpl in H;
    [by simplify_eq|].
  destruct (os_Stat _ w); [by simplify_eq|].
  destruct (pkgAt l w); [|by simplify_eq].
  apply IH in H. by rewrite H, bump_trace.
Qed.

Lemma freshness_persist l bp w r w' :
  freshness E recur l bp w = (r, w') ->
  Forall Q (trace w) -> Forall Q (trace w').
Proof.
  unfold freshness. intros H HQ.
  destruct (os_Stat _ w); [by simplify_eq|].
  destruct (rangeImports _ _ _ _ _ _) as [r1 w1] eqn:H1.
  apply rangeImports_persist in H1;
    [|unfold setSrcLastModified; by rewrite trace_updPkg].
  destruct r1 as [[]| | |]; try (by simplify_eq).
  apply rangeGoFiles_trace in H. by rewrite H.
Qed.

Lemma loadFromDisk_trace l bp w r w' :
  loadFromDisk E l bp w = (r, w') -> trace w' = trace w.
Proof.
  unfold loadFromDisk. intros H.
  repeat case_match; simplify_eq; try done.
  unfold setJavaScriptCode. by rewrite trace_updPkg.
Qed.

Lemma rangeTypesImports_persist dir imps :
  Forall (fun tp => ∀ c w r c' w',
            loadImportsOf E recur dir tp c w = (r, c', w') ->
            Forall Q (trace w) -> Forall Q (trace w')) imps ->
  ∀ c w r c' w',
    rangeTypesImports E recur dir imps c w = (r, c', w') ->
    Forall Q (trace w) -> Forall Q (trace w').
Proof.
  induction 1 as [|imp rest Himp _ IH]; intros c w r c' w' H HQ; simpl in H;
    [by simplify_eq|].
  destruct (skipped _); [by eapply IH|].
  destruct (decide _); [by eapply IH|].
  destruct (loadImportsOf _ _ _ _ _ _) as [[r1 c2] w2] eqn:H1.
  apply Himp in H1; [|done].
  destruct r1 as [[]| | |]; try (by simplify_eq).
  destruct (getPackage _ _ _ _ _ _) as [r2 w3] eqn:H2.
  apply getPackage_persist in H2; [|done].
  destruct r2 as [gl| | |]; try (by simplify_eq).
  destruct (pkgAt gl w3); [|by simplify_eq].
  by eapply IH.
Qed.

Lemma loadImportsOf_persist dir tp : ∀ c w r c' w',
  loadImportsOf E recur dir tp c w = (r, c', w') ->
  Forall Q (trace w) -> Forall Q (trace w').
Proof.
  induction tp as [a p ns imps IH] using types_Package_ind.
  intros c w r c' w'. rewrite loadImportsOf_eq. simpl.
  by apply rangeTypesImports_persist.
Qed.

Lemma store_trace l bp b code w r w' :
  store E l bp b code w = (r, w') ->
  trace w' = trace w
  ∨ trace w' = trace w ++ [EvOpenFile l (build.PkgObj bp)].
Proof.
  unfold store. intros H.
  assert (trace (setJavaScriptCode l code w) = trace w) as H0
    by (unfold setJavaScriptCode; by rewrite trace_updPkg).
  destruct (negb b); [left; by simplify_eq|].
  destruct (os_MkdirAll _ _); [left; by simplify_eq|].
  destruct (os_OpenFile _ _); [left; by simplify_eq|].
  right. set (w1 := setJavaScriptCode l code w) in *.
  set (path := build.PkgObj bp) in *.
  pose proof (sameButFile_createTruncate path
                (if build.IsCommand bp then 511 else 438)
                (log (EvOpenFile l path) w1)) as H2.
  set (w2 := createTruncate _ _ _) in *. cbv zeta in H.
  assert (sameButFile path (log (EvOpenFile l path) w1)
            (if build.IsCommand bp
             then file_Write path (bytes "#!/usr/bin/env node" ++ [NL]) w2
             else w2)) as H3.
  { destruct (build.IsCommand bp); [|done].
    eapply sameButFile_trans; [done|apply sameButFile_file_Write]. }
  set (w3 := if build.IsCommand bp then _ else w2) in *.
  assert (∀ w4, sameButFile path (log (EvOpenFile l path) w1) w4 ->
                trace w4 = trace w ++ [EvOpenFile l path]) as Ht.
  { intros w4 (_ & _ & _ & _ & -> & _). simpl. by rewrite H0. }
  repeat case_match; simplify_eq; apply Ht; try done;
    repeat (eapply sameButFile_trans; [|apply sameButFile_file_Write]);
    done.
Qed.

Lemma translate_persist l bp b w r w' :
  translate E recur l bp b w = (r, w') ->
  Forall Q (trace w) -> Forall Q (trace w').
Proof.
  unfold translate. intros H HQ.
  set (w0 := log _ w) in H.
  assert (Forall Q (trace w0)) as H0.
  { simpl. apply Forall_app. split; [done|].
    apply Forall_singleton, Q_lenient. done. }
  assert (∀ code w2, Forall Q (trace w2) ->
            store E l bp b code w2 = (r, w') -> Forall Q (trace w')) as Hs.
  { intros code w2 H2 Hst. apply store_trace in Hst as [->| ->]; [done|].
    apply Forall_app. split; [done|].
    apply Forall_singleton, Q_lenient. done. }
  destruct (translatePackage _ _ _ _ _ _) as [[err|packageCode] reg];
    [injection H as <- <-; exact H0|].
  destruct (build.IsCommand bp);
    [|eapply (Hs packageCode (setTypesPackages reg w0)); [exact H0|exact H]].
  destruct (typesPackages _ !! _); [|injection H as <- <-; exact H0].
  destruct (loadImportsOf _ _ _ _ _ _) as [[r2 c2] w2] eqn:Hload.
  apply loadImportsOf_persist in Hload; [|exact H0].
  destruct r2 as [[]| | |]; try (by simplify_eq).
  eapply Hs; [exact Hload | exact H].
Qed.

Lemma buildPackage_body_persist l b w r w' :
  buildPackage_body E recur l b w = (r, w') ->
  Q (EvBuild l b) -> Forall Q (trace w) -> Forall Q (trace w').
Proof.
  unfold buildPackage_body. intros H Hb HQ.
  destruct (pkgAt l w); [|by simplify_eq].
  set (w0 := log _ w) in H.
  assert (Forall Q (trace w0)) as H0.
  { simpl. apply Forall_app. split; [done|]. by apply Forall_singleton. }
  destruct (decide _); [injection H as <- <-; exact H0|].
  destruct (freshness _ _ _ _ _) as [r1 w1] eqn:Hf.
  apply freshness_persist in Hf; [|done].
  destruct r1 as [[]| | |]; try (by simplify_eq).
  destruct (pkgAt l w1); [|by simplify_eq].
  destruct (upToDate _ _ _ _).
  - apply loadFromDisk_trace in H. by rewrite H.
  - by eapply translate_persist.
Qed.
End Persist.

Lemma buildPackage_persist E Q (HQ : lenient Q) fuel : ∀ l b w r w',
  buildPackage E fuel l b w = (r, w') ->
  Q (EvBuild l b) -> Forall Q (trace w) -> Forall Q (trace w').
Proof.
  induction fuel as [|fuel IH]; intros l b w r w' H Hb Hw; simpl in H.
  - by simplify_eq.
  - eapply buildPackage_body_persist; [done| |done..].
    intros l' w1 r1 w1' H1. eapply IH; [done|]. by apply HQ.
Qed.

(** * The claims *)

Lemma NoDup_omap_kind (f : event -> option loc) (K : nat) (new : list event) :
  (∀ e l, f e = Some l -> kindOf e = K ∧ locOf e = l) ->
  NoDup (map tag new) -> NoDup (omap f new).
Proof.
  intros Hf. induction new as [|e new IH]; simpl; [constructor|].
  intros [Hnot Hnd]%NoDup_cons. destruct (f e) as [l|] eqn:He; [|by apply IH].
  apply NoDup_cons. split; [|by apply IH].
  intros (e' & He' & Hfe')%list_elem_of_omap. apply Hnot.
  apply list_elem_of_fmap. exists e'. split; [|done].
  destruct (Hf _ _ He) as [? ?], (Hf _ _ Hfe') as [? ?]. unfold tag. congruence.
Qed.

Lemma buildPackage_Failed_present E fuel l b w e w' :
  buildPackage E fuel l b w = (Failed e, w') -> is_Some (pkgAt l w).
Proof.
  destruct fuel as [|fuel]; simpl; [done|]. unfold buildPackage_body.
  destruct (pkgAt l w); [by eexists | done].
Qed.

(** C3.  Within one run [buildPackage], and so [translatePackage], is
    entered at most once for each descriptor, that is once for each import
    path requested from the cache: among the events a call adds to the
    trace no descriptor is built twice or translated twice.  A request for
    a path that is in the cache returns the cached descriptor and changes
    nothing.  In the diamond (main imports b and c, both import d) the
    builds are main, b, d, c: d is built once. *)
Theorem C3_at_most_one_build_per_identity (E : Env) (fuel : nat) (l : loc)
    (b : bool) (w : World) :
  let w' := snd (buildPackage E fuel l b w) in
  (∃ new, trace w' = trace w ++ new
          ∧ NoDup (omap builtBy new) ∧ NoDup (omap translatedBy new))
  ∧ (∀ recur k d b', is_Some (packages w' !! k) ->
       getPackage E recur k d b' w' = (Done (LCache k), w'))
  ∧ built (snd (buildPackage Demo.diamondEnv 10 LRoot true Demo.diamondStart))
    = [LRoot; LCache "b"; LCache "d"; LCache "c"]
  ∧ translated (snd (buildPackage Demo.diamondEnv 10 LRoot true Demo.diamondStart))
    = [LCache "d"; LCache "b"; LCache "c"; LRoot].
Proof.
  intros w'. split_and!.
  - destruct (buildPackage E fuel l b w) as [r w1] eqn:H. subst w'. simpl.
    apply buildPackage_Effect in H as [(new & Ht & Hnd & _) _ _ _ _].
    exists new. split_and!; [done| |].
    + eapply (NoDup_omap_kind _ 0); [|done]. by intros [] ? [= <-].
    + eapply (NoDup_omap_kind _ 1); [|done]. by intros [] ? [= <-].
  - intros recur k d b' [p Hp]. unfold getPackage. by rewrite Hp.
  - by vm_compute.
  - by vm_compute.
Qed.

(** C8.  When [buildPackage] returns an error, the call has not opened the
    artifact of its descriptor: none of the events it added is an
    [os.OpenFile] of that descriptor, and every file that no event opened is
    as it was.  When [store] does write, the file holds the header followed
    by the whole code, which is by then the code of the descriptor. *)
Theorem C8_failure_leaves_artifact_unopened (E : Env) :
  (∀ fuel l b w e w',
     buildPackage E fuel l b w = (Failed e, w') ->
     ∃ new, trace w' = trace w ++ new ∧ (l ∉ omap openedBy new)
            ∧ ∀ p, p ∉ omap openedPath new -> files w' !! p = files w !! p)
  ∧ (∀ l bp code w w' p,
       store E l bp true code w = (Done tt, w') -> pkgAt l w = Some p ->
       ∃ f header, files w' !! build.PkgObj bp = Some f
         ∧ Data f = header ++ code
         ∧ (JavaScriptCode <$> pkgAt l w') = Some code).
Proof.
  split.
  - intros fuel l b w e w' H.
    pose proof (buildPackage_Failed_present _ _ _ _ _ _ _ H) as [p Hp].
    apply buildPackage_Effect_outcome in H as [(new & Ht & _ & Hev & Hf) _ _ _ _].
    exists new. split_and!; [done| |done].
    intros (e' & He' & Hl)%list_elem_of_omap.
    destruct e' as [| |l' path]; try done. injection Hl as ->.
    destruct (Hev _ He') as [[_ Hk]|Hfr]; simpl in *.
    + set_solver.
    + apply fresh_not_present in Hfr. congruence.
  - intros l bp code w w' p H Hp.
    destruct (store_artifact _ _ _ _ _ _ _ H Hp) as (f & header & Hf & Hd & _).
    destruct (store_self _ _ _ _ _ _ _ _ _ H Hp) as [Hp' _].
    exists f, header. split_and!; [done..|]. by rewrite Hp'.
Qed.


(** C2.  When [buildPackage] has succeeded on a descriptor, every package it
    imports is in the cache with a freshness timestamp that is not newer
    than the descriptor's own.  Consequently, when the timestamps have been
    computed and the artifact is not strictly newer than the timestamp of
    one of the imports, the artifact is not reused: the build goes on with
    the translation, whatever the age of the package's own sources.  A
    timestamp is in turn no older than any source file of its package, so a
    newer source of an import is enough. *)
Theorem C2_freshness_dominates_imports (E : Env) (fuel : nat) (l : loc)
    (b : bool) (w w' : World) (p : GopherPackage) :
  buildPackage E (S fuel) l b w = (Done tt, w') ->
  pkgAt l w = Some p ->
  build.ImportPath (Package p) ≠ "unsafe" ->
  (∃ p', pkgAt l w' = Some p'
     ∧ ∀ B, B ∈ build.Imports (Package p) ->
         ∃ pB, packages w' !! B = Some pB
               ∧ SrcLastModified pB ≤ SrcLastModified p')
  ∧ (∀ w1 B pB,
       freshness E (buildPackage E fuel) l (Package p) (log (EvBuild l b) w)
       = (Done tt, w1) ->
       B ∈ build.Imports (Package p) ->
       packages w1 !! B = Some pB ->
       (∀ f, files w1 !! build.PkgObj (Package p) = Some f ->
             ModTime f ≤ SrcLastModified pB) ->
       buildPackage E (S fuel) l b w
       = translate E (buildPackage E fuel) l (Package p) b w1)
  ∧ (∀ w1 p1 name,
       freshness E (buildPackage E fuel) l (Package p) (log (EvBuild l b) w)
       = (Done tt, w1) ->
       pkgAt l w1 = Some p1 -> name ∈ build.GoFiles (Package p) ->
       ∃ f, files w1 !! (build.Dir (Package p) +:+ "/" +:+ name) = Some f
            ∧ ModTime f ≤ SrcLastModified p1).
Proof.
  intros H Hp Hns.
  assert (pkgAt l (log (EvBuild l b) w) = Some p) as Hp0' by (by destruct l).
  split_and!; [| |intros w1 p1 name Hf Hp1 Hin;
                  by eapply (freshness_sources _ _ (buildPackage_Effect E fuel))].
  - eapply buildPackage_body_imports; [apply buildPackage_Effect|done..].
  - intros w1 B pB Hf HB HpB Hold. simpl. unfold buildPackage_body.
    rewrite Hp, decide_False, Hf by done.
    assert (pkgAt l (log (EvBuild l b) w) = Some p) as Hp0 by (by destruct l).
    destruct (freshness_self _ _ (buildPackage_Effect E fuel) _ _ _ _ _ _ Hf Hp0)
      as (p1 & Hp1 & _).
    rewrite Hp1.
    destruct (freshness_imports _ _ (buildPackage_Effect E fuel) _ _ _ _ _ Hf
                (mk_is_Some _ _ Hp0) Hp1 B HB) as (pB' & HpB' & Hle).
    assert (pB' = pB) as -> by congruence.
    unfold upToDate, os_Stat.
    destruct (files w1 !! _) as [f|] eqn:Hfile; [|done].
    specialize (Hold f eq_refl). unfold After.
    rewrite bool_decide_eq_false_2; [done|lia].
Qed.

(** C10.  For [build] and [run] the artifact path is
    [basename[:len(basename)-3] + ".js"].  Once the entry file has parsed,
    a base name shorter than three bytes makes the slice expression panic:
    no error is returned.  With three bytes or more the path is the base
    name without its last three bytes, followed by [.js]. *)
Theorem C10_short_basename_panics (parseImports : string -> error + list string)
    (path_Dir : string -> string) (filename : string) (imports : list string) :
  parseImports filename = inr imports ->
  (String.length (path_Base filename) < 3 ->
   entryDescriptor parseImports path_Dir filename = Panicked)
  ∧ (3 ≤ String.length (path_Base filename) ->
     ∃ bp, entryDescriptor parseImports path_Dir filename = Done bp
       ∧ build.PkgObj bp
         = String.substring 0 (String.length (path_Base filename) - 3)
             (path_Base filename) +:+ ".js").
Proof.
  intros Hparse. unfold entryDescriptor, artifactName, slice_to.
  rewrite Hparse. split; intros Hlen.
  - rewrite decide_False by lia. done.
  - rewrite decide_True by lia. eexists. split; [done|]. simpl.
    do 2 f_equal. lia.
Qed.

Lemma collectExports_fold upper names : ∀ acc,
  fold_left
    (fun exports name =>
       if ast_IsExported upper name
       then exports ++ [name +:+ ": " +:+ name] else exports) names acc
  = acc ++ map (fun n => n +:+ ": " +:+ n)
             (List.filter (ast_IsExported upper) names).
Proof.
  induction names as [|n names IH]; intros acc; simpl.
  - by rewrite app_nil_r.
  - rewrite IH. destruct (ast_IsExported upper n); [|done].
    by rewrite <- app_assoc.
Qed.

(** C6.  The object a registration block returns lists exactly the names of
    the package's scope that [ast.IsExported] accepts, each as
    [name: name], in scope order, joined by [", "]; a name that is not
    exported does not occur.  A scope with Foo, baz and Bar gives
    [Foo: Foo, Bar: Bar]. *)
Theorem C6_export_bridging (upper : string -> bool) (path : string)
    (code : list byte) (names : list string) :
  collectExports upper names
  = map (fun n => n +:+ ": " +:+ n) (List.filter (ast_IsExported upper) names)
  ∧ (∀ s, s ∈ collectExports upper names <->
          ∃ n, n ∈ names ∧ ast_IsExported upper n = true
               ∧ s = n +:+ ": " +:+ n)
  ∧ registration upper path code names
    = (bytes "Go$packages[" ++ [QUOTE] ++ bytes path ++ [QUOTE]
         ++ bytes "] = (function() {")
      ++ code
      ++ ([TAB]
          ++ bytes ("return { "
                    +:+ strings_Join
                          (map (fun n => n +:+ ": " +:+ n)
                             (List.filter (ast_IsExported upper) names)) ", "
                    +:+ " };")
          ++ [NL])
      ++ (bytes "})();" ++ [NL])
  ∧ collectExports upper ["Foo"; "baz"; "Bar"] = ["Foo: Foo"; "Bar: Bar"]
  ∧ string_of_list_byte (registration upper "lib" [] ["Foo"; "baz"; "Bar"])
    = "Go$packages[" +:+ String (ascii_of_byte QUOTE) "lib"
      +:+ String (ascii_of_byte QUOTE) "] = (function() {"
      +:+ String (ascii_of_byte TAB) "return { Foo: Foo, Bar: Bar };"
      +:+ String (ascii_of_byte NL) "})();"
      +:+ String (ascii_of_byte NL) "".
Proof.
  assert (collectExports upper names
          = map (fun n => n +:+ ": " +:+ n)
              (List.filter (ast_IsExported upper) names)) as Heq
    by apply collectExports_fold.
  split_and!; [done| |by unfold registration; rewrite Heq|done|done].
  intros s. rewrite Heq, list_elem_of_fmap. split.
  - intros (n & -> & Hn). apply list_elem_of_In, filter_In in Hn as [Hn ?].
    exists n. split_and!; [by apply list_elem_of_In|done..].
  - intros (n & Hn & Hex & ->). exists n. split; [done|].
    apply list_elem_of_In, filter_In. split; [by apply list_elem_of_In|done].
Qed.

Lemma scanPayload_artifact blob payload pos :
  sentinelFree payload -> payload ≠ [] ->
  length blob ≤ pos ≤ length (blob ++ sentinel ++ payload) ->
  scanPayload (blob ++ sentinel ++ payload) pos = Payload payload.
Proof.
  intros Hfree Hne [Hlo Hhi].
  rewrite scanPayload_spec by done.
  rewrite !length_app in *. change (length sentinel) with 3 in *.
  assert (0 < length payload) by (destruct payload; [done|simpl; lia]).
  unfold scanStart. rewrite !length_app. change (length sentinel) with 3.
  assert (∀ k, length blob ≤ k ->
            match lastSentinel (blob ++ sentinel ++ payload) k with
            | Some i => Payload (drop (i + 3) (blob ++ sentinel ++ payload))
            | None => NoPayload
            end = Payload payload) as Hk.
  { intros k Hle. rewrite lastSentinel_artifact by done.
    by rewrite drop_app_add. }
  repeat case_decide; try lia; apply Hk; lia.
Qed.


(** C4, as amended.  When the artifact of a library exists, is strictly
    newer than the freshness timestamp, and [writeToDisk] is set,
    [buildPackage] does not translate: it adds no event to the trace, takes
    the type interface from the decoder and the code from the file.  If the
    file is what [store] writes, the exporter's output followed by the code,
    the code read back is that code byte for byte, provided the code is not
    empty and does not itself hold the bytes ["$$\n"]. *)
Theorem C4_cache_hit_round_trip (E : Env) (fuel : nat) (l : loc)
    (w w1 : World) (p p1 : GopherPackage) (f : File)
    (exported typesPkg : types.Package) (payload : list byte) :
  pkgAt l w = Some p ->
  build.ImportPath (Package p) ≠ "unsafe" ->
  build.IsCommand (Package p) = false ->
  freshness E (buildPackage E fuel) l (Package p) (log (EvBuild l true) w)
  = (Done tt, w1) ->
  pkgAt l w1 = Some p1 ->
  files w1 !! build.PkgObj (Package p) = Some f ->
  SrcLastModified p1 < ModTime f ->
  os_Open E (build.PkgObj (Package p)) = None ->
  Data f = gcexporter_Write E exported ++ payload ->
  dec_result (types_GcImportData E (typesPackages w1)
                (build.PkgObj (Package p)) (build.ImportPath (Package p))
                (Data f)) = inr typesPkg ->
  length (exportData E exported)
  ≤ dec_offset (types_GcImportData E (typesPackages w1)
                  (build.PkgObj (Package p)) (build.ImportPath (Package p))
                  (Data f)) ->
  sentinelFree payload -> payload ≠ [] ->
  ∃ w', buildPackage E (S fuel) l true w = (Done tt, w')
    ∧ trace w' = trace w1
    ∧ (∀ new, trace w' = trace w ++ new -> l ∉ omap translatedBy new)
    ∧ (JavaScriptCode <$> pkgAt l w') = Some payload
    ∧ typesPackages w' !! build.ImportPath (Package p) = Some typesPkg
    ∧ files w' = files w1.
Proof.
  intros Hp Hns Hlib Hfresh Hp1 Hfile Hnew Hopen Hdata Hdec Hoff Hfree Hne.
  set (d := types_GcImportData _ _ _ _ _) in *.
  exists (setJavaScriptCode l payload
            (setTypesPackages
               (<[build.ImportPath (Package p) := typesPkg]> (dec_registry d))
               w1)).
  assert (pkgAt l (log (EvBuild l true) w) = Some p) as Hp0 by (by destruct l).
  split_and!.
  - simpl. unfold buildPackage_body.
    rewrite Hp, decide_False, Hfresh, Hp1 by done.
    unfold upToDate, os_Stat, After. rewrite Hfile.
    rewrite bool_decide_eq_true_2 by done. simpl.
    unfold loadFromDisk. rewrite Hlib, Hopen, Hfile. fold d. rewrite Hdec.
    rewrite Hdata. unfold gcexporter_Write. rewrite <- app_assoc.
    rewrite scanPayload_artifact; [done|done|done|].
    rewrite !length_app in *. lia.
  - by destruct l.
  - intros new Hnew'.
    assert (trace (setJavaScriptCode l payload
              (setTypesPackages
                 (<[build.ImportPath (Package p) := typesPkg]> (dec_registry d))
                 w1)) = trace w1) as Ht by (by destruct l).
    rewrite Ht in Hnew'.
    destruct (freshness_Effect _ _ (buildPackage_Effect E fuel) _ _ _ _ _ Hfresh)
      as [(n1 & Ht1 & _ & Hev & _) _ _ _ _].
    simpl in Ht1. rewrite Ht1, <- app_assoc in Hnew'.
    apply app_inv_head in Hnew' as <-. simpl.
    intros (e & He & Hl)%list_elem_of_omap.
    destruct e as [|l' ip|]; try done. injection Hl as ->.
    destruct (Hev _ He) as [[_ Hk]|Hfr]; [by apply elem_of_nil in Hk|].
    apply fresh_not_present in Hfr. simpl in Hfr. congruence.
  - unfold setJavaScriptCode. rewrite pkgAt_updPkg.
    assert (pkgAt l (setTypesPackages
                       (<[build.ImportPath (Package p) := typesPkg]> (dec_registry d))
                       w1) = Some p1) as -> by (by destruct l).
    done.
  - unfold setJavaScriptCode. rewrite typesPackages_updPkg. simpl.
    by rewrite lookup_insert_eq.
  - unfold setJavaScriptCode. by rewrite files_updPkg.
Qed.

(** C1, as amended.  The bundle assembler asks the cache for each package it
    emits.  When those packages are in the cache, the assembly builds
    nothing and writes nothing: the world it leaves is the world it found.
    They are in the cache because the import walk of [buildPackage] has
    resolved every import before; that walk starts each build with
    [writeToDisk] set, so the artifacts of the dependencies are written
    then, and the artifact of the executable is not the only one. *)
Theorem C1_dependencies_persisted_by_import_walk (E : Env) (fuel : nat) :
  (∀ recur dir typesPkg c w,
     (∀ n, n ∈ descendants typesPkg -> skipped (types.Path n) = false ->
           is_Some (packages w !! types.Path n)) ->
     ∃ c', loadImportsOf E recur dir typesPkg c w = (Done tt, c', w))
  ∧ (∀ l bp w r w' l',
       freshness E (buildPackage E fuel) l bp w = (r, w') ->
       EvBuild l' false ∈ trace w' -> EvBuild l' false ∈ trace w)
  ∧ (∀ l bp w w',
       is_Some (pkgAt l w) ->
       freshness E (buildPackage E fuel) l bp w = (Done tt, w') ->
       ∀ B, B ∈ build.Imports bp -> is_Some (packages w' !! B)).
Proof.
  split_and!.
  - intros recur dir typesPkg c w Hall. by apply loadImportsOf_cached.
  - intros l bp w r w' l' H Hin.
    set (Q := fun e => e ∈ trace w ∨ ∀ l, e ≠ EvBuild l false).
    assert (lenient Q) as HQ by (intros e He; by right).
    assert (Forall Q (trace w')) as Hall.
    { eapply freshness_persist; [|exact H|].
      - intros l1 w1 r1 w1' H1. eapply buildPackage_persist; [done..|].
        by right.
      - apply Forall_forall. intros e He. by left. }
    rewrite Forall_forall in Hall. destruct (Hall _ Hin) as [?|Hne]; [done|].
    by destruct (Hne l').
  - intros l bp w w' [p Hp] H B HB.
    destruct (freshness_self _ _ (buildPackage_Effect E fuel) _ _ _ _ _ _ H Hp)
      as (p' & Hp' & _).
    destruct (freshness_imports _ _ (buildPackage_Effect E fuel) _ _ _ _ _ H
                (mk_is_Some _ _ Hp) Hp' B HB) as (pB & HpB & _).
    by eexists.
Qed.

(** C5, as amended.  The code of an executable is the prelude and a newline,
    then one block for each package the traversal emits, then the package's
    own code, then [main();].  No package (address) has two blocks.  Every
    import of the executable that is not [unsafe], [reflect] or [go/doc] has
    a block, and so has every such import of a package that has a block;
    the traversal does not descend below the three, so a package reached
    only through one of them has none.  On an import tree without cycles
    the block of an import stands before the block of its importer. *)
Theorem C5_bundle_order (E : Env) (fuel : nat) (l : loc) (bp : build.Package)
    (b : bool) (w w' : World) (p : GopherPackage) (packageCode : list byte)
    (reg : gmap string types.Package) (typesPkg : types.Package) :
  pkgAt l w = Some p ->
  build.IsCommand bp = true ->
  translatePackage E (build.ImportPath bp) (build.Dir bp) (build.GoFiles bp)
    (files w) (typesPackages w) = (inr packageCode, reg) ->
  reg !! build.ImportPath bp = Some typesPkg ->
  acyclic typesPkg ->
  translate E (buildPackage E fuel) l bp b w = (Done tt, w') ->
  ∃ blocks,
    (JavaScriptCode <$> pkgAt l w')
    = Some ((prelude E ++ [NL]) ++ concat (map (block E) blocks)
            ++ packageCode ++ bytes "main();")
    ∧ NoDup (addrs (map fst blocks))
    ∧ (∀ c, c ∈ types.Imports typesPkg -> skipped (types.Path c) = false ->
            types.addr c ∈ addrs (map fst blocks))
    ∧ (∀ pre n code post, blocks = pre ++ (n, code) :: post ->
         n ∈ descendants typesPkg ∧ skipped (types.Path n) = false
         ∧ ∀ c, c ∈ types.Imports n -> skipped (types.Path c) = false ->
                types.addr c ∈ addrs (map fst pre)).
Proof.
  intros Hp Hcmd Htr Hreg Hacyc H. unfold translate in H.
  set (w0 := log _ w) in H.
  change (files w0) with (files w) in H.
  change (typesPackages w0) with (typesPackages w) in H.
  rewrite Htr, Hcmd in H. simpl in H. rewrite Hreg in H.
  destruct (loadImportsOf _ _ _ _ _ _) as [[r2 c2] w2] eqn:Hload.
  destruct r2 as [[]| | |]; try done.
  pose proof (loadImportsOf_Quiet _ _ (buildPackage_Effect E fuel) _ _ _ _ _ _ _ Hload)
    as Hq.
  destruct (loadImportsOf_order _ _ _ _ _ _ _ _ Hload) as (blocks & HL & Ho & Hj).
  simpl in HL, Ho, Hj.
  destruct (emitOrder typesPkg ∅) as [L' o] eqn:Hemit. simpl in *.
  destruct (emitOrder_sound _ _ _ _ Hemit) as (-> & Hnd & _ & Hc & Hd).
  assert (importsFirst ∅ o) as Hfirst.
  { eapply (emitOrder_importsFirst _ _ _ _ ∅ ∅); [done|set_solver|set_solver|done]. }
  assert (pkgAt l w2 = Some p) as Hp2.
  { eapply Quiet_pkgAt; [done|]. by destruct l. }
  destruct (store_self _ _ _ _ _ _ _ _ _ H Hp2) as [Hp' _].
  exists blocks. rewrite Ho. split_and!.
  - rewrite Hp', Hj. simpl. f_equal. by rewrite <- !app_assoc.
  - done.
  - intros c Hin Hs. specialize (Hc c Hin Hs). set_solver.
  - intros pre n code post Heq.
    assert (o = map fst pre ++ n :: map fst post) as Ho'
      by (rewrite <- Ho, Heq, map_app; done).
    destruct (Hd n) as [? ?]; [rewrite Ho'; set_solver|].
    split_and!; [done..|].
    intros c Hin Hs.
    destruct (importsFirst_before _ _ Hfirst _ _ _ Ho' c Hin Hs); [set_solver|done].
Qed.

(** * The claims on the small universe *)

Lemma sentinelFreeb_correct code : sentinelFreeb code = true -> sentinelFree code.
Proof.
  unfold sentinelFreeb. rewrite forallb_forall. intros H i.
  destruct (decide (i < length code)) as [Hlt|Hge].
  - specialize (H i). rewrite in_seq in H.
    apply negb_true_iff, bool_decide_eq_false in H; [done|lia].
  - intros Hw%window_sentinel_length. lia.
Qed.

(** C1: [gopherjs run] on the diamond.  The executable is not written, the
    three dependencies are, each built with [writeToDisk] set, and d, the
    dependency of the dependencies, has its block in the bundle. *)
Lemma C1_counterexample :
  fst Demo.diamondRun = Done tt
  ∧ openedPaths (snd Demo.diamondRun) = ["/pkg/d.a"; "/pkg/b.a"; "/pkg/c.a"]
  ∧ EvBuild (LCache "d") true ∈ trace (snd Demo.diamondRun)
  ∧ is_Some (files (snd Demo.diamondRun) !! "/pkg/d.a")
  ∧ files (snd Demo.diamondRun) !! "main.js" = None
  ∧ files Demo.diamondStart !! "/pkg/d.a" = None.
Proof.
  split_and!; try (by vm_compute).
  - vm_compute. set_solver.
  - vm_compute. by eexists.
Qed.

Lemma C1_witness :
  (∃ c', loadImportsOf Demo.diamondEnv (buildPackage Demo.diamondEnv 9) "/app"
           (types.mkPackage 2 "main" ["main"]
              [types.mkPackage 3 "b" ["B"] [Demo.typesD];
               types.mkPackage 4 "c" ["C"] [Demo.typesD]])
           (mkClosure ∅ []) (snd Demo.diamondWalked)
         = (Done tt, c', snd Demo.diamondWalked))
  ∧ ∀ B, B ∈ ["b"; "c"] -> is_Some (packages (snd Demo.diamondWalked) !! B).
Proof.
  split.
  - apply (proj1 (C1_dependencies_persisted_by_import_walk Demo.diamondEnv 9)).
    intros n Hn _. revert n Hn. apply Forall_forall.
    vm_compute. repeat constructor; by eexists.
  - apply (proj2 (proj2 (C1_dependencies_persisted_by_import_walk
                           Demo.diamondEnv 9))
             LRoot (Package (root Demo.diamondStart))
             (log (EvBuild LRoot true) Demo.diamondStart)).
    + by eexists.
    + by vm_compute.
Defined.

Lemma C2_witness :
  (∃ p', pkgAt LRoot (snd Demo.diamondBuild) = Some p'
     ∧ ∀ B, B ∈ ["b"; "c"] ->
         ∃ pB, packages (snd Demo.diamondBuild) !! B = Some pB
               ∧ SrcLastModified pB ≤ SrcLastModified p').
Proof.
  apply (proj1 (C2_freshness_dominates_imports Demo.diamondEnv 9 LRoot true
                  Demo.diamondStart (snd Demo.diamondBuild)
                  (root Demo.diamondStart)
                  ltac:(by vm_compute) eq_refl ltac:(discriminate))).
Defined.

(** C4: the code of d holds ["$$\n"].  The first request translates d and
    writes its artifact; the request of a later run finds the artifact up to
    date, does not translate, and reads back only what follows the last
    sentinel. *)
Lemma C4_counterexample :
  fst (Demo.requestD Demo.dollarEnv Demo.diamondStart) = Done (LCache "d")
  ∧ JavaScriptCode <$> packages (snd (Demo.requestD Demo.dollarEnv Demo.diamondStart)) !! "d"
    = Some Demo.dollarCode
  ∧ Data <$> files (Demo.secondRun Demo.dollarEnv) !! "/pkg/d.a"
    = Some (gcexporter_Write Demo.dollarEnv Demo.typesD ++ Demo.dollarCode)
  ∧ fst (Demo.requestD Demo.dollarEnv (Demo.secondRun Demo.dollarEnv))
    = Done (LCache "d")
  ∧ translated (snd (Demo.requestD Demo.dollarEnv (Demo.secondRun Demo.dollarEnv)))
    = []
  ∧ JavaScriptCode <$> packages (snd (Demo.requestD Demo.dollarEnv (Demo.secondRun Demo.dollarEnv))) !! "d"
    = Some (bytes "*/b();")
  ∧ bytes "*/b();" ≠ Demo.dollarCode.
Proof. split_and!; by vm_compute. Qed.

Lemma C4_witness :
  ∃ w', buildPackage Demo.diamondEnv 5 (LCache "d") true
          (Demo.secondRunD Demo.diamondEnv) = (Done tt, w')
    ∧ JavaScriptCode <$> pkgAt (LCache "d") w' = Some (bytes "/*d*/").
Proof.
  destruct (C4_cache_hit_round_trip Demo.diamondEnv 4 (LCache "d")
              (Demo.secondRunD Demo.diamondEnv)
              (snd (freshness Demo.diamondEnv (buildPackage Demo.diamondEnv 4)
                      (LCache "d") (Package Demo.descriptorD)
                      (log (EvBuild (LCache "d") true)
                         (Demo.secondRunD Demo.diamondEnv))))
              Demo.descriptorD
              (mkGopherPackage (Package Demo.descriptorD) 20 [])
              (mkFile 100 438 (gcexporter_Write Demo.diamondEnv Demo.typesD
                                 ++ bytes "/*d*/"))
              Demo.typesD Demo.typesD (bytes "/*d*/"))
    as (w' & Hrun & _ & _ & Hcode & _).
  - by vm_compute.
  - discriminate.
  - reflexivity.
  - by vm_compute.
  - by vm_compute.
  - by vm_compute.
  - simpl. lia.
  - reflexivity.
  - reflexivity.
  - by vm_compute.
  - vm_compute. lia.
  - apply sentinelFreeb_correct. by vm_compute.
  - discriminate.
  - exists w'. by split.
Defined.

(** C5: main imports reflect, reflect imports strconv.  strconv is below
    main in the import tree and is none of the three names, and the bundle
    holds no block at all. *)
Lemma C5_counterexample :
  let w' := snd (buildPackage Demo.mirroredEnv 10 LRoot true Demo.mirroredStart) in
  fst (buildPackage Demo.mirroredEnv 10 LRoot true Demo.mirroredStart) = Done tt
  ∧ (∃ typesPkg n, typesPackages w' !! "main" = Some typesPkg
       ∧ n ∈ descendants typesPkg ∧ types.Path n = "strconv"
       ∧ skipped (types.Path n) = false)
  ∧ JavaScriptCode (root w')
    = (prelude Demo.mirroredEnv ++ [NL]) ++ bytes "/*main*/" ++ bytes "main();".
Proof.
  intros w'. split_and!; [by vm_compute| |by vm_compute].
  eexists _, (types.mkPackage 4 "strconv" ["Itoa"] []).
  split_and!; [by vm_compute | | done | done].
  vm_compute. set_solver.
Qed.

Lemma C5_witness :
  ∃ blocks,
    JavaScriptCode <$> pkgAt LRoot (snd Demo.diamondBuild)
    = Some ((prelude Demo.diamondEnv ++ [NL])
            ++ concat (map (block Demo.diamondEnv) blocks)
            ++ bytes "/*main*/" ++ bytes "main();")
    ∧ NoDup (addrs (map fst blocks)).
Proof.
  destruct (C5_bundle_order Demo.diamondEnv 9 LRoot
              (Package (root Demo.diamondStart)) true
              (snd Demo.diamondWalked) (snd Demo.diamondBuild)
              (root (snd Demo.diamondWalked)) (bytes "/*main*/")
              (<["main" := types.mkPackage 2 "main" ["main"]
                             [types.mkPackage 3 "b" ["B"] [Demo.typesD];
                              types.mkPackage 4 "c" ["C"] [Demo.typesD]]]>
                 (typesPackages (snd Demo.diamondWalked)))
              (types.mkPackage 2 "main" ["main"]
                 [types.mkPackage 3 "b" ["B"] [Demo.typesD];
                  types.mkPackage 4 "c" ["C"] [Demo.typesD]]))
    as (blocks & Hcode & Hnd & _).
  - reflexivity.
  - reflexivity.
  - by vm_compute.
  - by rewrite lookup_insert_eq.
  - unfold acyclic, acyclicOf. vm_compute. repeat constructor; discriminate.
  - by vm_compute.
  - exists blocks. by split.
Defined.


Lemma C8_witness :
  ∃ new,
    trace (snd (buildPackage Demo.brokenEnv 10 LRoot true Demo.diamondStart))
    = trace Demo.diamondStart ++ new
    ∧ LRoot ∉ omap openedBy new.
Proof.
  destruct (proj1 (C8_failure_leaves_artifact_unopened Demo.brokenEnv)
              10 LRoot true Demo.diamondStart (ErrorList ["d"])
              (snd (buildPackage Demo.brokenEnv 10 LRoot true Demo.diamondStart))
              ltac:(by vm_compute)) as (new & Ht & Hno & _).
  exists new. by split.
Defined.



Lemma C10_witness :
  entryDescriptor (fun _ => inr []) (fun _ => ".") "cmd/a" = Panicked.
Proof.
  apply (proj1 (C10_short_basename_panics (fun _ => inr []) (fun _ => ".")
                  "cmd/a" [] eq_refl)).
  vm_compute. lia.
Defined.

(** * More of the program *)

(** ** A run as a sequence of steps *)

Lemma steps_refl w : steps w w.
Proof. apply rtc_refl. Qed.

Lemma steps_trans w w1 w2 : steps w w1 -> steps w1 w2 -> steps w w2.
Proof. apply rtc_trans. Qed.

Lemma steps_once w w' : step w w' -> steps w w'.
Proof. apply rtc_once. Qed.

Lemma steps_setSrcLastModified l t w : steps w (setSrcLastModified l t w).
Proof. by apply steps_once, step_descriptor. Qed.

Lemma steps_setJavaScriptCode l c w : steps w (setJavaScriptCode l c w).
Proof. by apply steps_once, step_descriptor. Qed.

Lemma steps_bump l t (c : bool) w :
  steps w (if c then setSrcLastModified l t w else w).
Proof. destruct c; [apply steps_setSrcLastModified | apply steps_refl]. Qed.

Section Steps.
Variable E : Env.
Variable recur : loc -> bool -> World -> outcome unit * World.
Hypothesis recur_Effect :
  ∀ l b w r w', recur l b w = (r, w') -> Effect [0; 1; 2] l w w'.
Hypothesis recur_steps :
  ∀ l b w r w', recur l b w = (r, w') -> steps w w'.

Lemma getPackage_steps p d b w r w' :
  getPackage E recur p d b w = (r, w') -> steps w w'.
Proof.
  clear recur_Effect. unfold getPackage. intros H.
  destruct (packages w !! p) eqn:Hc; [simplify_eq; apply steps_refl|].
  destruct (buildContext_Import E (files w) p d);
    [simplify_eq; apply steps_refl|].
  destruct (recur _ _ _) as [r2 w2] eqn:Hr.
  assert (w' = w2) as -> by (destruct r2; by simplify_eq).
  eapply steps_trans; [by apply steps_once, step_cache|].
  by eapply recur_steps.
Qed.

Lemma rangeImports_steps l dir imports : ∀ w r w',
  rangeImports E recur l dir imports w = (r, w') -> steps w w'.
Proof.
  clear recur_Effect.
  induction imports as [|imp rest IH]; intros w r w' H; simpl in H.
  - simplify_eq. apply steps_refl.
  - destruct (getPackage _ _ _ _ _ _) as [r1 w1] eqn:Hg.
    apply getPackage_steps in Hg.
    destruct r1 as [cl| | |]; try (by simplify_eq).
    destruct (pkgAt cl w1) as [compiledPkg|]; [|by simplify_eq].
    destruct (pkgAt l w1) as [pkg|]; [|by simplify_eq].
    apply IH in H. eapply steps_trans; [done|].
    eapply steps_trans; [apply steps_bump|done].
Qed.

Lemma rangeGoFiles_steps l dir names : ∀ w r w',
  rangeGoFiles l dir names w = (r, w') -> steps w w'.
Proof.
  clear recur_Effect recur_steps.
  induction names as [|name rest IH]; intros w r w' H; simpl in H.
  - simplify_eq. apply steps_refl.
  - destruct (os_Stat _ w) as [|fileInfo]; [simplify_eq; apply steps_refl|].
    destruct (pkgAt l w) as [pkg|]; [|simplify_eq; apply steps_refl].
    apply IH in H. eapply steps_trans; [apply steps_bump|done].
Qed.

Lemma freshness_steps l bp w r w' :
  freshness E recur l bp w = (r, w') -> steps w w'.
Proof.
  clear recur_Effect. unfold freshness. intros H.
  destruct (os_Stat _ w) as [|fileInfo]; [simplify_eq; apply steps_refl|].
  destruct (rangeImports _ _ _ _ _ _) as [r1 w1] eqn:H1.
  apply rangeImports_steps in H1.
  eapply steps_trans; [apply steps_setSrcLastModified|].
  destruct r1 as [[]| | |]; try (by simplify_eq).
  apply rangeGoFiles_steps in H. by eapply steps_trans.
Qed.

Lemma loadFromDisk_steps l bp w r w' :
  loadFromDisk E l bp w = (r, w') -> steps w w'.
Proof.
  clear recur_Effect recur_steps. unfold loadFromDisk. intros H.
  repeat case_match; simplify_eq;
    try apply steps_refl; try (apply steps_once, step_registry).
  eapply steps_trans;
    [apply steps_once, step_registry | apply steps_setJavaScriptCode].
Qed.

Lemma rangeTypesImports_steps dir imps :
  Forall (fun tp => ∀ c w r c' w',
            loadImportsOf E recur dir tp c w = (r, c', w') -> steps w w') imps ->
  ∀ c w r c' w',
    rangeTypesImports E recur dir imps c w = (r, c', w') -> steps w w'.
Proof.
  clear recur_Effect.
  induction 1 as [|imp rest Himp _ IH]; intros c w r c' w' H; simpl in H.
  - simplify_eq. apply steps_refl.
  - destruct (skipped _); [by eapply IH|].
    destruct (decide _); [by eapply IH|].
    destruct (loadImportsOf _ _ _ _ _ _) as [[r1 c2] w2] eqn:H1.
    apply Himp in H1.
    destruct r1 as [[]| | |]; try (by simplify_eq).
    destruct (getPackage _ _ _ _ _ _) as [r2 w3] eqn:H2.
    apply getPackage_steps in H2.
    assert (steps w w3) by (by eapply steps_trans).
    destruct r2 as [gl| | |]; try (by simplify_eq).
    destruct (pkgAt gl w3); [|by simplify_eq].
    apply IH in H. by eapply steps_trans.
Qed.

Lemma loadImportsOf_steps dir tp : ∀ c w r c' w',
  loadImportsOf E recur dir tp c w = (r, c', w') -> steps w w'.
Proof.
  clear recur_Effect.
  induction tp as [a p ns imps IH] using types_Package_ind.
  intros c w r c' w'. rewrite loadImportsOf_eq. simpl.
  by apply rangeTypesImports_steps.
Qed.

(** [store] opens the artifact of the descriptor it works for. *)
Lemma store_steps l bp b code w r w' p :
  pkgAt l w = Some p -> Package p = bp ->
  store E l bp b code w = (r, w') -> steps w w'.
Proof.
  clear recur_Effect recur_steps. unfold store. intros Hp Hbp H.
  pose proof (pkgAt_setJavaScriptCode l code w p Hp) as Hp1.
  pose proof (steps_setJavaScriptCode l code w) as H0.
  destruct (negb b); [by simplify_eq|].
  destruct (os_MkdirAll _ _); [by simplify_eq|].
  destruct (os_OpenFile _ _); [by simplify_eq|].
  set (w1 := setJavaScriptCode l code w) in *.
  set (path := build.PkgObj bp) in *.
  set (perm := if build.IsCommand bp then 511 else 438) in *.
  assert (steps w (createTruncate path perm (log (EvOpenFile l path) w1)))
    as H2.
  { eapply steps_trans; [exact H0|]. apply steps_once.
    pose proof (step_open l _ perm w1 Hp1) as Hs. simpl in Hs.
    by rewrite Hbp in Hs. }
  set (w2 := createTruncate _ _ _) in *.
  assert (∀ w3 d, sameButFile path (log (EvOpenFile l path) w1) w3 ->
            steps w w3 ->
            sameButFile path (log (EvOpenFile l path) w1) (file_Write path d w3)
            ∧ steps w (file_Write path d w3)) as Hw.
  { intros w3 d Hsame Hst. split.
    - eapply sameButFile_trans; [done|apply sameButFile_file_Write].
    - eapply steps_trans; [done|]. apply steps_once, (step_write l).
      destruct Hsame as (_ & _ & _ & _ & -> & _). simpl. set_solver. }
  pose proof (sameButFile_createTruncate path perm
                (log (EvOpenFile l path) w1)) as Hs2.
  fold w2 in Hs2. cbv zeta in H.
  assert (sameButFile path (log (EvOpenFile l path) w1)
            (if build.IsCommand bp
             then file_Write path (bytes "#!/usr/bin/env node" ++ [NL]) w2
             else w2)
          ∧ steps w (if build.IsCommand bp
                     then file_Write path (bytes "#!/usr/bin/env node" ++ [NL]) w2
                     else w2)) as [Hs3 H3].
  { destruct (build.IsCommand bp); [by apply Hw | done]. }
  set (w3 := if build.IsCommand bp then _ else w2) in *.
  repeat case_match; simplify_eq; try done;
    repeat (first [ apply Hw | done ]).
Qed.

Lemma translate_steps l bp b w r w' p :
  pkgAt l w = Some p -> Package p = bp ->
  translate E recur l bp b w = (r, w') -> steps w w'.
Proof.
  unfold translate. intros Hp Hbp H.
  set (w0 := log _ w) in H.
  assert (steps w w0) as H0 by apply steps_once, step_translate.
  assert (pkgAt l w0 = Some p) as Hp0 by (by destruct l).
  destruct (translatePackage _ _ _ _ _ _) as [[err|packageCode] reg].
  { simplify_eq. eapply steps_trans; [done|]. apply steps_once, step_registry. }
  set (w1 := setTypesPackages reg w0) in H.
  assert (steps w w1) as H1
    by (eapply steps_trans; [done|]; apply steps_once, step_registry).
  assert (pkgAt l w1 = Some p) as Hp1 by (by destruct l).
  destruct (build.IsCommand bp); [|eapply steps_trans; [done|]; by eapply store_steps].
  destruct (typesPackages w1 !! _) as [typesPkg|]; [|by simplify_eq].
  destruct (loadImportsOf _ _ _ _ _ _) as [[r2 c2] w2] eqn:Hload.
  pose proof (loadImportsOf_Quiet _ _ recur_Effect _ _ _ _ _ _ _ Hload) as Hq.
  apply loadImportsOf_steps in Hload.
  assert (steps w w2) by (by eapply steps_trans).
  destruct r2 as [[]| | |]; try (by simplify_eq).
  eapply steps_trans; [done|]. eapply store_steps; [|done|done].
  by eapply Quiet_pkgAt.
Qed.

Lemma buildPackage_body_steps l b w r w' :
  buildPackage_body E recur l b w = (r, w') -> steps w w'.
Proof.
  unfold buildPackage_body. intros H.
  destruct (pkgAt l w) as [pkg|] eqn:Hl; [|simplify_eq; apply steps_refl].
  set (w0 := log _ w) in H.
  assert (steps w w0) as H0 by apply steps_once, step_build.
  assert (pkgAt l w0 = Some pkg) as Hl0 by (by destruct l).
  destruct (decide _).
  { simplify_eq. eapply steps_trans; [done|]. apply steps_once, step_registry. }
  destruct (freshness _ _ _ _ _) as [r1 w1] eqn:Hf.
  destruct (freshness_self _ _ recur_Effect _ _ _ _ _ _ Hf Hl0)
    as (p1 & Hp1 & Hk1 & _).
  apply freshness_steps in Hf.
  assert (steps w w1) by (by eapply steps_trans).
  destruct r1 as [[]| | |]; try (by simplify_eq).
  rewrite Hp1 in H.
  destruct (upToDate _ _ _ _).
  - apply loadFromDisk_steps in H. by eapply steps_trans.
  - eapply steps_trans; [done|]. by eapply translate_steps.
Qed.
End Steps.

Lemma buildPackage_steps E fuel : ∀ l b w r w',
  buildPackage E fuel l b w = (r, w') -> steps w w'.
Proof.
  induction fuel as [|fuel IH]; intros l b w r w' H; simpl in H.
  - simplify_eq. apply steps_refl.
  - eapply buildPackage_body_steps; [apply buildPackage_Effect|exact IH|done].
Qed.

(** *** What the steps keep *)

Lemma step_now w w' : step w w' -> now w' = now w.
Proof.
  destruct 1; try done; [by destruct l|].
  unfold file_Write. by destruct (files w !! path).
Qed.

Lemma steps_now w w' : steps w w' -> now w' = now w.
Proof.
  induction 1 as [|w w1 w2 H _ IH]; [done|]. by rewrite IH, (step_now _ _ H).
Qed.

(** A descriptor stays where it is and keeps its [build.Package]. *)
Lemma step_keeps w w' l p :
  step w w' -> pkgAt l w = Some p ->
  ∃ p', pkgAt l w' = Some p' ∧ Package p' = Package p.
Proof.
  intros H Hp. destruct H as [l0 f w Hf|m w|k pkg w Hk|l0 b w|l0 ip w
                             |l0 pkg perm w Hl0|l0 path d w Hin].
  - destruct (decide (l0 = l)) as [->|Hne].
    + rewrite pkgAt_updPkg, Hp. simpl. eauto.
    + rewrite pkgAt_updPkg_ne by done. eauto.
  - exists p. by destruct l.
  - exists p. split; [|done]. destruct l as [|k']; simpl in *; [done|].
    rewrite lookup_insert_ne; [done|]. intros ->. congruence.
  - exists p. by destruct l.
  - exists p. by destruct l.
  - exists p. split; [|done].
    rewrite (sameButFile_pkgAt _ _ _ _ (sameButFile_createTruncate _ _ _)).
    by destruct l.
  - exists p. split; [|done].
    by rewrite (sameButFile_pkgAt _ _ _ _ (sameButFile_file_Write _ _ _)).
Qed.

Lemma steps_keeps w w' l p :
  steps w w' -> pkgAt l w = Some p ->
  ∃ p', pkgAt l w' = Some p' ∧ Package p' = Package p.
Proof.
  intros H. revert p. induction H as [|w w1 w2 H _ IH]; intros p Hp; [eauto|].
  destruct (step_keeps _ _ _ _ H Hp) as (p1 & Hp1 & He1).
  destruct (IH _ Hp1) as (p2 & Hp2 & He2). exists p2. split; congruence.
Qed.

(** The trace grows by at most one event, and an [os.OpenFile] is logged
    with the path of the descriptor's own artifact. *)
Lemma step_trace w w' :
  step w w' ->
  trace w' = trace w
  ∨ ∃ e, trace w' = trace w ++ [e]
      ∧ ∀ l path, e = EvOpenFile l path ->
          ∃ pkg, pkgAt l w' = Some pkg ∧ build.PkgObj (Package pkg) = path.
Proof.
  destruct 1 as [l0 f w Hf|m w|k pkg w Hk|l0 b w|l0 ip w
                |l0 pkg perm w Hl0|l0 path d w Hin].
  - left. apply trace_updPkg.
  - by left.
  - by left.
  - right. eexists. split; [done|]. intros; discriminate.
  - right. eexists. split; [done|]. intros; discriminate.
  - right. eexists. split; [done|]. intros l path [= <- <-]. exists pkg.
    split; [|done].
    rewrite (sameButFile_pkgAt _ _ _ _ (sameButFile_createTruncate _ _ _)).
    by destruct l0.
  - left. by destruct (sameButFile_file_Write path d w) as (_ & _ & _ & _ & -> & _).
Qed.

Lemma steps_opened w w' :
  steps w w' ->
  ∃ new, trace w' = trace w ++ new
    ∧ ∀ l path, EvOpenFile l path ∈ new ->
        ∃ pkg, pkgAt l w' = Some pkg ∧ build.PkgObj (Package pkg) = path.
Proof.
  induction 1 as [w|w w1 w2 H Hrest (new & Ht & Hown)].
  - exists []. rewrite app_nil_r. split; [done|]. intros ?? []%elem_of_nil.
  - destruct (step_trace _ _ H) as [Heq|(e & Heq & He)].
    + exists new. split; [by rewrite Ht, Heq|done].
    + exists (e :: new). split; [by rewrite Ht, Heq, <- app_assoc|].
      intros l path [Hev|Hin]%elem_of_cons; [|by apply Hown].
      destruct (He l path (eq_sym Hev)) as (pkg & Hpkg & Hobj).
      destruct (steps_keeps _ _ _ _ Hrest Hpkg) as (pkg' & Hpkg' & Hk).
      exists pkg'. split; [done|congruence].
Qed.

(** No file is removed; one that existed keeps its mode, and a file that
    differs carries the time of the run. *)
Lemma step_files w w' path f :
  step w w' -> files w !! path = Some f ->
  ∃ f', files w' !! path = Some f' ∧ Perm f' = Perm f
        ∧ (f' = f ∨ ModTime f' = now w).
Proof.
  intros H Hf. destruct H as [l0 g w Hg|m w|k pkg w Hk|l0 b w|l0 ip w
                             |l0 pkg perm w Hl0|l0 path0 d w Hin].
  - exists f. rewrite files_updPkg. auto.
  - exists f. auto.
  - exists f. auto.
  - exists f. auto.
  - exists f. auto.
  - unfold createTruncate. simpl.
    destruct (decide (build.PkgObj (Package pkg) = path)) as [->|Hne].
    + rewrite lookup_insert_eq, Hf. eexists. split; [done|]. simpl. auto.
    + rewrite lookup_insert_ne by done. exists f. auto.
  - unfold file_Write. destruct (files w !! path0) as [f0|] eqn:Hf0;
      [|exists f; auto]. simpl.
    destruct (decide (path0 = path)) as [->|Hne].
    + rewrite lookup_insert_eq. eexists. split; [done|]. simpl.
      split; [congruence|auto].
    + rewrite lookup_insert_ne by done. exists f. auto.
Qed.

Lemma steps_files w w' path f :
  steps w w' -> files w !! path = Some f ->
  ∃ f', files w' !! path = Some f' ∧ Perm f' = Perm f
        ∧ (f' = f ∨ ModTime f' = now w).
Proof.
  intros H. revert f. induction H as [|w w1 w2 H Hrest IH]; intros f Hf.
  - exists f. auto.
  - destruct (step_files _ _ _ _ H Hf) as (f1 & Hf1 & Hp1 & Hm1).
    destruct (IH _ Hf1) as (f2 & Hf2 & Hp2 & Hm2).
    exists f2. split_and!; [done|congruence|].
    rewrite (step_now _ _ H) in Hm2.
    destruct Hm2 as [->|?]; [|by right]. done.
Qed.

(** A file that is there at the end and was not at the start was written
    during the run. *)
Lemma step_files_new w w' path :
  step w w' ->
  files w' !! path = files w !! path
  ∨ ∃ f', files w' !! path = Some f' ∧ ModTime f' = now w.
Proof.
  destruct 1 as [l0 g w Hg|m w|k pkg w Hk|l0 b w|l0 ip w
                |l0 pkg perm w Hl0|l0 path0 d w Hin]; try (by left).
  - left. by rewrite files_updPkg.
  - unfold createTruncate. simpl.
    destruct (decide (build.PkgObj (Package pkg) = path)) as [->|Hne].
    + right. rewrite lookup_insert_eq. eauto.
    + left. by rewrite lookup_insert_ne.
  - unfold file_Write. destruct (files w !! path0) as [f0|] eqn:Hf0; [|by left].
    simpl. destruct (decide (path0 = path)) as [->|Hne].
    + right. rewrite lookup_insert_eq. eauto.
    + left. by rewrite lookup_insert_ne.
Qed.

Lemma steps_files_new w w' path :
  steps w w' ->
  files w' !! path = files w !! path
  ∨ ∃ f', files w' !! path = Some f' ∧ ModTime f' = now w.
Proof.
  induction 1 as [|w w1 w2 H Hrest IH]; [by left|].
  rewrite (step_now _ _ H) in IH.
  destruct IH as [IH|IH]; [|by right]. rewrite IH.
  apply (step_files_new _ _ _ H).
Qed.

(** ** Where the freshness timestamp comes from *)

Section Attained.
Variable E : Env.
Variable recur : loc -> bool -> World -> outcome unit * World.
Hypothesis recur_Effect :
  ∀ l b w r w', recur l b w = (r, w') -> Effect [0; 1; 2] l w w'.

Lemma rangeImports_attained l dir imports : ∀ w w' p p',
  rangeImports E recur l dir imports w = (Done tt, w') ->
  pkgAt l w = Some p -> pkgAt l w' = Some p' ->
  SrcLastModified p' = SrcLastModified p
  ∨ ∃ B pB, B ∈ imports ∧ packages w' !! B = Some pB
            ∧ SrcLastModified pB = SrcLastModified p'.
Proof.
  induction imports as [|imp rest IH]; intros w w' p p' H Hp Hp'; simpl in H.
  - left. congruence.
  - destruct (getPackage _ _ _ _ _ _) as [r1 w1] eqn:Hg.
    destruct r1 as [cl| | |]; try done.
    destruct (getPackage_Done _ _ recur_Effect _ _ _ _ _ _ Hg) as [-> _].
    pose proof (Quiet_pkgAt _ _ _ _
                  (getPackage_Quiet _ _ recur_Effect _ _ _ _ _ _ Hg) Hp) as Hp1.
    rewrite Hp1 in H.
    destruct (pkgAt (LCache imp) w1) as [compiledPkg|] eqn:Hc; [|done].
    unfold After in H. case_bool_decide as Hafter.
    + pose proof (pkgAt_setSrcLastModified l (SrcLastModified compiledPkg)
                    w1 p Hp1) as Hp2.
      assert (LCache imp ≠ l) as Hne.
      { intros <-. rewrite Hc in Hp1. injection Hp1 as ->. lia. }
      destruct (IH _ _ _ _ H Hp2 Hp') as [Heq|(B & pB & HB & HpB & Hts)].
      * right. exists imp, compiledPkg. split_and!; [set_solver| |done].
        rewrite (eff_frame _ _ _ _
                   (rangeImports_Effect _ _ recur_Effect _ _ _ _ _ _ H)).
        -- change (pkgAt (LCache imp)
                     (setSrcLastModified l (SrcLastModified compiledPkg) w1)
                   = Some compiledPkg).
           unfold setSrcLastModified. by rewrite pkgAt_updPkg_ne by congruence.
        -- change (is_Some (pkgAt (LCache imp)
                     (setSrcLastModified l (SrcLastModified compiledPkg) w1))).
           unfold setSrcLastModified. rewrite pkgAt_updPkg_ne by congruence.
           by eexists.
        -- done.
      * right. exists B, pB. split_and!; [set_solver|done..].
    + destruct (IH _ _ _ _ H Hp1 Hp') as [Heq|(B & pB & HB & HpB & Hts)].
      * by left.
      * right. exists B, pB. split_and!; [set_solver|done..].
Qed.

Lemma rangeGoFiles_attained l dir names : ∀ w w' p p',
  rangeGoFiles l dir names w = (Done tt, w') ->
  pkgAt l w = Some p -> pkgAt l w' = Some p' ->
  SrcLastModified p' = SrcLastModified p
  ∨ ∃ name f, name ∈ names ∧ files w !! (dir +:+ "/" +:+ name) = Some f
              ∧ ModTime f = SrcLastModified p'.
Proof.
  clear recur_Effect.
  induction names as [|name0 rest IH]; intros w w' p p' H Hp Hp'; simpl in H.
  - left. congruence.
  - unfold os_Stat in H.
    destruct (files w !! _) as [fileInfo|] eqn:Hf; [|done].
    rewrite Hp in H. unfold After in H. case_bool_decide as Hafter.
    + pose proof (pkgAt_setSrcLastModified l (ModTime fileInfo) w p Hp) as Hp2.
      destruct (IH _ _ _ _ H Hp2 Hp') as [Heq|(name & f & Hin & Hfile & Hts)].
      * right. exists name0, fileInfo. split_and!; [set_solver|done|done].
      * right. exists name, f. split_and!; [set_solver| |done].
        unfold setSrcLastModified in Hfile. by rewrite files_updPkg in Hfile.
    + destruct (IH _ _ _ _ H Hp Hp') as [Heq|(name & f & Hin & Hfile & Hts)].
      * by left.
      * right. exists name, f. split_and!; [set_solver|done..].
Qed.

Lemma freshness_attained l bp w w' p' :
  freshness E recur l bp w = (Done tt, w') -> is_Some (pkgAt l w) ->
  pkgAt l w' = Some p' ->
  ∃ self, files w !! os_Args0 E = Some self
    ∧ ModTime self ≤ SrcLastModified p'
    ∧ (SrcLastModified p' = ModTime self
       ∨ (∃ B pB, B ∈ build.Imports bp ∧ packages w' !! B = Some pB
                  ∧ SrcLastModified pB = SrcLastModified p')
       ∨ (∃ name f, name ∈ build.GoFiles bp
                    ∧ files w' !! (build.Dir bp +:+ "/" +:+ name) = Some f
                    ∧ ModTime f = SrcLastModified p')).
Proof.
  unfold freshness, os_Stat. intros H [p Hp] Hp'.
  destruct (files w !! os_Args0 E) as [fileInfo|] eqn:Hself; [|done].
  pose proof (pkgAt_setSrcLastModified l (ModTime fileInfo) w p Hp) as Hp0.
  destruct (rangeImports _ _ _ _ _ _) as [r1 w1] eqn:H1.
  destruct (rangeImports_self E recur recur_Effect _ _ _ _ _ _ _ H1 Hp0)
    as (p1 & Hp1 & _ & _ & Hle1).
  destruct r1 as [[]| | |]; try done.
  destruct (rangeGoFiles_self _ _ _ _ _ _ _ H Hp1)
    as (p2 & Hp2 & _ & _ & Hle2).
  assert (p2 = p') as -> by congruence. simpl in *.
  exists fileInfo. split_and!; [done|lia|].
  destruct (rangeGoFiles_attained _ _ _ _ _ _ _ H Hp1 Hp')
    as [Heq|(name & f & Hin & Hfile & Hts)].
  - destruct (rangeImports_attained _ _ _ _ _ _ _ H1 Hp0 Hp1)
      as [Heq1|(B & pB & HB & HpB & Hts)].
    + left. simpl in *. congruence.
    + right. left. destruct (decide (LCache B = l)) as [<-|Hne].
      * exists B, p'. by split_and!.
      * exists B, pB. split_and!; [done| |congruence].
        assert (Effect [] l w1 w') as Hfr
          by (by eapply (rangeGoFiles_Effect recur recur_Effect)).
        rewrite (eff_frame _ _ _ _ Hfr); [done | by eexists | done].
  - right. right. exists name, f. split_and!; [done| |done].
    by rewrite (rangeGoFiles_files _ _ _ _ _ _ H).
Qed.
End Attained.

(** ** A build that does not write to disk *)

Lemma upToDate_false bp t w : upToDate bp t false w = false.
Proof. unfold upToDate. destruct (os_Stat _ w); [done|]. apply andb_false_r. Qed.

Section Unwritten.
Variable E : Env.
Variable recur : loc -> bool -> World -> outcome unit * World.
Hypothesis recur_Effect :
  ∀ l b w r w', recur l b w = (r, w') -> Effect [0; 1; 2] l w w'.

Lemma translate_Effect_false l bp w r w' :
  is_Some (pkgAt l w) ->
  translate E recur l bp false w = (r, w') -> Effect [1] l w w'.
Proof.
  unfold translate. intros Hl H.
  set (w0 := log _ w) in H.
  assert (Effect [1] l w w0) as H0 by apply Effect_log_translate.
  assert (∀ w2, Quiet w0 w2 -> Effect [1] l w w2) as Hq
    by (intros w2 H2; by eapply Effect_Quiet_r).
  destruct (translatePackage _ _ _ _ _ _) as [[err|packageCode] reg].
  { simplify_eq. apply Hq, Quiet_setTypesPackages. }
  set (w1 := setTypesPackages reg w0) in H.
  assert (Quiet w0 w1) as H1 by apply Quiet_setTypesPackages.
  assert (∀ w2 code, Quiet w1 w2 -> store E l bp false code w2 = (r, w') ->
                      Effect [1] l w w') as Hstore.
  { intros w2 code H2 Hs. unfold store in Hs. simpl in Hs.
    injection Hs as <- <-. change [1] with ([1] ++ []).
    eapply Effect_trans; [by right | set_solver | |by apply Effect_updPkg].
    apply Hq. by eapply Quiet_trans. }
  destruct (build.IsCommand bp); [|by eapply Hstore; [apply Quiet_refl|]].
  destruct (typesPackages w1 !! _) as [typesPkg|];
    [|injection H as <- <-; by apply Hq].
  destruct (loadImportsOf _ _ _ _ _ _) as [[r2 c2] w2] eqn:Hload.
  apply (loadImportsOf_Quiet E recur recur_Effect) in Hload.
  destruct r2 as [[]| | |];
    try (simplify_eq; apply Hq; by eapply Quiet_trans).
  by eapply Hstore.
Qed.

Lemma buildPackage_body_Effect_false l w r w' :
  buildPackage_body E recur l false w = (r, w') -> Effect [0; 1] l w w'.
Proof.
  unfold buildPackage_body. intros H.
  destruct (pkgAt l w) as [pkg|] eqn:Hl; [|simplify_eq; apply Effect_refl].
  set (w0 := log _ w) in H.
  assert (Effect [0] l w w0) as H0 by apply Effect_log_build.
  assert (pkgAt l w0 = Some pkg) as Hl0 by (by destruct l).
  assert (∀ A w1, Effect A l w0 w1 -> A ## [0] ->
                  Effect (0 :: A) l w w1) as Hseq.
  { intros A w1 H1 Hd. change (0 :: A) with ([0] ++ A).
    eapply Effect_trans; [right; by eexists | set_solver | done | done]. }
  assert (∀ w1, Effect [] l w0 w1 -> Effect [0; 1] l w w1) as Hnil.
  { intros w1 H1. eapply (Effect_weaken [0]); [set_solver|].
    apply (Hseq []); [done | set_solver]. }
  destruct (decide _).
  { simplify_eq. apply Hnil, Quiet_setTypesPackages. }
  destruct (freshness _ _ _ _ _) as [r1 w1] eqn:Hf.
  apply (freshness_Effect E recur recur_Effect) in Hf.
  destruct r1 as [[]| | |]; try (simplify_eq; by apply Hnil).
  destruct (pkgAt l w1) as [pkg1|] eqn:Hl1; [|simplify_eq; by apply Hnil].
  rewrite upToDate_false in H.
  apply translate_Effect_false in H; [|by eexists].
  apply Hseq; [|set_solver].
  change [1] with ([] ++ [1]).
  eapply Effect_trans; [right; by eexists | set_solver | done | done].
Qed.
End Unwritten.

(** ** The ways through [buildPackage] *)

Section Ways.
Variable E : Env.
Variable recur : loc -> bool -> World -> outcome unit * World.
Hypothesis recur_Effect :
  ∀ l b w r w', recur l b w = (r, w') -> Effect [0; 1; 2] l w w'.

(** After the [unsafe] test: the timestamps, then the artifact or the
    translation. *)
Lemma buildPackage_body_ways l b w r w' p :
  buildPackage_body E recur l b w = (r, w') -> pkgAt l w = Some p ->
  build.ImportPath (Package p) ≠ "unsafe" ->
  ∃ r1 w1,
    freshness E recur l (Package p) (log (EvBuild l b) w) = (r1, w1)
    ∧ ((r1 ≠ Done tt ∧ r = r1 ∧ w' = w1)
       ∨ (r1 = Done tt
          ∧ ∃ p1, pkgAt l w1 = Some p1 ∧ Package p1 = Package p
              ∧ JavaScriptCode p1 = JavaScriptCode p
              ∧ if upToDate (Package p) (SrcLastModified p1) b w1
                then loadFromDisk E l (Package p) w1 = (r, w')
                else translate E recur l (Package p) b w1 = (r, w'))).
Proof.
  unfold buildPackage_body. intros H Hp Hns. rewrite Hp in H.
  assert (pkgAt l (log (EvBuild l b) w) = Some p) as Hp0 by (by destruct l).
  rewrite decide_False in H by done.
  destruct (freshness _ _ _ _ _) as [r1 w1] eqn:Hf.
  destruct (freshness_self E recur recur_Effect _ _ _ _ _ _ Hf Hp0)
    as (p1 & Hp1 & Hk1 & Hj1).
  exists r1, w1. split; [done|].
  destruct r1 as [[]| | |]; try (left; by simplify_eq).
  right. split; [done|]. exists p1. rewrite Hp1 in H.
  split_and!; [done..|]. by destruct (upToDate _ _ _ _).
Qed.

(** A translated command holds the prelude, the blocks of its imports,
    its own code and the call of main. *)
Lemma translate_command_code l bp b w w' p :
  translate E recur l bp b w = (Done tt, w') ->
  build.IsCommand bp = true -> pkgAt l w = Some p ->
  ∃ blocks packageCode reg,
    translatePackage E (build.ImportPath bp) (build.Dir bp)
      (build.GoFiles bp) (files w) (typesPackages w) = (inr packageCode, reg)
    ∧ pkgAt l w'
      = Some (mkGopherPackage (Package p) (SrcLastModified p)
                ((prelude E ++ [NL]) ++ concat (map (block E) blocks)
                 ++ packageCode ++ bytes "main();")).
Proof.
  unfold translate. intros H Hcmd Hp. rewrite Hcmd in H.
  set (w0 := log _ w) in H.
  assert (pkgAt l w0 = Some p) as Hp0 by (by destruct l).
  change (files w0) with (files w) in H.
  change (typesPackages w0) with (typesPackages w) in H.
  destruct (translatePackage _ _ _ _ _ _) as [[err|packageCode] reg]; [done|].
  set (w1 := setTypesPackages reg w0) in H.
  assert (pkgAt l w1 = Some p) as Hp1 by (by destruct l).
  destruct (typesPackages w1 !! _) as [typesPkg|]; [|done].
  destruct (loadImportsOf _ _ _ _ _ _) as [[r2 c2] w2] eqn:Hload.
  destruct r2 as [[]| | |]; try done.
  pose proof (Quiet_pkgAt _ _ _ _
                (loadImportsOf_Quiet E recur recur_Effect _ _ _ _ _ _ _ Hload)
                Hp1) as Hp2.
  destruct (loadImportsOf_order _ _ _ _ _ _ _ _ Hload) as (blocks & _ & _ & Hjs).
  destruct (store_self _ _ _ _ _ _ _ _ _ H Hp2) as [Hp' _].
  exists blocks, packageCode, reg. split; [done|].
  rewrite Hp', Hjs. simpl. by rewrite <- !app_assoc.
Qed.
End Ways.

(** ** Strings and paths *)

Lemma string_app_cons (x : ascii) (a b : string) :
  String x a +:+ b = String x (a +:+ b).
Proof. reflexivity. Qed.

Lemma string_app_nil (b : string) : "" +:+ b = b.
Proof. reflexivity. Qed.

Lemma string_app_assoc (a b c : string) : (a +:+ b) +:+ c = a +:+ (b +:+ c).
Proof.
  induction a as [|x a IH]; [done|]. rewrite !string_app_cons. by f_equal.
Qed.

Lemma string_length_app (a b : string) :
  String.length (a +:+ b) = String.length a + String.length b.
Proof.
  induction a as [|x a IH]; [done|]. rewrite string_app_cons. simpl. by f_equal.
Qed.

Lemma list_ascii_of_string_app (a b : string) :
  list_ascii_of_string (a +:+ b)
  = list_ascii_of_string a ++ list_ascii_of_string b.
Proof.
  induction a as [|x a IH]; [done|]. rewrite string_app_cons. simpl. by f_equal.
Qed.

Lemma substring_0_app (a b : string) :
  String.substring 0 (String.length a) (a +:+ b) = a.
Proof.
  induction a as [|x a IH]; [by destruct b|].
  rewrite string_app_cons. simpl. by f_equal.
Qed.

(** A path that does not end in a slash has no trailing slashes to lose. *)
Lemma stripTrailingSlashes_id (a : string) (c : ascii) :
  c ≠ SLASH ->
  stripTrailingSlashes (a +:+ String c "") = a +:+ String c "".
Proof.
  intros Hc. induction a as [|x a IH].
  - rewrite string_app_nil. simpl. by rewrite decide_False.
  - rewrite string_app_cons. simpl. rewrite IH.
    destruct a; [by rewrite string_app_nil | by rewrite string_app_cons].
Qed.

(** After the last slash of [dir/name] comes [name]. *)
Lemma afterLastSlash_join (dir name : string) :
  SLASH ∉ list_ascii_of_string name ->
  afterLastSlash (dir +:+ "/" +:+ name) = name.
Proof.
  intros Hname. induction dir as [|x dir IH].
  - rewrite string_app_nil, string_app_cons, string_app_nil. simpl.
    by rewrite decide_False.
  - rewrite string_app_cons. simpl. rewrite decide_True; [done|].
    rewrite list_ascii_of_string_app, string_app_cons. simpl. set_solver.
Qed.

Lemma afterLastSlash_plain (name : string) :
  SLASH ∉ list_ascii_of_string name -> afterLastSlash name = name.
Proof.
  intros Hname. destruct name as [|x name]; simpl; [done|].
  simpl in Hname. rewrite decide_False by set_solver.
  rewrite decide_False; [done|]. set_solver.
Qed.

(** [path.Base] of a file in a directory, and of a bare file name. *)
Lemma path_Base_join (dir name : string) (c : ascii) :
  SLASH ∉ list_ascii_of_string (name +:+ String c "") ->
  path_Base (dir +:+ "/" +:+ name +:+ String c "") = name +:+ String c "".
Proof.
  intros Hname. unfold path_Base.
  assert (c ≠ SLASH) as Hc.
  { intros ->. apply Hname. rewrite list_ascii_of_string_app. simpl. set_solver. }
  rewrite decide_False by (by destruct dir).
  replace (dir +:+ "/" +:+ name +:+ String c "")
    with ((dir +:+ "/" +:+ name) +:+ String c "")
    by (by rewrite !string_app_assoc).
  rewrite stripTrailingSlashes_id by done.
  replace ((dir +:+ "/" +:+ name) +:+ String c "")
    with (dir +:+ "/" +:+ (name +:+ String c ""))
    by (by rewrite !string_app_assoc).
  rewrite afterLastSlash_join by done.
  rewrite decide_False; [done|]. by destruct name.
Qed.

Lemma path_Base_plain (name : string) (c : ascii) :
  SLASH ∉ list_ascii_of_string (name +:+ String c "") ->
  path_Base (name +:+ String c "") = name +:+ String c "".
Proof.
  intros Hname. unfold path_Base.
  assert (c ≠ SLASH) as Hc.
  { intros ->. apply Hname. rewrite list_ascii_of_string_app. simpl. set_solver. }
  rewrite decide_False by (by destruct name).
  rewrite stripTrailingSlashes_id by done.
  rewrite afterLastSlash_plain by done.
  rewrite decide_False; [done|]. by destruct name.
Qed.

(** The last three bytes go, whatever they are. *)
Lemma artifactName_stem (stem ext : string) :
  String.length ext = 3 -> artifactName (stem +:+ ext) = Some (stem +:+ ".js").
Proof.
  intros Hext. unfold artifactName, slice_to.
  rewrite string_length_app, Hext.
  rewrite decide_True by lia.
  replace (Z.to_nat (Z.of_nat (String.length stem + 3) - 3))
    with (String.length stem) by lia.
  by rewrite substring_0_app.
Qed.

(** ** The callback that reports type errors *)

Lemma reportErrors_head previousErr errs x out :
  reportErrors previousErr errs = x :: out ->
  x ≠ previousErr ∧ ∃ rest, out = reportErrors x rest.
Proof.
  revert previousErr. induction errs as [|err rest IH]; intros prev H;
    simpl in H; [done|].
  destruct (decide (err ≠ prev)) as [Hne|Heq]; simpl in H.
  - injection H as <- <-. eauto.
  - apply dec_stable in Heq. subst. by apply IH.
Qed.

(** ** The scan of an artifact *)

(** The loop never fails and never runs on: it ends on a sentinel or at the
    start of the file. *)
Lemma scanPayload_total d pos :
  pos ≤ length d ->
  scanPayload d pos = NoPayload ∨ ∃ code, scanPayload d pos = Payload code.
Proof.
  intros Hpos. rewrite scanPayload_spec by done.
  destruct (scanStart d pos) as [k|]; [|by left].
  destruct (lastSentinel d k); [right; by eexists | by left].
Qed.

(** An artifact without code, read from its end: the scan first looks four
    bytes before the end, so it passes over the sentinel that closes the
    file and stops at the one before. *)
Lemma scanPayload_nested a b pos :
  sentinelFree b ->
  length (a ++ sentinel ++ b ++ sentinel) < pos + 3 ->
  pos ≤ length (a ++ sentinel ++ b ++ sentinel) ->
  scanPayload (a ++ sentinel ++ b ++ sentinel) pos = Payload (b ++ sentinel).
Proof.
  intros Hfree Hend Hpos. rewrite scanPayload_spec by done.
  set (d := a ++ sentinel ++ b ++ sentinel) in *.
  assert (length d = length a + 3 + length b + 3) as Hlen.
  { unfold d. rewrite !length_app. change (length sentinel) with 3. lia. }
  unfold scanStart. rewrite decide_False by lia. rewrite decide_True by lia.
  assert (lastSentinel d (length d - 4) = Some (length a)) as ->.
  { apply lastSentinel_hit; [lia| |].
    - unfold d. replace (length a) with (length a + 0) by lia.
      by rewrite window_app_r.
    - intros j Hj. unfold d.
      replace j with (length a + (j - length a)) by lia.
      rewrite window_app_r.
      destruct (j - length a) as [|[|[|m]]] eqn:Hm; [lia | | |].
      + unfold window, sentinel, NL. simpl.
        destruct b; simpl; congruence.
      + unfold window, sentinel, NL. simpl.
        destruct b as [|? [|? ?]]; simpl; congruence.
      + replace (S (S (S m))) with (length sentinel + m) by done.
        rewrite window_app_r.
        assert (m < length b) as Hm' by lia.
        pose proof (lastSentinel_blob b [] m Hfree Hm') as Hnone.
        rewrite app_nil_r in Hnone.
        by apply (lastSentinel_None _ _ Hnone m). }
  f_equal. unfold d. by rewrite drop_app_add.
Qed.

(** ** The artifact [store] leaves *)




(** ** The entry request of [build] and [run] *)

Section Entry.
Variable E : Env.
Variable recur : loc -> bool -> World -> outcome unit * World.
Hypothesis recur_Effect :
  ∀ l b w r w', recur l b w = (r, w') -> Effect [0; 1; 2] l w w'.

(** What a translated command leaves on disk when it is written. *)
Lemma translate_command_artifact l bp w w' p :
  translate E recur l bp true w = (Done tt, w') ->
  build.IsCommand bp = true -> pkgAt l w = Some p ->
  ∃ f code, files w' !! build.PkgObj bp = Some f
    ∧ Data f = (bytes "#!/usr/bin/env node" ++ [NL]) ++ code
    ∧ ModTime f = now w
    ∧ (JavaScriptCode <$> pkgAt l w') = Some code.
Proof.
  unfold translate. intros H Hcmd Hp. rewrite Hcmd in H.
  set (w0 := log _ w) in H.
  assert (pkgAt l w0 = Some p) as Hp0 by (by destruct l).
  destruct (translatePackage _ _ _ _ _ _) as [[err|packageCode] reg]; [done|].
  set (w1 := setTypesPackages reg w0) in H.
  assert (pkgAt l w1 = Some p) as Hp1 by (by destruct l).
  destruct (typesPackages w1 !! _) as [typesPkg|]; [|done].
  destruct (loadImportsOf _ _ _ _ _ _) as [[r2 c2] w2] eqn:Hload.
  destruct r2 as [[]| | |]; try done.
  pose proof (loadImportsOf_Quiet E recur recur_Effect _ _ _ _ _ _ _ Hload)
    as Hq.
  pose proof (Quiet_pkgAt _ _ _ _ Hq Hp1) as Hp2.
  destruct (store_artifact _ _ _ _ _ _ _ H Hp2)
    as (f & header & Hf & Hd & Hm & Hh).
  destruct (store_self _ _ _ _ _ _ _ _ _ H Hp2) as [Hp' _].
  rewrite Hcmd in Hh. subst header.
  exists f, (jsCode c2 ++ packageCode ++ bytes "main();").
  split_and!; [done|done| |by rewrite Hp'].
  rewrite Hm. by rewrite (eff_now _ _ _ _ (Hq LRoot)).
Qed.
End Entry.

Lemma dispatch_entry E parser_ParseFile cmd arg fs pkg :
  cmd = "build" ∨ cmd = "run" ->
  dispatch E parser_ParseFile cmd arg fs = Build pkg ->
  build.Name pkg = "main" ∧ build.ImportPath pkg = "main".
Proof.
  intros Hcmd. unfold dispatch.
  rewrite decide_False by (destruct Hcmd as [-> | ->]; discriminate).
  rewrite decide_True by done.
  destruct (parser_ParseFile fs arg); [done|].
  destruct (mapM unquote _); [|done].
  unfold entryDescriptor. destruct (artifactName _); [|done].
  by intros [= <-].
Qed.

Lemma dispatch_Stop E parser_ParseFile cmd arg fs e :
  dispatch E parser_ParseFile cmd arg fs = Stop e ->
  e ≠ Finished ∧ ∀ stdin, e ≠ NodeFed stdin.
Proof.
  unfold dispatch. intros H.
  repeat case_match; simplify_eq; split; intros; discriminate.
Qed.

(** ** Which files a call writes *)

Lemma buildPackage_unwritten E fuel l w r w' :
  buildPackage E fuel l false w = (r, w') ->
  ∃ new, trace w' = trace w ++ new ∧ (l ∉ omap openedBy new)
    ∧ ∀ path, path ∉ omap openedPath new -> files w' !! path = files w !! path.
Proof.
  intros H.
  assert (w' = w ∨ is_Some (pkgAt l w)) as [->|[p Hp]].
  { destruct fuel as [|fuel]; simpl in H; [left; by simplify_eq|].
    unfold buildPackage_body in H.
    destruct (pkgAt l w); [right; by eexists | left; by simplify_eq]. }
  - exists []. rewrite app_nil_r. split_and!; [done| |done]. simpl. set_solver.
  - assert (Effect [0; 1] l w w') as [(new & Ht & _ & Hev & Hf) _ _ _ _].
    { destruct fuel as [|fuel]; simpl in H; [simplify_eq; apply Effect_refl|].
      by eapply (buildPackage_body_Effect_false E _ (buildPackage_Effect E fuel)). }
    exists new. split_and!; [done| |done].
    intros (e' & He' & Hl)%list_elem_of_omap.
    destruct e' as [| |l' path]; try done. injection Hl as ->.
    destruct (Hev _ He') as [[_ Hk]|Hfr]; simpl in *.
    + set_solver.
    + apply fresh_not_present in Hfr. congruence.
Qed.

Lemma buildPackage_written E fuel l b w r w' :
  buildPackage E fuel l b w = (r, w') ->
  ∃ new, trace w' = trace w ++ new
    ∧ (∀ path, path ∉ omap openedPath new -> files w' !! path = files w !! path)
    ∧ ∀ l' path, EvOpenFile l' path ∈ new ->
        ∃ pkg, pkgAt l' w' = Some pkg ∧ build.PkgObj (Package pkg) = path.
Proof.
  intros H.
  pose proof (buildPackage_steps _ _ _ _ _ _ _ H) as Hsteps.
  destruct (steps_opened _ _ Hsteps) as (new & Ht & Hown).
  apply buildPackage_Effect in H as [(new' & Ht' & _ & _ & Hfiles) _ _ _ _].
  assert (new' = new) as -> by (apply (app_inv_head (trace w)); congruence).
  by exists new.
Qed.

(** ** Where the errors come from *)

Lemma abort_Failed {A B} (r : outcome A) (e : error) :
  @abort A B r = Failed e -> r = Failed e.
Proof. destruct r; simpl; congruence. Qed.

Section Origin.
Variable E : Env.
Variable recur : loc -> bool -> World -> outcome unit * World.
Hypothesis recur_reported :
  ∀ l b w e w', recur l b w = (Failed e, w') -> reported E e.

Lemma getPackage_reported p d b w e w' :
  getPackage E recur p d b w = (Failed e, w') -> reported E e.
Proof.
  unfold getPackage. intros H.
  destruct (packages w !! p); [done|].
  destruct (buildContext_Import E (files w) p d) as [err|] eqn:Himp.
  { injection H as <- <-. right. left. eauto. }
  destruct (recur _ _ _) as [r2 w2] eqn:Hr.
  destruct r2 as [[]|e2| |]; try done.
  injection H as <- <-. by eapply recur_reported.
Qed.

Lemma rangeImports_reported l dir imports : ∀ w e w',
  rangeImports E recur l dir imports w = (Failed e, w') -> reported E e.
Proof.
  induction imports as [|imp rest IH]; intros w e w' H; simpl in H; [done|].
  destruct (getPackage _ _ _ _ _ _) as [r1 w1] eqn:Hg.
  destruct r1 as [cl|e1| |]; try done.
  - destruct (pkgAt cl w1); [|done]. destruct (pkgAt l w1); [|done].
    by eapply IH.
  - injection H as <- <-. by eapply getPackage_reported.
Qed.

Lemma rangeGoFiles_reported l dir names : ∀ w e w',
  rangeGoFiles l dir names w = (Failed e, w') -> reported E e.
Proof.
  clear recur_reported.
  induction names as [|name rest IH]; intros w e w' H; simpl in H; [done|].
  unfold os_Stat in H. destruct (files w !! _).
  - destruct (pkgAt l w); [|done]. by eapply IH.
  - injection H as <- <-. left. eauto.
Qed.

Lemma freshness_reported l bp w e w' :
  freshness E recur l bp w = (Failed e, w') -> reported E e.
Proof.
  unfold freshness, os_Stat. intros H.
  destruct (files w !! _); [|injection H as <- <-; left; eauto].
  destruct (rangeImports _ _ _ _ _ _) as [r1 w1] eqn:H1.
  destruct r1 as [[]|e1| |]; try done.
  - by eapply rangeGoFiles_reported.
  - injection H as <- <-. by eapply rangeImports_reported.
Qed.

Lemma loadFromDisk_reported l bp w e w' :
  loadFromDisk E l bp w = (Failed e, w') -> reported E e.
Proof.
  clear recur_reported. unfold loadFromDisk. intros H.
  destruct (build.IsCommand bp); [done|].
  destruct (os_Open E _) as [err|] eqn:Hopen.
  { injection H as <- <-. do 4 right. left. eauto. }
  destruct (files w !! _) as [objFile|];
    [|injection H as <- <-; left; eauto].
  destruct (dec_result _) as [err|typesPkg] eqn:Hdec.
  { injection H as <- <-. do 3 right. left. eauto. }
  destruct (scanPayload_total (Data objFile)
              (dec_offset (types_GcImportData E (typesPackages w)
                             (build.PkgObj bp) (build.ImportPath bp)
                             (Data objFile))
               `min` length (Data objFile))) as [Hs|(code & Hs)]; [lia| |];
    by rewrite Hs in H.
Qed.

Lemma rangeTypesImports_reported dir imps :
  Forall (fun tp => ∀ c w e c' w',
            loadImportsOf E recur dir tp c w = (Failed e, c', w') ->
            reported E e) imps ->
  ∀ c w e c' w',
    rangeTypesImports E recur dir imps c w = (Failed e, c', w') ->
    reported E e.
Proof.
  induction 1 as [|imp rest Himp _ IH]; intros c w e c' w' H; simpl in H;
    [done|].
  destruct (skipped _); [by eapply IH|].
  destruct (decide _); [by eapply IH|].
  destruct (loadImportsOf _ _ _ _ _ _) as [[r1 c2] w2] eqn:H1.
  destruct r1 as [[]|e1| |]; try done; cycle 1.
  { injection H as <- <- <-. by eapply Himp. }
  destruct (getPackage _ _ _ _ _ _) as [r2 w3] eqn:H2.
  destruct r2 as [gl|e2| |]; try done.
  - destruct (pkgAt gl w3); [|done]. by eapply IH.
  - injection H as <- <- <-. by eapply getPackage_reported.
Qed.

Lemma loadImportsOf_reported dir tp : ∀ c w e c' w',
  loadImportsOf E recur dir tp c w = (Failed e, c', w') -> reported E e.
Proof.
  induction tp as [a p ns imps IH] using types_Package_ind.
  intros c w e c' w'. rewrite loadImportsOf_eq. simpl.
  by apply rangeTypesImports_reported.
Qed.

Lemma translate_reported l bp b w e w' p :
  pkgAt l w = Some p ->
  translate E recur l bp b w = (Failed e, w') -> reported E e.
Proof.
  unfold translate. intros Hp H.
  assert (∀ code w2, pkgAt l w2 = Some p ->
            store E l bp b code w2 = (Failed e, w') -> reported E e) as Hs.
  { intros code w2 Hp2 Hst.
    destruct (store_self _ _ _ _ _ _ _ _ _ Hst Hp2) as [_ Herr].
    destruct (Herr e eq_refl); [do 5 right; left | do 6 right]; eauto. }
  destruct (translatePackage _ _ _ _ _ _) as [[err|packageCode] reg] eqn:Ht.
  { injection H as <- <-. do 2 right. left. eauto 10. }
  destruct (build.IsCommand bp); [|eapply Hs; [|done]; by destruct l].
  destruct (typesPackages _ !! _) as [typesPkg|]; [|done].
  destruct (loadImportsOf _ _ _ _ _ _) as [[r2 c2] w2] eqn:Hload.
  destruct r2 as [[]|e2| |]; try done.
  - destruct (pkgAt l w2) as [p2|] eqn:Hp2.
    + destruct (store_self _ _ _ _ _ _ _ _ _ H Hp2) as [_ Herr].
      destruct (Herr e eq_refl); [do 5 right; left | do 6 right]; eauto.
    + unfold store in H. simpl in H.
      destruct b; simpl in H; [|done].
      destruct (os_MkdirAll _ _) eqn:Hmk;
        [injection H as <- <-; do 5 right; left; eauto|].
      destruct (os_OpenFile _ _) eqn:Hop;
        [injection H as <- <-; do 6 right; eauto|].
      by repeat case_match.
  - injection H as <- <-. by eapply loadImportsOf_reported.
Qed.

Lemma buildPackage_body_reported l b w e w' :
  buildPackage_body E recur l b w = (Failed e, w') -> reported E e.
Proof.
  unfold buildPackage_body. intros H.
  destruct (pkgAt l w) as [pkg|] eqn:Hl; [|done].
  destruct (decide _); [done|].
  destruct (freshness _ _ _ _ _) as [r1 w1] eqn:Hf.
  destruct r1 as [[]|e1| |]; try done; cycle 1.
  { injection H as <- <-. by eapply freshness_reported. }
  destruct (pkgAt l w1) as [pkg1|] eqn:Hl1; [|done].
  destruct (upToDate _ _ _ _).
  - by eapply loadFromDisk_reported.
  - by eapply translate_reported.
Qed.
End Origin.

Lemma buildPackage_reported E fuel : ∀ l b w e w',
  buildPackage E fuel l b w = (Failed e, w') -> reported E e.
Proof.
  induction fuel as [|fuel IH]; intros l b w e w' H; simpl in H; [done|].
  by eapply buildPackage_body_reported.
Qed.

(** ** No nil dereference *)

Section Safe.
Variable E : Env.
Variable recur : loc -> bool -> World -> outcome unit * World.
Hypothesis E_registers : registers E.
Hypothesis recur_Effect :
  ∀ l b w r w', recur l b w = (r, w') -> Effect [0; 1; 2] l w w'.
Hypothesis recur_safe :
  ∀ l b w r w', recur l b w = (r, w') -> is_Some (pkgAt l w) -> r ≠ Panicked.

Lemma getPackage_safe p d b w r w' :
  getPackage E recur p d b w = (r, w') -> r ≠ Panicked.
Proof.
  clear E_registers recur_Effect. unfold getPackage. intros H.
  destruct (packages w !! p); [by simplify_eq|].
  destruct (buildContext_Import E (files w) p d); [by simplify_eq|].
  destruct (recur _ _ _) as [r2 w2] eqn:Hr.
  apply recur_safe in Hr; [|simpl; rewrite lookup_insert_eq; by eexists].
  destruct r2; by simplify_eq.
Qed.

Lemma rangeImports_safe l dir imports : ∀ w r w',
  rangeImports E recur l dir imports w = (r, w') -> is_Some (pkgAt l w) ->
  r ≠ Panicked.
Proof.
  clear E_registers.
  induction imports as [|imp rest IH]; intros w r w' H [p Hp]; simpl in H;
    [by simplify_eq|].
  destruct (getPackage _ _ _ _ _ _) as [r1 w1] eqn:Hg.
  pose proof (getPackage_safe _ _ _ _ _ _ Hg) as Hsafe.
  pose proof (Quiet_pkgAt _ _ _ _
                (getPackage_Quiet E recur recur_Effect _ _ _ _ _ _ Hg) Hp)
    as Hp1.
  destruct r1 as [cl| | |]; try (by simplify_eq).
  destruct (getPackage_Done E recur recur_Effect _ _ _ _ _ _ Hg)
    as [-> [q Hq]].
  simpl in H. rewrite Hq in H. rewrite Hp1 in H.
  eapply IH; [done|].
  destruct (bump_later l (SrcLastModified q) w1 p Hp1) as (p2 & Hp2 & _).
  by eexists.
Qed.

Lemma rangeGoFiles_safe l dir names : ∀ w r w',
  rangeGoFiles l dir names w = (r, w') -> is_Some (pkgAt l w) ->
  r ≠ Panicked.
Proof.
  clear E_registers recur_Effect recur_safe.
  induction names as [|name rest IH]; intros w r w' H [p Hp]; simpl in H;
    [by simplify_eq|].
  destruct (os_Stat _ w) as [|fileInfo]; [by simplify_eq|].
  rewrite Hp in H. eapply IH; [done|].
  destruct (bump_later l (ModTime fileInfo) w p Hp) as (p2 & Hp2 & _).
  by eexists.
Qed.

Lemma freshness_safe l bp w r w' :
  freshness E recur l bp w = (r, w') -> is_Some (pkgAt l w) -> r ≠ Panicked.
Proof.
  clear E_registers. unfold freshness. intros H [p Hp].
  destruct (os_Stat _ w) as [|fileInfo]; [by simplify_eq|].
  pose proof (pkgAt_setSrcLastModified l (ModTime fileInfo) w p Hp) as Hp0.
  destruct (rangeImports _ _ _ _ _ _) as [r1 w1] eqn:H1.
  pose proof (rangeImports_safe _ _ _ _ _ _ H1 (mk_is_Some _ _ Hp0)) as Hs1.
  destruct (rangeImports_self E recur recur_Effect _ _ _ _ _ _ _ H1 Hp0)
    as (p1 & Hp1 & _).
  destruct r1 as [[]| | |]; try (by simplify_eq).
  eapply rangeGoFiles_safe; [done|by eexists].
Qed.

Lemma loadFromDisk_safe l bp w r w' :
  loadFromDisk E l bp w = (r, w') -> r ≠ Panicked.
Proof.
  clear E_registers recur_Effect recur_safe. unfold loadFromDisk. intros H.
  repeat case_match; by simplify_eq.
Qed.

Lemma rangeTypesImports_safe dir imps :
  Forall (fun tp => ∀ c w r c' w',
            loadImportsOf E recur dir tp c w = (r, c', w') -> r ≠ Panicked)
    imps ->
  ∀ c w r c' w',
    rangeTypesImports E recur dir imps c w = (r, c', w') -> r ≠ Panicked.
Proof.
  clear E_registers.
  induction 1 as [|imp rest Himp _ IH]; intros c w r c' w' H; simpl in H;
    [by simplify_eq|].
  destruct (skipped _); [by eapply IH|].
  destruct (decide _); [by eapply IH|].
  destruct (loadImportsOf _ _ _ _ _ _) as [[r1 c2] w2] eqn:H1.
  apply Himp in H1.
  destruct r1 as [[]| | |]; try (by simplify_eq).
  destruct (getPackage _ _ _ _ _ _) as [r2 w3] eqn:H2.
  pose proof (getPackage_safe _ _ _ _ _ _ H2) as Hsafe.
  destruct r2 as [gl| | |]; try (by simplify_eq).
  destruct (getPackage_Done E recur recur_Effect _ _ _ _ _ _ H2)
    as [-> [q Hq]].
  simpl in H. rewrite Hq in H. by eapply IH.
Qed.

Lemma loadImportsOf_safe dir tp : ∀ c w r c' w',
  loadImportsOf E recur dir tp c w = (r, c', w') -> r ≠ Panicked.
Proof.
  clear E_registers.
  induction tp as [a p ns imps IH] using types_Package_ind.
  intros c w r c' w'. rewrite loadImportsOf_eq. simpl.
  by apply rangeTypesImports_safe.
Qed.

Lemma store_safe l bp b code w r w' p :
  pkgAt l w = Some p ->
  (build.IsCommand bp = false ->
   is_Some (typesPackages w !! build.ImportPath bp)) ->
  store E l bp b code w = (r, w') -> r ≠ Panicked.
Proof.
  clear E_registers recur_Effect recur_safe. unfold store. intros Hp Hreg H.
  pose proof (pkgAt_setJavaScriptCode l code w p Hp) as Hp1.
  destruct (negb b); [by simplify_eq|].
  destruct (os_MkdirAll _ _); [by simplify_eq|].
  destruct (os_OpenFile _ _); [by simplify_eq|].
  set (w1 := setJavaScriptCode l code w) in *.
  set (path := build.PkgObj bp) in *.
  assert (typesPackages w1 = typesPackages w) as Hty
    by (unfold w1, setJavaScriptCode; apply typesPackages_updPkg).
  pose proof (sameButFile_createTruncate path
                (if build.IsCommand bp then 511 else 438)
                (log (EvOpenFile l path) w1)) as H2.
  set (w2 := createTruncate _ _ _) in *. cbv zeta in H.
  assert (sameButFile path (log (EvOpenFile l path) w1)
            (if build.IsCommand bp
             then file_Write path (bytes "#!/usr/bin/env node" ++ [NL]) w2
             else w2)) as H3.
  { destruct (build.IsCommand bp); [|done].
    eapply sameButFile_trans; [done|apply sameButFile_file_Write]. }
  set (w3 := if build.IsCommand bp then _ else w2) in *.
  assert (pkgAt l w3 = pkgAt l w1) as Hp3
    by (rewrite (sameButFile_pkgAt _ _ _ _ H3); by destruct l).
  assert (typesPackages w3 = typesPackages w) as Hty3.
  { destruct H3 as (_ & _ & -> & _). simpl. done. }
  rewrite Hp3, Hp1, Hty3 in H.
  destruct (build.IsCommand bp); simpl in H; [by simplify_eq|].
  destruct (Hreg eq_refl) as [tp Htp]. rewrite Htp in H. by simplify_eq.
Qed.

Lemma translate_safe l bp b w r w' :
  is_Some (pkgAt l w) ->
  translate E recur l bp b w = (r, w') -> r ≠ Panicked.
Proof.
  unfold translate. intros [p Hp] H.
  set (w0 := log _ w) in H.
  assert (pkgAt l w0 = Some p) as Hp0 by (by destruct l).
  destruct (translatePackage _ _ _ _ _ _) as [[err|packageCode] reg] eqn:Ht;
    [by simplify_eq|].
  apply E_registers in Ht.
  set (w1 := setTypesPackages reg w0) in H.
  assert (pkgAt l w1 = Some p) as Hp1 by (by destruct l).
  destruct (build.IsCommand bp) eqn:Hcmd.
  - change (typesPackages w1) with reg in H.
    destruct Ht as [typesPkg Htp]. rewrite Htp in H.
    destruct (loadImportsOf _ _ _ _ _ _) as [[r2 c2] w2] eqn:Hload.
    pose proof (loadImportsOf_safe _ _ _ _ _ _ _ Hload) as Hsafe.
    pose proof (Quiet_pkgAt _ _ _ _
                  (loadImportsOf_Quiet E recur recur_Effect _ _ _ _ _ _ _ Hload)
                  Hp1) as Hp2.
    destruct r2 as [[]| | |]; try (by simplify_eq).
    eapply store_safe; [exact Hp2| |exact H]. intros Hlib. congruence.
  - eapply store_safe; [exact Hp1| |exact H]. by intros _.
Qed.

Lemma buildPackage_body_safe l b w r w' :
  buildPackage_body E recur l b w = (r, w') -> is_Some (pkgAt l w) ->
  r ≠ Panicked.
Proof.
  unfold buildPackage_body. intros H [p Hp]. rewrite Hp in H.
  set (w0 := log _ w) in H.
  assert (pkgAt l w0 = Some p) as Hp0 by (by destruct l).
  destruct (decide _); [by simplify_eq|].
  destruct (freshness _ _ _ _ _) as [r1 w1] eqn:Hf.
  pose proof (freshness_safe _ _ _ _ _ Hf (mk_is_Some _ _ Hp0)) as Hsafe.
  destruct (freshness_self E recur recur_Effect _ _ _ _ _ _ Hf Hp0)
    as (p1 & Hp1 & _).
  destruct r1 as [[]| | |]; try (by simplify_eq).
  rewrite Hp1 in H.
  destruct (upToDate _ _ _ _).
  - by eapply loadFromDisk_safe.
  - eapply translate_safe; [by eexists|done].
Qed.
End Safe.

Lemma buildPackage_safe E (HE : registers E) fuel : ∀ l b w r w',
  buildPackage E fuel l b w = (r, w') -> is_Some (pkgAt l w) -> r ≠ Panicked.
Proof.
  induction fuel as [|fuel IH]; intros l b w r w' H Hl; simpl in H.
  - by simplify_eq.
  - eapply buildPackage_body_safe; [done|apply buildPackage_Effect|exact IH|..];
      done.
Qed.

(** ** The artifact of [install] *)

Lemma string_last (s : string) :
  s ≠ "" -> ∃ a c, s = a +:+ String c "".
Proof.
  induction s as [|x s IH]; [done|]. intros _.
  destruct s as [|y s]; [by exists "", x|].
  destruct IH as (a & c & Heq); [done|].
  exists (String x a), c. by rewrite string_app_cons, <- Heq.
Qed.

(** [path.Base] gives the last element of a path that ends in one. *)
Lemma path_Base_last (elem : string) :
  elem ≠ "" -> SLASH ∉ list_ascii_of_string elem ->
  path_Base elem = elem ∧ ∀ prefix, path_Base (prefix +:+ "/" +:+ elem) = elem.
Proof.
  intros Hne Hslash. destruct (string_last elem Hne) as (a & c & ->).
  split; [by apply path_Base_plain | intros prefix; by apply path_Base_join].
Qed.

(** The translation of the small universe registers what it translates. *)
Lemma envWith_registers emit u broken readonly :
  registers (Demo.envWith emit u broken readonly).
Proof.
  intros importPath dir goFiles fs reg code reg' H.
  cbn [Demo.envWith translatePackage] in H.
  destruct (Demo.find u importPath); [|done].
  destruct (bool_decide _); [done|]. injection H as _ <-.
  rewrite lookup_insert_eq. by eexists.
Qed.

(** ** The recursion ends *)

Lemma uncached_mono U w w' :
  (∀ k, is_Some (packages w !! k) -> is_Some (packages w' !! k)) ->
  uncached U w' ≤ uncached U w.
Proof.
  intros Hgrow. unfold uncached. apply subseteq_size.
  intros k [Hk Hnot]%elem_of_difference. apply elem_of_difference.
  split; [done|]. intros Hin. apply Hnot.
  apply elem_of_dom. apply Hgrow. by apply elem_of_dom.
Qed.

Lemma uncached_Effect U kinds l w w' :
  Effect kinds l w w' -> uncached U w' ≤ uncached U w.
Proof. intros H. apply uncached_mono. intros k. by eapply Effect_grow. Qed.

Lemma uncached_insert U p pkg w :
  packages w !! p = None -> p ∈ U ->
  uncached U (setPackages (<[p := pkg]> (packages w)) w) < uncached U w.
Proof.
  intros Hnone HU. unfold uncached. simpl. apply subset_size.
  rewrite dom_insert_L. split.
  - set_solver.
  - intros Hsub. assert (p ∈ U ∖ dom (packages w)) as Hp.
    { apply elem_of_difference. split; [done|]. by apply not_elem_of_dom. }
    apply Hsub in Hp. set_solver.
Qed.

Section Total.
Variable E : Env.
Variable U : gset string.
Hypothesis E_within : resolvesWithin E U.
Variable recur : loc -> bool -> World -> outcome unit * World.
Variable n : nat.
Hypothesis recur_Effect :
  ∀ l b w r w', recur l b w = (r, w') -> Effect [0; 1; 2] l w w'.
Hypothesis recur_total :
  ∀ l b w r w', recur l b w = (r, w') -> uncached U w < n -> r ≠ OutOfFuel.

Lemma getPackage_total p d b w r w' :
  getPackage E recur p d b w = (r, w') -> uncached U w ≤ n -> r ≠ OutOfFuel.
Proof.
  clear recur_Effect. unfold getPackage. intros H Hn.
  destruct (packages w !! p) eqn:Hc; [by simplify_eq|].
  destruct (buildContext_Import E (files w) p d) as [|otherPkg] eqn:Himp;
    [by simplify_eq|].
  destruct (recur _ _ _) as [r2 w2] eqn:Hr.
  apply recur_total in Hr.
  - destruct r2; by simplify_eq.
  - eapply Nat.lt_le_trans; [|exact Hn].
    apply uncached_insert; [done|]. by eapply E_within.
Qed.

Lemma rangeImports_total l dir imports : ∀ w r w',
  rangeImports E recur l dir imports w = (r, w') -> uncached U w ≤ n ->
  r ≠ OutOfFuel.
Proof.
  induction imports as [|imp rest IH]; intros w r w' H Hn; simpl in H;
    [by simplify_eq|].
  destruct (getPackage _ _ _ _ _ _) as [r1 w1] eqn:Hg.
  pose proof (getPackage_total _ _ _ _ _ _ Hg Hn) as Htot.
  pose proof (uncached_Effect U _ _ _ _
                (getPackage_Quiet E recur recur_Effect _ _ _ _ _ _ Hg l))
    as Hle.
  destruct r1 as [cl| | |]; try (by simplify_eq).
  destruct (pkgAt cl w1) as [compiledPkg|]; [|by simplify_eq].
  destruct (pkgAt l w1) as [pkg|]; [|by simplify_eq].
  eapply IH; [done|]. etrans; [|etrans; [exact Hle|exact Hn]].
  case_match; [|done].
  eapply uncached_Effect. by apply (Effect_updPkg l).
Qed.

Lemma rangeGoFiles_total l dir names : ∀ w r w',
  rangeGoFiles l dir names w = (r, w') -> r ≠ OutOfFuel.
Proof.
  clear E_within recur_Effect recur_total.
  induction names as [|name rest IH]; intros w r w' H; simpl in H;
    [by simplify_eq|].
  destruct (os_Stat _ w); [by simplify_eq|].
  destruct (pkgAt l w); [|by simplify_eq]. by eapply IH.
Qed.

Lemma freshness_total l bp w r w' :
  freshness E recur l bp w = (r, w') -> uncached U w ≤ n -> r ≠ OutOfFuel.
Proof.
  unfold freshness. intros H Hn.
  destruct (os_Stat _ w) as [|fileInfo]; [by simplify_eq|].
  destruct (rangeImports _ _ _ _ _ _) as [r1 w1] eqn:H1.
  apply rangeImports_total in H1; cycle 1.
  { etrans; [|exact Hn]. eapply uncached_Effect. by apply (Effect_updPkg l). }
  destruct r1 as [[]| | |]; try (by simplify_eq).
  by eapply rangeGoFiles_total.
Qed.

Lemma loadFromDisk_total l bp w r w' :
  loadFromDisk E l bp w = (r, w') -> r ≠ OutOfFuel.
Proof.
  clear E_within recur_Effect recur_total. unfold loadFromDisk. intros H.
  destruct (build.IsCommand bp); [by simplify_eq|].
  destruct (os_Open E _); [by simplify_eq|].
  destruct (files w !! _) as [objFile|]; [|by simplify_eq].
  destruct (dec_result _); [by simplify_eq|].
  destruct (scanPayload_total (Data objFile)
              (dec_offset (types_GcImportData E (typesPackages w)
                             (build.PkgObj bp) (build.ImportPath bp)
                             (Data objFile))
               `min` length (Data objFile))) as [Hs|(code & Hs)]; [lia| |];
    rewrite Hs in H; by simplify_eq.
Qed.

Lemma rangeTypesImports_total dir imps :
  Forall (fun tp => ∀ c w r c' w',
            loadImportsOf E recur dir tp c w = (r, c', w') ->
            uncached U w ≤ n -> r ≠ OutOfFuel) imps ->
  ∀ c w r c' w',
    rangeTypesImports E recur dir imps c w = (r, c', w') ->
    uncached U w ≤ n -> r ≠ OutOfFuel.
Proof.
  induction 1 as [|imp rest Himp _ IH]; intros c w r c' w' H Hn; simpl in H;
    [by simplify_eq|].
  destruct (skipped _); [by eapply IH|].
  destruct (decide _); [by eapply IH|].
  destruct (loadImportsOf _ _ _ _ _ _) as [[r1 c2] w2] eqn:H1.
  pose proof (Himp _ _ _ _ _ H1 Hn) as Htot1.
  pose proof (uncached_Effect U _ _ _ _
                (loadImportsOf_Quiet E recur recur_Effect _ _ _ _ _ _ _ H1
                   LRoot)) as Hle1.
  destruct r1 as [[]| | |]; try (by simplify_eq).
  destruct (getPackage _ _ _ _ _ _) as [r2 w3] eqn:H2.
  assert (uncached U w2 ≤ n) as Hn2 by (by etrans).
  pose proof (getPackage_total _ _ _ _ _ _ H2 Hn2) as Htot2.
  pose proof (uncached_Effect U _ _ _ _
                (getPackage_Quiet E recur recur_Effect _ _ _ _ _ _ H2 LRoot))
    as Hle2.
  destruct r2 as [gl| | |]; try (by simplify_eq).
  destruct (pkgAt gl w3); [|by simplify_eq].
  eapply IH; [done|]. by etrans.
Qed.

Lemma loadImportsOf_total dir tp : ∀ c w r c' w',
  loadImportsOf E recur dir tp c w = (r, c', w') ->
  uncached U w ≤ n -> r ≠ OutOfFuel.
Proof.
  induction tp as [a p ns imps IH] using types_Package_ind.
  intros c w r c' w'. rewrite loadImportsOf_eq. simpl.
  by apply rangeTypesImports_total.
Qed.

Lemma store_total l bp b code w r w' :
  store E l bp b code w = (r, w') -> r ≠ OutOfFuel.
Proof.
  clear E_within recur_Effect recur_total. unfold store. intros H.
  repeat case_match; by simplify_eq.
Qed.

Lemma translate_total l bp b w r w' :
  translate E recur l bp b w = (r, w') -> uncached U w ≤ n -> r ≠ OutOfFuel.
Proof.
  unfold translate. intros H Hn.
  destruct (translatePackage _ _ _ _ _ _) as [[err|packageCode] reg];
    [by simplify_eq|].
  destruct (build.IsCommand bp); [|by eapply store_total].
  destruct (typesPackages _ !! _) as [typesPkg|]; [|by simplify_eq].
  destruct (loadImportsOf _ _ _ _ _ _) as [[r2 c2] w2] eqn:Hload.
  apply loadImportsOf_total in Hload; [|exact Hn].
  destruct r2 as [[]| | |]; try (by simplify_eq).
  by eapply store_total.
Qed.

Lemma buildPackage_body_total l b w r w' :
  buildPackage_body E recur l b w = (r, w') -> uncached U w ≤ n ->
  r ≠ OutOfFuel.
Proof.
  unfold buildPackage_body. intros H Hn.
  destruct (pkgAt l w) as [pkg|]; [|by simplify_eq].
  destruct (decide _); [by simplify_eq|].
  destruct (freshness _ _ _ _ _) as [r1 w1] eqn:Hf.
  pose proof (freshness_total _ _ _ _ _ Hf Hn) as Htot.
  pose proof (uncached_Effect U _ _ _ _
                (freshness_Effect E recur recur_Effect _ _ _ _ _ Hf)) as Hle.
  destruct r1 as [[]| | |]; try (by simplify_eq).
  destruct (pkgAt l w1) as [pkg1|]; [|by simplify_eq].
  destruct (upToDate _ _ _ _).
  - by eapply loadFromDisk_total.
  - eapply translate_total; [done|]. by etrans.
Qed.
End Total.

Lemma buildPackage_total E U (HU : resolvesWithin E U) fuel : ∀ l b w r w',
  buildPackage E fuel l b w = (r, w') -> uncached U w < fuel -> r ≠ OutOfFuel.
Proof.
  induction fuel as [|fuel IH]; intros l b w r w' H Hn; simpl in H; [lia|].
  eapply buildPackage_body_total;
    [done | apply buildPackage_Effect | exact IH | done | lia].
Qed.

(** [buildContext.Import] of the small universe resolves its sources. *)
Lemma envWith_within emit u broken readonly :
  resolvesWithin (Demo.envWith emit u broken readonly)
    (list_to_set (map Demo.s_path u)).
Proof.
  intros fs importPath srcDir pkg H.
  cbn [Demo.envWith buildContext_Import] in H.
  destruct (Demo.find u importPath) as [s|] eqn:Hfind; [|done].
  unfold Demo.find in Hfind. apply find_some in Hfind as [Hin Hpath].
  apply bool_decide_eq_true in Hpath. subst.
  apply elem_of_list_to_set, list_elem_of_fmap. exists s. split; [done|].
  by apply list_elem_of_In.
Qed.

(** * Further properties of the program *)

(** X1.  A request for the pseudo-package unsafe that the cache does not
    hold succeeds as soon as [buildContext.Import] resolves it:
    [buildPackage] returns at its first test with [types.Unsafe]
    registered.  Nothing is stat'ed, opened or translated, so the request
    succeeds whatever the file system holds, and leaves it as it was; the
    new descriptor keeps the zero timestamp and has no code. *)
Theorem X1_unsafe_short_circuit (E : Env) (fuel : nat) (srcDir : string)
    (b : bool) (w : World) (bp : build.Package) :
  packages w !! "unsafe" = None ->
  buildContext_Import E (files w) "unsafe" srcDir = inr bp ->
  build.ImportPath bp = "unsafe" ->
  ∃ w', getPackage E (buildPackage E (S fuel)) "unsafe" srcDir b w
        = (Done (LCache "unsafe"), w')
    ∧ files w' = files w
    ∧ packages w' = <["unsafe" := mkGopherPackage bp 0 []]> (packages w)
    ∧ typesPackages w' = <["unsafe" := types_Unsafe E]> (typesPackages w)
    ∧ root w' = root w
    ∧ trace w' = trace w ++ [EvBuild (LCache "unsafe") true].
Proof.
  intros Hc Himp Hpath. unfold getPackage. rewrite Hc, Himp.
  cbn [buildPackage]. unfold buildPackage_body.
  cbn [pkgAt packages setPackages]. rewrite lookup_insert_eq.
  cbn [Package]. rewrite decide_True by done.
  eexists. split; [reflexivity|]. by split_and!.
Qed.

(** X2.  When lines 176-200 succeed, the freshness timestamp of the
    descriptor is the maximum of three things: the modification time of
    the gopherjs binary, the timestamps of the imports, and the
    modification times of the package's own source files.  It is no older
    than any of them and equal to one of them. *)
Theorem X2_freshness_is_the_maximum (E : Env) (fuel : nat) (l : loc)
    (bp : build.Package) (w w' : World) (p' : GopherPackage) :
  freshness E (buildPackage E fuel) l bp w = (Done tt, w') ->
  is_Some (pkgAt l w) ->
  pkgAt l w' = Some p' ->
  ∃ self, files w !! os_Args0 E = Some self
    ∧ ModTime self ≤ SrcLastModified p'
    ∧ (∀ B, B ∈ build.Imports bp ->
         ∃ pB, packages w' !! B = Some pB
               ∧ SrcLastModified pB ≤ SrcLastModified p')
    ∧ (∀ name, name ∈ build.GoFiles bp ->
         ∃ f, files w' !! (build.Dir bp +:+ "/" +:+ name) = Some f
              ∧ ModTime f ≤ SrcLastModified p')
    ∧ (SrcLastModified p' = ModTime self
       ∨ (∃ B pB, B ∈ build.Imports bp ∧ packages w' !! B = Some pB
                  ∧ SrcLastModified pB = SrcLastModified p')
       ∨ (∃ name f, name ∈ build.GoFiles bp
                    ∧ files w' !! (build.Dir bp +:+ "/" +:+ name) = Some f
                    ∧ ModTime f = SrcLastModified p')).
Proof.
  intros H Hl Hp'.
  destruct (freshness_attained E _ (buildPackage_Effect E fuel) _ _ _ _ _
              H Hl Hp') as (self & Hself & Hle & Hmax).
  exists self. split_and!; [done|done| | |done].
  - by eapply (freshness_imports E _ (buildPackage_Effect E fuel)).
  - by eapply (freshness_sources E _ (buildPackage_Effect E fuel)).
Qed.

(** X3.  A build with [writeToDisk] unset, as [run] asks for the entry
    package, never opens the artifact of its descriptor, whatever its
    outcome, and changes no file that no build of a dependency opened.
    Nor does it reuse an artifact: once the timestamps are computed it
    always goes on to translate, however new the artifact on disk is. *)
Theorem X3_unwritten_build (E : Env) (fuel : nat) (l : loc) (w : World)
    (r : outcome unit) (w' : World) :
  buildPackage E (S fuel) l false w = (r, w') ->
  (∃ new, trace w' = trace w ++ new ∧ (l ∉ omap openedBy new)
          ∧ ∀ path, path ∉ omap openedPath new ->
                    files w' !! path = files w !! path)
  ∧ (∀ p w1,
       pkgAt l w = Some p -> build.ImportPath (Package p) ≠ "unsafe" ->
       freshness E (buildPackage E fuel) l (Package p)
         (log (EvBuild l false) w) = (Done tt, w1) ->
       translate E (buildPackage E fuel) l (Package p) false w1 = (r, w')).
Proof.
  intros H. split; [by eapply buildPackage_unwritten|].
  - intros p w1 Hp Hns Hf. cbn [buildPackage] in H.
    destruct (buildPackage_body_ways E _ (buildPackage_Effect E fuel)
                _ _ _ _ _ _ H Hp Hns) as (r1 & w1' & Hf' & Hways).
    rewrite Hf in Hf'. injection Hf' as <- <-.
    destruct Hways as [[Hne _]|(_ & p1 & _ & _ & _ & Hgo)]; [done|].
    by rewrite upToDate_false in Hgo.
Qed.

(** X4.  When the artifact of a command exists and is strictly newer than
    the freshness timestamp, a build with [writeToDisk] set returns nil
    right after the timestamps are computed (line 206): the world is the
    one the import walk left.  The artifact is neither opened nor decoded,
    the command is not translated, and its descriptor keeps the code it
    had, none for a descriptor that was just created. *)
Theorem X4_command_up_to_date (E : Env) (fuel : nat) (l : loc)
    (w w1 : World) (p p1 : GopherPackage) (f : File) :
  pkgAt l w = Some p ->
  build.ImportPath (Package p) ≠ "unsafe" ->
  build.IsCommand (Package p) = true ->
  freshness E (buildPackage E fuel) l (Package p) (log (EvBuild l true) w)
  = (Done tt, w1) ->
  pkgAt l w1 = Some p1 ->
  files w1 !! build.PkgObj (Package p) = Some f ->
  SrcLastModified p1 < ModTime f ->
  buildPackage E (S fuel) l true w = (Done tt, w1)
  ∧ JavaScriptCode p1 = JavaScriptCode p
  ∧ ∃ new, trace w1 = trace w ++ new
      ∧ (l ∉ omap translatedBy new) ∧ (l ∉ omap openedBy new).
Proof.
  intros Hp Hns Hcmd Hf Hp1 Hfile Hnew.
  assert (pkgAt l (log (EvBuild l true) w) = Some p) as Hp0 by (by destruct l).
  destruct (freshness_self E _ (buildPackage_Effect E fuel) _ _ _ _ _ _ Hf Hp0)
    as (p1' & Hp1' & _ & Hcode).
  assert (p1' = p1) as -> by congruence.
  split_and!; [|done|].
  - cbn [buildPackage]. unfold buildPackage_body.
    rewrite Hp, decide_False, Hf, Hp1 by done.
    unfold upToDate, os_Stat. rewrite Hfile. unfold After.
    rewrite bool_decide_eq_true_2 by lia. simpl.
    unfold loadFromDisk. by rewrite Hcmd.
  - assert (Effect [0] l w w1) as [(new & Ht & _ & Hev & _) _ _ _ _].
    { change [0] with ([0] ++ []).
      eapply Effect_trans;
        [right; by eexists | set_solver | apply Effect_log_build |].
      by eapply (freshness_Effect E _ (buildPackage_Effect E fuel)). }
    exists new. split; [done|].
    split; intros (e' & He' & Hl)%list_elem_of_omap;
      destruct e' as [|l' ip|l' path]; try done; injection Hl as ->;
      (destruct (Hev _ He') as [[_ Hk]|Hfr]; simpl in *;
       [set_solver | apply fresh_not_present in Hfr; congruence]).
Qed.


(** X6.  An artifact that holds no code is misread when its blob holds a
    sentinel of its own.  Read from the end of the file, the scan first
    looks four bytes back, so it never examines the sentinel that closes
    the file; it stops at the sentinel before it, and the rest of the blob
    with the closing sentinel becomes the code of the package. *)
Theorem X6_empty_payload_misread (E : Env) (l : loc) (bp : build.Package)
    (w : World) (objFile : File) (typesPkg : types.Package)
    (a b : list byte) (p : GopherPackage) :
  sentinelFree b ->
  Data objFile = a ++ sentinel ++ b ++ sentinel ->
  build.IsCommand bp = false ->
  os_Open E (build.PkgObj bp) = None ->
  files w !! build.PkgObj bp = Some objFile ->
  dec_result (types_GcImportData E (typesPackages w) (build.PkgObj bp)
                (build.ImportPath bp) (Data objFile)) = inr typesPkg ->
  length (Data objFile)
  < dec_offset (types_GcImportData E (typesPackages w) (build.PkgObj bp)
                  (build.ImportPath bp) (Data objFile)) + 3 ->
  pkgAt l w = Some p ->
  scanPayload (Data objFile) (length (Data objFile)) = Payload (b ++ sentinel)
  ∧ ∃ w', loadFromDisk E l bp w = (Done tt, w')
      ∧ (JavaScriptCode <$> pkgAt l w') = Some (b ++ sentinel).
Proof.
  intros Hfree Hdata Hlib Hopen Hfile Hdec Hoff Hp. split.
  - rewrite Hdata. apply scanPayload_nested; [done|lia|lia].
  - assert (∀ off, length (Data objFile) < off + 3 ->
              scanPayload (Data objFile) (off `min` length (Data objFile))
              = Payload (b ++ sentinel)) as Hscan.
    { intros off Hlt. rewrite Hdata in *.
      apply scanPayload_nested; [done|lia|lia]. }
    unfold loadFromDisk. rewrite Hlib, Hopen, Hfile, Hdec, Hscan by done.
    eexists. split; [reflexivity|].
    erewrite pkgAt_setJavaScriptCode; [done|]. by destruct l.
Qed.

(** X7.  What [store] writes for a library, [loadFromDisk] reads back.
    After a successful [store] of a library the artifact is the exporter's
    output for the registered type interface followed by the code.  In
    any later world where that file is unchanged and the decoder accepts
    it, leaving the file offset at or after the end of the export data,
    the load succeeds, registers the decoded interface and gives the
    descriptor the very code that was stored, provided the code is not
    empty and holds no sentinel. *)
Theorem X7_store_load_round_trip (E : Env) (l : loc) (bp : build.Package)
    (code : list byte) (w w1 : World) (p : GopherPackage) :
  build.IsCommand bp = false ->
  pkgAt l w = Some p ->
  store E l bp true code w = (Done tt, w1) ->
  sentinelFree code -> code ≠ [] ->
  ∃ exported f,
    typesPackages w !! build.ImportPath bp = Some exported
    ∧ files w1 !! build.PkgObj bp = Some f
    ∧ Data f = gcexporter_Write E exported ++ code
    ∧ ∀ l2 w2 p2 typesPkg,
        files w2 !! build.PkgObj bp = Some f ->
        pkgAt l2 w2 = Some p2 ->
        os_Open E (build.PkgObj bp) = None ->
        dec_result (types_GcImportData E (typesPackages w2) (build.PkgObj bp)
                      (build.ImportPath bp) (Data f)) = inr typesPkg ->
        length (exportData E exported)
        ≤ dec_offset (types_GcImportData E (typesPackages w2)
                        (build.PkgObj bp) (build.ImportPath bp) (Data f)) ->
        ∃ w3, loadFromDisk E l2 bp w2 = (Done tt, w3)
          ∧ (JavaScriptCode <$> pkgAt l2 w3) = Some code
          ∧ typesPackages w3 !! build.ImportPath bp = Some typesPkg.
Proof.
  intros Hlib Hp Hstore Hfree Hne.
  destruct (store_artifact _ _ _ _ _ _ _ Hstore Hp)
    as (f & header & Hf & Hd & _ & Hh).
  rewrite Hlib in Hh. destruct Hh as (exported & Hreg & ->).
  exists exported, f. split_and!; [done..|].
  intros l2 w2 p2 typesPkg Hf2 Hp2 Hopen Hdec Hoff.
  assert (∀ off, length (exportData E exported) ≤ off ->
            scanPayload (Data f) (off `min` length (Data f)) = Payload code)
    as Hscan.
  { intros off Hle. rewrite Hd. unfold gcexporter_Write.
    rewrite <- app_assoc. apply scanPayload_artifact; [done|done|].
    rewrite !length_app. lia. }
  unfold loadFromDisk. rewrite Hlib, Hopen, Hf2, Hdec, Hscan by done.
  eexists. split; [reflexivity|]. split.
  - erewrite pkgAt_setJavaScriptCode; [done|]. by destruct l2.
  - unfold setJavaScriptCode. rewrite typesPackages_updPkg. simpl.
    by rewrite lookup_insert_eq.
Qed.


(** X9.  Whatever its outcome, a call of [buildPackage] changes only files
    that are artifacts: a file that differs afterwards, or is new, is at
    the [PkgObj] path of a descriptor of the run, the cache's or the entry
    request's, and carries the time of the run.  Source files and the
    gopherjs binary are read, never written, unless such a path is given
    as the artifact path of a package. *)
Theorem X9_only_artifacts_are_written (E : Env) (fuel : nat) (l : loc)
    (b : bool) (w : World) (r : outcome unit) (w' : World) (path : string) :
  buildPackage E fuel l b w = (r, w') ->
  files w' !! path ≠ files w !! path ->
  ∃ l' pkg f, pkgAt l' w' = Some pkg
    ∧ build.PkgObj (Package pkg) = path
    ∧ files w' !! path = Some f ∧ ModTime f = now w.
Proof.
  intros H Hdiff.
  pose proof (buildPackage_steps _ _ _ _ _ _ _ H) as Hsteps.
  destruct (buildPackage_written _ _ _ _ _ _ _ H) as (new & _ & Hfiles & Hown).
  destruct (decide (path ∈ omap openedPath new)) as [Hin|Hout];
    [|by destruct Hdiff; apply Hfiles].
  apply list_elem_of_omap in Hin as (e & He & Hpath).
  destruct e as [| |l' path']; try done. injection Hpath as ->.
  destruct (Hown _ _ He) as (pkg & Hpkg & Hobj).
  destruct (steps_files_new _ _ path Hsteps) as [Hsame|(f & Hf & Hm)]; [done|].
  by exists l', pkg, f.
Qed.

(** X10.  A run never removes a file.  A file that existed before a call
    of [buildPackage] exists after it, whatever the outcome, with the mode
    it had, and either unchanged or rewritten at the time of the run; so
    rebuilding a command whose artifact exists with another mode does not
    make it executable. *)
Theorem X10_files_are_never_removed (E : Env) (fuel : nat) (l : loc)
    (b : bool) (w : World) (r : outcome unit) (w' : World) (path : string)
    (f : File) :
  buildPackage E fuel l b w = (r, w') ->
  files w !! path = Some f ->
  ∃ f', files w' !! path = Some f' ∧ Perm f' = Perm f
        ∧ (f' = f ∨ ModTime f' = now w).
Proof.
  intros H Hf. eapply steps_files; [|done]. by eapply buildPackage_steps.
Qed.

(** X11.  The descriptors of the cache are filled once.  A call of
    [buildPackage], whatever its outcome, leaves every descriptor that was
    in the cache before it exactly as it was, timestamp and code included,
    apart from the descriptor it is called for, which keeps its
    [build.Package]; no key leaves the cache, and the descriptor of the
    entry request is touched only by its own build. *)
Theorem X11_cached_descriptors_are_final (E : Env) (fuel : nat) (l : loc)
    (b : bool) (w : World) (r : outcome unit) (w' : World) :
  buildPackage E fuel l b w = (r, w') ->
  (∀ k pkg, packages w !! k = Some pkg -> LCache k ≠ l ->
            packages w' !! k = Some pkg)
  ∧ (∀ k, is_Some (packages w !! k) -> is_Some (packages w' !! k))
  ∧ (l ≠ LRoot -> root w' = root w)
  ∧ (∀ pkg, pkgAt l w = Some pkg ->
       ∃ pkg', pkgAt l w' = Some pkg' ∧ Package pkg' = Package pkg).
Proof.
  intros H. apply buildPackage_Effect in H. split_and!.
  - intros k pkg Hk Hne.
    rewrite (eff_frame _ _ _ _ H); [done | by eexists | done].
  - intros k Hk. by eapply Effect_grow.
  - apply (eff_root _ _ _ _ H).
  - apply (eff_self _ _ _ _ H).
Qed.

(** X12.  [main] starts node only for [run], and only when [buildPackage]
    has returned nil.  What node then reads on its standard input is the
    code of the entry descriptor: the prelude and a newline, the blocks of
    the imports, the code of the entry package, and [main();].  [run]
    builds the entry package with [writeToDisk] unset: its artifact is not
    opened, and a file that differs after the run is the artifact of a
    package of the cache, that is of a dependency. *)
Theorem X12_run_pipes_the_bundle (E : Env)
    (parser_ParseFile : gmap string File -> string -> error + list string)
    (node_Start : option error) (fuel : nat) (cmd arg : string)
    (fs : gmap string File) (t : nat) (stdin : list byte)
    (final : option World) :
  main E parser_ParseFile node_Start fuel cmd arg fs t = (NodeFed stdin, final) ->
  cmd = "run" ∧ node_Start = None
  ∧ ∃ w' blocks packageCode,
      final = Some w'
      ∧ stdin = JavaScriptCode (root w')
      ∧ stdin = (prelude E ++ [NL]) ++ concat (map (block E) blocks)
                ++ packageCode ++ bytes "main();"
      ∧ (LRoot ∉ opened w')
      ∧ ∀ path, files w' !! path ≠ fs !! path ->
          ∃ k pkg, packages w' !! k = Some pkg
                   ∧ build.PkgObj (Package pkg) = path.
Proof.
  unfold main. intros H.
  destruct (dispatch _ _ _ _ _) as [pkg|e] eqn:Hd; cycle 1.
  { injection H as -> _. destruct (dispatch_Stop _ _ _ _ _ _ Hd) as [_ Hn].
    by destruct (Hn stdin). }
  destruct (buildPackage _ _ _ _ _) as [r w'] eqn:Hb.
  destruct r as [[]|e| |]; [|by destruct e|done|done].
  destruct (decide (cmd = "run")) as [->|]; [|done].
  destruct node_Start; [done|]. injection H as <- <-.
  split_and!; [done..|].
  destruct (dispatch_entry _ _ _ _ _ _ (or_intror eq_refl) Hd) as [Hname Hpath].
  rewrite bool_decide_eq_false_2 in Hb by (intros Hne; by apply Hne).
  destruct (buildPackage_unwritten _ _ _ _ _ _ Hb) as (new & Ht & Hroot & _).
  destruct (buildPackage_written _ _ _ _ _ _ _ Hb) as (new' & Ht' & Hfiles & Hown).
  simpl in Ht, Ht'. assert (new' = new) as -> by congruence.
  destruct fuel as [|fuel]; [done|]. cbn [buildPackage] in Hb.
  destruct (buildPackage_body_ways E _ (buildPackage_Effect E fuel)
              _ _ _ _ _ (mkGopherPackage pkg 0 []) Hb eq_refl)
    as (r1 & w1 & Hf & Hways).
  { simpl. rewrite Hpath. discriminate. }
  destruct Hways as [(Hne & <- & _)|(-> & p1 & Hp1 & Hk1 & _ & Hgo)]; [done|].
  rewrite upToDate_false in Hgo. simpl in Hgo.
  edestruct (translate_command_code E _ (buildPackage_Effect E fuel))
    as (blocks & packageCode & reg & _ & Hcode);
    [exact Hgo | by unfold build.IsCommand; rewrite Hname | exact Hp1 |].
  simpl in Hcode. injection Hcode as Hcode.
  exists w', blocks, packageCode. split_and!; [done|done| | |].
  - by rewrite Hcode.
  - unfold opened. by rewrite Ht.
  - intros path Hdiff.
    destruct (decide (path ∈ omap openedPath new)) as [Hin|Hout];
      [|by destruct Hdiff; apply Hfiles].
    apply list_elem_of_omap in Hin as (e & He & Hopened).
    destruct e as [| |l' path']; try done. injection Hopened as ->.
    destruct (Hown _ _ He) as (q & Hq & Hobj).
    destruct l' as [|k]; [|by exists k, q].
    destruct Hroot. apply list_elem_of_omap. by exists (EvOpenFile LRoot path).
Qed.

(** X13.  When [gopherjs build] ends without a message, the artifact of
    the entry package is on disk.  Either it was found up to date,
    strictly newer than the freshness timestamp, and the entry descriptor
    has no code; or it was written by this run: it is the line
    [#!/usr/bin/env node] followed by the code of the entry descriptor,
    which begins with the prelude and ends with [main();]. *)
Theorem X13_build_leaves_the_executable (E : Env)
    (parser_ParseFile : gmap string File -> string -> error + list string)
    (node_Start : option error) (fuel : nat) (arg : string)
    (fs : gmap string File) (t : nat) (final : option World) :
  main E parser_ParseFile node_Start fuel "build" arg fs t = (Finished, final) ->
  ∃ w' f,
    final = Some w'
    ∧ files w' !! build.PkgObj (Package (root w')) = Some f
    ∧ ((JavaScriptCode (root w') = []
        ∧ SrcLastModified (root w') < ModTime f)
       ∨ (Data f = (bytes "#!/usr/bin/env node" ++ [NL])
                   ++ JavaScriptCode (root w')
          ∧ ModTime f = t
          ∧ ∃ blocks packageCode,
              JavaScriptCode (root w')
              = (prelude E ++ [NL]) ++ concat (map (block E) blocks)
                ++ packageCode ++ bytes "main();")).
Proof.
  unfold main. intros H.
  destruct (dispatch _ _ _ _ _) as [pkg|e] eqn:Hd; cycle 1.
  { injection H as -> _. by destruct (dispatch_Stop _ _ _ _ _ _ Hd) as [[] _]. }
  destruct (buildPackage _ _ _ _ _) as [r w'] eqn:Hb.
  destruct r as [[]|e| |]; [|by destruct e|done|done].
  rewrite decide_False in H by discriminate. injection H as <-.
  destruct (dispatch_entry _ _ _ _ _ _ (or_introl eq_refl) Hd) as [Hname Hpath].
  rewrite bool_decide_eq_true_2 in Hb by discriminate.
  destruct fuel as [|fuel]; [done|]. cbn [buildPackage] in Hb.
  destruct (buildPackage_body_ways E _ (buildPackage_Effect E fuel)
              _ _ _ _ _ (mkGopherPackage pkg 0 []) Hb eq_refl)
    as (r1 & w1 & Hf & Hways).
  { simpl. rewrite Hpath. discriminate. }
  destruct Hways as [(Hne & <- & _)|(-> & p1 & Hp1 & Hk1 & Hj1 & Hgo)]; [done|].
  simpl in Hgo, Hk1, Hj1, Hp1. injection Hp1 as Hp1.
  assert (build.IsCommand pkg = true) as Hcmd
    by (unfold build.IsCommand; by rewrite Hname).
  assert (now w1 = t) as Hnow.
  { by rewrite (eff_now _ _ _ _
                  (freshness_Effect E _ (buildPackage_Effect E fuel)
                     _ _ _ _ _ Hf)). }
  destruct (upToDate _ _ _ _) eqn:Hup.
  - unfold loadFromDisk in Hgo. rewrite Hcmd in Hgo. injection Hgo as <-.
    unfold upToDate, os_Stat in Hup.
    destruct (files w1 !! build.PkgObj pkg) as [f|] eqn:Hfile; [|done].
    apply andb_prop in Hup as [Hafter _]. unfold After in Hafter.
    apply bool_decide_eq_true in Hafter.
    exists w1, f. rewrite Hp1, Hk1. split_and!; [done|done|].
    left. by rewrite Hj1.
  - edestruct (translate_command_code E _ (buildPackage_Effect E fuel))
      as (blocks & packageCode & reg & _ & Hcode);
      [exact Hgo | exact Hcmd | exact (f_equal Some Hp1) |].
    edestruct (translate_command_artifact E _ (buildPackage_Effect E fuel))
      as (f & code & Hfile & Hdata & Hm & Hcode');
      [exact Hgo | exact Hcmd | exact (f_equal Some Hp1) |].
    rewrite Hcode in Hcode'. simpl in Hcode, Hcode'. injection Hcode as Hroot.
    injection Hcode' as <-.
    exists w', f. rewrite Hroot. simpl. rewrite Hk1.
    split_and!; [done|done|]. right. split_and!; [done|congruence|eauto].
Qed.

(** X14.  For [build] and [run] the artifact is named after the entry file
    alone: the directory of the file plays no part, and the last three
    bytes of the name are cut whatever they are.  For a file [stem] plus
    three bytes, inside a directory or not, the descriptor has the file as
    its only source and [stem.js], a path relative to the working
    directory, as its artifact. *)
Theorem X14_entry_artifact_name (parseImports : string -> error + list string)
    (path_Dir : string -> string) (dir stem ext : string)
    (imports : list string) :
  String.length ext = 3 ->
  SLASH ∉ list_ascii_of_string (stem +:+ ext) ->
  (parseImports (dir +:+ "/" +:+ stem +:+ ext) = inr imports ->
   entryDescriptor parseImports path_Dir (dir +:+ "/" +:+ stem +:+ ext)
   = Done {| build.Name := "main"; build.ImportPath := "main";
             build.Imports := imports;
             build.Dir := path_Dir (dir +:+ "/" +:+ stem +:+ ext);
             build.GoFiles := [stem +:+ ext];
             build.PkgObj := stem +:+ ".js"; build.BinDir := "" |})
  ∧ (parseImports (stem +:+ ext) = inr imports ->
     entryDescriptor parseImports path_Dir (stem +:+ ext)
     = Done {| build.Name := "main"; build.ImportPath := "main";
               build.Imports := imports;
               build.Dir := path_Dir (stem +:+ ext);
               build.GoFiles := [stem +:+ ext];
               build.PkgObj := stem +:+ ".js"; build.BinDir := "" |}).
Proof.
  intros Hext Hslash.
  destruct ext as [|a [|b [|c [|? ?]]]]; try done.
  assert (stem +:+ String a (String b (String c ""))
          = (stem +:+ String a (String b "")) +:+ String c "") as Hsplit
    by (by rewrite string_app_assoc).
  rewrite Hsplit in Hslash.
  assert (path_Base (dir +:+ "/" +:+ stem +:+ String a (String b (String c "")))
          = stem +:+ String a (String b (String c ""))) as Hjoin
    by (rewrite Hsplit; by apply path_Base_join).
  assert (path_Base (stem +:+ String a (String b (String c "")))
          = stem +:+ String a (String b (String c ""))) as Hplain
    by (rewrite Hsplit; by apply path_Base_plain).
  split; intros Hparse; unfold entryDescriptor; rewrite Hparse; cbv zeta;
    rewrite ?Hjoin, ?Hplain, artifactName_stem by done; reflexivity.
Qed.

(** X15.  The [Error] callback of the type checker prints a message unless
    it is the one it was called with just before.  Over any sequence of
    calls no two lines that follow each other are equal and the first line
    differs from the initial [previousErr]; nothing is printed that was not
    reported, in the order of the reports; and every message that differs
    from the initial [previousErr] is printed at least once. *)
Theorem X15_repeated_errors_are_printed_once (previousErr : string)
    (errs : list string) :
  (∀ i x y, reportErrors previousErr errs !! i = Some x ->
            reportErrors previousErr errs !! S i = Some y -> x ≠ y)
  ∧ (∀ x rest, reportErrors previousErr errs = x :: rest -> x ≠ previousErr)
  ∧ reportErrors previousErr errs `sublist_of` errs
  ∧ (∀ err, err ∈ errs -> err ≠ previousErr ->
            err ∈ reportErrors previousErr errs).
Proof.
  split_and!.
  - intros i. revert previousErr errs.
    induction i as [|i IH]; intros prev errs x y Hx Hy.
    + destruct (reportErrors prev errs) as [|x' out] eqn:Hout; [done|].
      simpl in Hx, Hy. injection Hx as ->.
      destruct (reportErrors_head _ _ _ _ Hout) as (_ & rest & ->).
      destruct (reportErrors x rest) as [|y' out'] eqn:Hout'; [done|].
      simpl in Hy. injection Hy as ->.
      destruct (reportErrors_head _ _ _ _ Hout') as [Hne _]. congruence.
    + destruct (reportErrors prev errs) as [|x' out] eqn:Hout; [done|].
      destruct (reportErrors_head _ _ _ _ Hout) as (_ & rest & ->).
      simpl in Hx, Hy. by eapply IH.
  - intros x rest H. by destruct (reportErrors_head _ _ _ _ H).
  - revert previousErr. induction errs as [|err rest IH]; intros prev; simpl;
      [done|].
    destruct (decide (err ≠ prev)); simpl.
    + by apply sublist_skip.
    + by apply sublist_cons.
  - revert previousErr. induction errs as [|err0 rest IH];
      intros prev err Hin Hne; [by apply elem_of_nil in Hin|].
    simpl. apply elem_of_cons in Hin as [->|Hin].
    + rewrite decide_True by done. simpl. set_solver.
    + destruct (decide (err = err0)) as [->|Hne0].
      * rewrite decide_True by done. simpl. set_solver.
      * apply elem_of_app. right. by apply IH.
Qed.

(** X16.  [install] puts the artifact in the bin directory of the package,
    under the last element of its import path followed by [.js]; the rest
    of the descriptor is what [buildContext.Import] returned. *)
Theorem X16_install_artifact_path (E : Env)
    (parser_ParseFile : gmap string File -> string -> error + list string)
    (arg : string) (fs : gmap string File) (buildPkg : build.Package)
    (elem : string) :
  buildContext_Import E fs arg "" = inr buildPkg ->
  elem ≠ "" ->
  SLASH ∉ list_ascii_of_string elem ->
  (build.ImportPath buildPkg = elem
   ∨ ∃ prefix, build.ImportPath buildPkg = prefix +:+ "/" +:+ elem) ->
  ∃ pkg, dispatch E parser_ParseFile "install" arg fs = Build pkg
    ∧ build.PkgObj pkg = build.BinDir buildPkg +:+ "/" +:+ elem +:+ ".js"
    ∧ build.Name pkg = build.Name buildPkg
    ∧ build.ImportPath pkg = build.ImportPath buildPkg
    ∧ build.Imports pkg = build.Imports buildPkg
    ∧ build.Dir pkg = build.Dir buildPkg
    ∧ build.GoFiles pkg = build.GoFiles buildPkg.
Proof.
  intros Himp Hne Hslash Hpath. unfold dispatch.
  rewrite decide_True by done. rewrite Himp.
  eexists. split; [reflexivity|]. split_and!; try done.
  destruct (path_Base_last elem Hne Hslash) as [Hplain Hjoin].
  cbn [installDescriptor build.PkgObj].
  destruct Hpath as [->|[prefix ->]]; by rewrite ?Hplain, ?Hjoin.
Qed.


(** X18.  The registry is read without a nil check at two places: the
    bundle assembler starts from the registry's entry for the command
    (line 284), and the exporter is handed the entry for the library
    (line 313).  When [translatePackage] leaves the type interface of
    every package it has translated in the registry, neither is nil: a
    call of [buildPackage] for a descriptor that exists does not panic,
    whatever its imports are. *)
Theorem X18_no_nil_dereference (E : Env) (fuel : nat) (l : loc) (b : bool)
    (w : World) (r : outcome unit) (w' : World) :
  registers E ->
  is_Some (pkgAt l w) ->
  buildPackage E fuel l b w = (r, w') ->
  r ≠ Panicked.
Proof. intros HE Hl H. by eapply buildPackage_safe. Qed.

(** X19.  The recursion of [buildPackage] ends, import cycles included.  A
    nested call is made by [getPackage] alone, for an import path it has
    just added to the cache, so the recursion is no deeper than the number
    of import paths that [buildContext.Import] can resolve and the cache
    does not hold yet.  With fuel above that number, and a translation that
    registers what it translates, a call for a descriptor that exists
    returns nil or an error a collaborator reported. *)
Theorem X19_buildPackage_returns (E : Env) (U : gset string) (fuel : nat)
    (l : loc) (b : bool) (w : World) (r : outcome unit) (w' : World) :
  resolvesWithin E U ->
  registers E ->
  is_Some (pkgAt l w) ->
  uncached U w < fuel ->
  buildPackage E fuel l b w = (r, w') ->
  r = Done tt ∨ ∃ e, r = Failed e ∧ reported E e.
Proof.
  intros HU HE Hl Hfuel H.
  pose proof (buildPackage_total E U HU _ _ _ _ _ _ H Hfuel) as Htotal.
  pose proof (buildPackage_safe E HE _ _ _ _ _ _ H Hl) as Hsafe.
  destruct r as [[]|e| |]; [by left| |done|done].
  right. exists e. split; [done|]. by eapply buildPackage_reported.
Qed.

(** * The further properties on the small universe *)

(** X1: unsafe is resolved on an empty file system. *)
Lemma X1_witness :
  ∃ w', getPackage Sample.unsafeEnv (buildPackage Sample.unsafeEnv 1)
          "unsafe" "/app" true Sample.emptyStart
        = (Done (LCache "unsafe"), w')
    ∧ files w' = ∅.
Proof.
  destruct (X1_unsafe_short_circuit Sample.unsafeEnv 0 "/app" true
              Sample.emptyStart
              (Demo.describe (Demo.mkSource "unsafe" "unsafe" [] [] 1))
              eq_refl eq_refl eq_refl) as (w' & Hrun & Hfiles & _).
  exists w'. by split.
Defined.

(** X2: the timestamp of main in the diamond is that of d's source. *)
Lemma X2_witness :
  ∃ self, files (log (EvBuild LRoot true) Demo.diamondStart) !! "/bin/gopherjs"
          = Some self
    ∧ ModTime self ≤ SrcLastModified (root (snd Demo.diamondWalked)).
Proof.
  destruct (X2_freshness_is_the_maximum Demo.diamondEnv 9 LRoot
              (Package (root Demo.diamondStart))
              (log (EvBuild LRoot true) Demo.diamondStart)
              (snd Demo.diamondWalked) (root (snd Demo.diamondWalked))
              ltac:(by vm_compute) ltac:(by eexists) eq_refl)
    as (self & Hself & Hle & _).
  exists self. by split.
Defined.

(** X3: [gopherjs run] on the diamond does not open main.js. *)
Lemma X3_witness :
  ∃ new, trace (snd Demo.diamondRun) = trace Demo.diamondStart ++ new
    ∧ LRoot ∉ omap openedBy new.
Proof.
  destruct (proj1 (X3_unwritten_build Demo.diamondEnv 9 LRoot
                     Demo.diamondStart (fst Demo.diamondRun)
                     (snd Demo.diamondRun) ltac:(by vm_compute)))
    as (new & Ht & Hroot & _).
  exists new. by split.
Defined.

(** X4: a second [gopherjs build] of the diamond finds main.js up to date. *)
Lemma X4_witness :
  buildPackage Demo.diamondEnv 10 LRoot true Sample.builtOnce
  = (Done tt, snd Sample.rewalked)
  ∧ JavaScriptCode (root (snd Sample.rewalked)) = [].
Proof.
  assert (Sample.rewalked = (Done tt, snd Sample.rewalked)) as Hwalk
    by (by vm_compute).
  assert (∃ f, files (snd Sample.rewalked) !! "main.js" = Some f
               ∧ SrcLastModified (root (snd Sample.rewalked)) < ModTime f)
    as (f & Hfile & Hnewer).
  { eexists. split; [by vm_compute|]. vm_compute. lia. }
  destruct (X4_command_up_to_date Demo.diamondEnv 9 LRoot Sample.builtOnce
              (snd Sample.rewalked) (root Sample.builtOnce)
              (root (snd Sample.rewalked)) f eq_refl ltac:(discriminate)
              eq_refl Hwalk eq_refl Hfile Hnewer) as (Hrun & Hcode & _).
  split; [exact Hrun|]. rewrite Hcode. reflexivity.
Defined.


(** X6: the artifact [p$$\nq$$\n] gives d the code [q$$\n]. *)
Lemma X6_witness :
  ∃ w', loadFromDisk Demo.diamondEnv (LCache "d") (Package Demo.descriptorD)
          Sample.nestedWorld = (Done tt, w')
    ∧ (JavaScriptCode <$> pkgAt (LCache "d") w')
      = Some (bytes "q" ++ sentinel).
Proof.
  apply (X6_empty_payload_misread Demo.diamondEnv (LCache "d")
           (Package Demo.descriptorD) Sample.nestedWorld
           (mkFile 50 438 Sample.nestedArtifact) Demo.typesD
           (bytes "p") (bytes "q") Demo.descriptorD).
  - apply sentinelFreeb_correct. by vm_compute.
  - reflexivity.
  - reflexivity.
  - reflexivity.
  - by vm_compute.
  - by vm_compute.
  - vm_compute. lia.
  - by vm_compute.
Defined.

(** X7: the artifact [store] writes for d is read back as d's code. *)
Lemma X7_witness :
  ∃ exported f,
    typesPackages Sample.storeD !! "d" = Some exported
    ∧ files (snd Sample.storedD) !! "/pkg/d.a" = Some f
    ∧ Data f = gcexporter_Write Demo.diamondEnv exported ++ bytes "/*d*/".
Proof.
  destruct (X7_store_load_round_trip Demo.diamondEnv (LCache "d")
              (Package Demo.descriptorD) (bytes "/*d*/") Sample.storeD
              (snd Sample.storedD) Demo.descriptorD)
    as (exported & f & Hreg & Hfile & Hdata & _).
  - reflexivity.
  - by vm_compute.
  - by vm_compute.
  - apply sentinelFreeb_correct. by vm_compute.
  - discriminate.
  - exists exported, f. split_and!; [exact Hreg | exact Hfile | exact Hdata].
Defined.


(** X9: the new file /pkg/d.a is the artifact of a descriptor. *)
Lemma X9_witness :
  ∃ l' pkg, pkgAt l' (snd Demo.diamondBuild) = Some pkg
    ∧ build.PkgObj (Package pkg) = "/pkg/d.a".
Proof.
  destruct (X9_only_artifacts_are_written Demo.diamondEnv 10 LRoot true
              Demo.diamondStart (fst Demo.diamondBuild)
              (snd Demo.diamondBuild) "/pkg/d.a"
              ltac:(by vm_compute) ltac:(by vm_compute))
    as (l' & pkg & f & Hpkg & Hobj & _).
  by exists l', pkg.
Defined.

(** X10: the source of main is still there after the build. *)
Lemma X10_witness :
  ∃ f', files (snd Demo.diamondBuild) !! "/app/main.go" = Some f'
    ∧ Perm f' = 420.
Proof.
  destruct (X10_files_are_never_removed Demo.diamondEnv 10 LRoot true
              Demo.diamondStart (fst Demo.diamondBuild)
              (snd Demo.diamondBuild) "/app/main.go" (Demo.source 10)
              ltac:(by vm_compute) ltac:(by vm_compute))
    as (f' & Hfile & Hperm & _).
  exists f'. split; [exact Hfile|]. rewrite Hperm. reflexivity.
Defined.

(** X11: building d for a second run leaves the entry descriptor alone. *)
Lemma X11_witness :
  root (snd (buildPackage Demo.diamondEnv 5 (LCache "d") true
               (Demo.secondRunD Demo.diamondEnv)))
  = root (Demo.secondRunD Demo.diamondEnv).
Proof.
  apply (X11_cached_descriptors_are_final Demo.diamondEnv 5 (LCache "d") true
           (Demo.secondRunD Demo.diamondEnv)
           (fst (buildPackage Demo.diamondEnv 5 (LCache "d") true
                   (Demo.secondRunD Demo.diamondEnv)))
           (snd (buildPackage Demo.diamondEnv 5 (LCache "d") true
                   (Demo.secondRunD Demo.diamondEnv)))
           ltac:(by vm_compute)).
  discriminate.
Defined.

(** X12: [gopherjs run /app/main.go] on the diamond. *)
Lemma X12_witness :
  ∃ w' blocks packageCode,
    snd (Sample.diamondMain "run") = Some w'
    ∧ JavaScriptCode (root w')
      = (prelude Demo.diamondEnv ++ [NL])
        ++ concat (map (block Demo.diamondEnv) blocks)
        ++ packageCode ++ bytes "main();"
    ∧ LRoot ∉ opened w'.
Proof.
  destruct (X12_run_pipes_the_bundle Demo.diamondEnv Sample.parseDiamond None
              10 "run" "/app/main.go" Demo.diamondFiles 100
              (JavaScriptCode (root (snd Demo.diamondRun)))
              (Some (snd Demo.diamondRun)) ltac:(by vm_compute))
    as (_ & _ & w' & blocks & packageCode & Hfinal & Hin & Hcode & Hroot & _).
  exists w', blocks, packageCode. split_and!; [|congruence|done].
  rewrite <- Hfinal. by vm_compute.
Defined.

(** X13: [gopherjs build /app/main.go] on the diamond. *)
Lemma X13_witness :
  ∃ w' f, snd (Sample.diamondMain "build") = Some w'
    ∧ files w' !! build.PkgObj (Package (root w')) = Some f.
Proof.
  destruct (X13_build_leaves_the_executable Demo.diamondEnv Sample.parseDiamond
              None 10 "/app/main.go" Demo.diamondFiles 100
              (Some (snd Demo.diamondBuild)) ltac:(by vm_compute))
    as (w' & f & Hfinal & Hfile & _).
  exists w', f. split; [|done]. rewrite <- Hfinal. by vm_compute.
Defined.

(** X14: /app/main.go gives main.js. *)
Lemma X14_witness :
  entryDescriptor (fun _ => inr ["b"; "c"]) Demo.dirOf "/app/main.go"
  = Done {| build.Name := "main"; build.ImportPath := "main";
            build.Imports := ["b"; "c"];
            build.Dir := Demo.dirOf "/app/main.go";
            build.GoFiles := ["main.go"]; build.PkgObj := "main.js";
            build.BinDir := "" |}.
Proof.
  apply (proj1 (X14_entry_artifact_name (fun _ => inr ["b"; "c"]) Demo.dirOf
                  "/app" "main" ".go" ["b"; "c"] eq_refl
                  ltac:(vm_compute; set_solver))).
  reflexivity.
Defined.

(** X16: [gopherjs install d] writes /bin/d.js. *)
Lemma X16_witness :
  ∃ pkg, dispatch Demo.diamondEnv Sample.parseDiamond "install" "d"
           Demo.diamondFiles = Build pkg
    ∧ build.PkgObj pkg = "/bin/d.js".
Proof.
  destruct (X16_install_artifact_path Demo.diamondEnv Sample.parseDiamond "d"
              Demo.diamondFiles (Package Demo.descriptorD) "d"
              eq_refl ltac:(discriminate) ltac:(vm_compute; set_solver)
              (or_introl eq_refl)) as (pkg & Hrun & Hobj & _).
  exists pkg. split; [exact Hrun | exact Hobj].
Defined.


(** X18: the translation of the small universe registers what it
    translates, and the build of the diamond does not panic. *)
Lemma X18_witness : fst Demo.diamondBuild ≠ Panicked.
Proof.
  apply (X18_no_nil_dereference Demo.diamondEnv 10 LRoot true
           Demo.diamondStart (fst Demo.diamondBuild) (snd Demo.diamondBuild)).
  - apply envWith_registers.
  - by eexists.
  - by vm_compute.
Defined.

(** X19: the diamond has four import paths, and fuel 10 is enough. *)
Lemma X19_witness :
  fst Demo.diamondBuild = Done tt
  ∨ ∃ e, fst Demo.diamondBuild = Failed e ∧ reported Demo.diamondEnv e.
Proof.
  apply (X19_buildPackage_returns Demo.diamondEnv
           (list_to_set (map Demo.s_path Demo.diamond)) 10 LRoot true
           Demo.diamondStart (fst Demo.diamondBuild) (snd Demo.diamondBuild)).
  - apply envWith_within.
  - apply envWith_registers.
  - by eexists.
  - vm_compute. lia.
  - by vm_compute.
Defined.
